(** * Shape detector: detection pipeline and scoring subsystem

    A shallow embedding of [src/main.ts] ([ShapeDetector.detectShapes]),
    [src/evaluation-utils.ts] ([calculateIoU], [calculateDistance],
    [evaluateDetection]) and [src/evaluation.ts] ([calculateScore],
    [calculateGrade], the batch fold of [runEvaluation]).

    Numbers.  JavaScript numbers are IEEE doubles.  Where the outcome of the
    code depends on how a double is rounded, the model computes in doubles
    (the primitive binary64 floats of the prover): the gray level of a pixel
    ([luminance], [toUint8Clamped]), the intersection over union of two boxes
    ([calculateIoU]), its comparisons in the matcher, and the sums and
    averages of IoU values ([average_iou], [averageIoU]).  Counts,
    coordinates of pixels and scores are integers.  The other numbers
    (precision, recall, F1, the accuracies, the geometric features of a
    region, the percentage of a batch) are exact rationals ([Q]): the
    constants of the source are read as the decimal they are written as
    ([0.75] is [3/4], [1e-6] is [1/1000000]) and [Math.PI] as the rational
    value of its double; a division whose divisor may be zero goes through
    [jsDiv], which has no result there (JavaScript yields an infinity or
    NaN).  The coordinates of a box are kept as the rationals they are written
    as and are read as the nearest double by [calculateIoU].  [Math.sqrt]
    and [Math.acos] are parameters of the development. *)

From Stdlib Require Import Floats.
From Stdlib Require Import String ZArith QArith Qround List Permutation Bool Lia Lqa.
Import ListNotations.

Set Warnings "-inexact-float".

Local Open Scope Q_scope.

(** ** Numbers *)

Module Num.

Definition ltb (a b : Q) : bool :=
  match a ?= b with Lt => true | _ => false end.

Definition leb (a b : Q) : bool :=
  match a ?= b with Gt => false | _ => true end.

Definition gtb (a b : Q) : bool := ltb b a.
Definition geb (a b : Q) : bool := leb b a.

Definition is_zero (a : Q) : bool :=
  match a ?= 0 with Eq => true | _ => false end.

(** [a / b] of the source where [b] may be zero: no finite result then. *)
Definition jsDiv (a b : Q) : option Q :=
  if is_zero b then None else Some (a / b).

(** [Math.max(a, b)] and [Math.min(a, b)]. *)
Definition max (a b : Q) : Q := if ltb a b then b else a.
Definition min (a b : Q) : Q := if ltb b a then b else a.

(** [Math.abs]. *)
Definition abs (a : Q) : Q := if ltb a 0 then - a else a.

(** [Math.round]: the integer nearest to [a], halves going up. *)
Definition round (a : Q) : Z := Qfloor (a + (1 # 2)).

(** Truthiness of a number: every number but zero (and NaN) is truthy. *)
Definition truthy (a : Q) : bool := negb (is_zero a).

End Num.

(** ** Doubles *)

Module Double.

(** The double nearest to an integer, ties to even. *)
Definition of_Z (z : Z) : float :=
  SF2Prim (binary_normalize prec emax z 0 false).

(** The double nearest to a rational, ties to even: the quotient of the
    numerator, scaled to leave at least 56 bits, by the denominator, with a
    last bit that tells whether the division left a remainder, rounded
    once.  This is how a decimal literal or a number of a JSON file becomes a
    double; a rational that is a double is left as it is. *)
Definition of_Q (q : Q) : float :=
  let n := Z.abs (Qnum q) in
  let d := Zpos (Qden q) in
  let k := Z.max 0 (Z.log2 d - Z.log2 n + 56) in
  let '(quotient, remainder) := Z.div_eucl (n * 2 ^ k) d in
  let m := (2 * quotient + (if remainder =? 0 then 0 else 1))%Z in
  SF2Prim (binary_normalize prec emax (if Qnum q <? 0 then - m else m)%Z
                            (- k - 1) false).

(** The value of a double that is neither an infinity nor NaN. *)
Definition value (v : float) : option Q :=
  match Prim2SF v with
  | S754_zero _ => Some 0
  | S754_finite s m e =>
      let a := inject_Z (Zpos m) * Qpower 2 e in
      Some (if s then - a else a)
  | _ => None
  end.

(** [a > b] and [a >= b]: false when [a] or [b] is NaN. *)
Definition gtb (a b : float) : bool := PrimFloat.ltb b a.
Definition geb (a b : float) : bool := PrimFloat.leb b a.

(** [Math.max(a, b)] and [Math.min(a, b)]: NaN when [a] or [b] is NaN; of
    the two zeros, [+0] is the larger. *)
Definition max (a b : float) : float :=
  if is_nan a || is_nan b then nan
  else if PrimFloat.ltb a b then b
  else if PrimFloat.ltb b a then a
  else match Prim2SF a with S754_zero true => b | _ => a end.

Definition min (a b : float) : float :=
  if is_nan a || is_nan b then nan
  else if PrimFloat.ltb a b then a
  else if PrimFloat.ltb b a then b
  else match Prim2SF a with S754_zero false => b | _ => a end.

(** A double that is not NaN. *)
Definition isNumber (a : float) : bool := PrimFloat.leb a a.

End Double.

(** ** Data model ([main.ts], [evaluation-utils.ts]) *)

Record Point := mkPoint { pt_x : Q; pt_y : Q }.

Record Box := mkBox { box_x : Q; box_y : Q; box_width : Q; box_height : Q }.

Inductive ShapeType := circle | triangle | rectangle | pentagon | star.

Definition typeName (t : ShapeType) : string :=
  match t with
  | circle => "circle"
  | triangle => "triangle"
  | rectangle => "rectangle"
  | pentagon => "pentagon"
  | star => "star"
  end.

Record DetectedShape := mkDetectedShape {
  ds_type : ShapeType;
  ds_confidence : Q;
  ds_boundingBox : Box;
  ds_center : Point;
  ds_area : Q
}.

Record DetectionResult := mkDetectionResult {
  shapes : list DetectedShape;
  processingTime : Q;
  imageWidth : Z;
  imageHeight : Z
}.

(** [GroundTruthShape].  [evaluateDetection] hands [bounding_box] of every
    candidate of the detection's type to [calculateIoU], which reads its four
    fields, so the box is a plain field here; the fields the matcher tests
    before use are optional. *)
Record GroundTruthShape := mkGroundTruthShape {
  gt_type : string;
  gt_center : option Point;
  gt_bounding_box : Box;
  gt_area : option Q;
  gt_confidence_expected : option Q
}.

Record EvaluationMetrics := mkEvaluationMetrics {
  precision : Q;
  recall : Q;
  f1_score : Q;
  average_iou : float;
  center_point_accuracy : Q;
  area_accuracy : Q;
  confidence_calibration : Q;
  processing_time : Q
}.

(** ** [calculateIoU] *)

(** The edges of a box as [calculateIoU] computes them: [box.x], [box.y],
    [box.x + box.width] and [box.y + box.height]. *)
Definition leftEdge (b : Box) : float := Double.of_Q (box_x b).
Definition topEdge (b : Box) : float := Double.of_Q (box_y b).
Definition rightEdge (b : Box) : float :=
  (Double.of_Q (box_x b) + Double.of_Q (box_width b))%float.
Definition bottomEdge (b : Box) : float :=
  (Double.of_Q (box_y b) + Double.of_Q (box_height b))%float.

(** The corners of the intersection rectangle: [x1], [y1], [x2], [y2]. *)
Definition iouCorners (box1 box2 : Box) : float * float * float * float :=
  (Double.max (leftEdge box1) (leftEdge box2),
   Double.max (topEdge box1) (topEdge box2),
   Double.min (rightEdge box1) (rightEdge box2),
   Double.min (bottomEdge box1) (bottomEdge box2)).

(** [box.width * box.height]. *)
Definition boxArea (b : Box) : float :=
  (Double.of_Q (box_width b) * Double.of_Q (box_height b))%float.

Definition calculateIoU (box1 box2 : Box) : float :=
  let '(x1, y1, x2, y2) := iouCorners box1 box2 in
  if PrimFloat.leb x2 x1 || PrimFloat.leb y2 y1 then 0%float
  else
    let intersection := ((x2 - x1) * (y2 - y1))%float in
    let union := (boxArea box1 + boxArea box2 - intersection)%float in
    (intersection / union)%float.

(** ** Outcomes of a call

    [Thrown]: the call raised the named JavaScript error.  [OutOfFuel]: the
    bound of a [while] loop of this model ran out (shown never to happen, see
    [floodFill_returns]). *)

Inductive outcome (A : Type) : Type :=
| Returned (a : A)
| Thrown (error : string)
| OutOfFuel.

Arguments Returned {A} a.
Arguments Thrown {A} error.
Arguments OutOfFuel {A}.

Definition bind {A B} (m : outcome A) (k : A -> outcome B) : outcome B :=
  match m with
  | Returned a => k a
  | Thrown e => Thrown e
  | OutOfFuel => OutOfFuel
  end.

(** ** Typed arrays ([Uint8ClampedArray], [Uint8Array]) as lists of bytes *)

Module TypedArray.

(** [new Uint8Array(n)]: [n] zeros; a negative length is a [RangeError]. *)
Definition create (n : Z) : outcome (list Z) :=
  if (n <? 0)%Z then Thrown "RangeError" else Returned (repeat 0%Z (Z.to_nat n)).

(** [a[i]]; [None] is [undefined], the value of a read outside the array. *)
Definition get (a : list Z) (i : Z) : option Z :=
  if (i <? 0)%Z then None else nth_error a (Z.to_nat i).

Fixpoint update (a : list Z) (i : nat) (v : Z) : list Z :=
  match a, i with
  | [], _ => []
  | _ :: rest, O => v :: rest
  | h :: rest, S j => h :: update rest j v
  end.

(** [a[i] = v]; a write outside the array is ignored. *)
Definition set (a : list Z) (i : Z) (v : Z) : list Z :=
  if (i <? 0)%Z then a else update a (Z.to_nat i) v.

(** [a[i] === v]. *)
Definition equals (a : list Z) (i : Z) (v : Z) : bool :=
  match get a i with
  | Some w => (w =? v)%Z
  | None => false
  end.

(** Truthiness of [a[i]]: [undefined] and [0] are falsy. *)
Definition truthy (a : list Z) (i : Z) : bool :=
  match get a i with
  | Some w => negb (w =? 0)%Z
  | None => false
  end.

End TypedArray.

(** ** The detection pipeline ([ShapeDetector.detectShapes]) *)

Record ImageData := mkImageData {
  img_width : Z;
  img_height : Z;
  img_data : list Z
}.

(** A pixel coordinate [{x, y}] of the pipeline. *)
Definition Pixel : Type := (Z * Z)%type.

Definition Math_PI : Q := 884279719003555 # 281474976710656.

Definition epsilon : Q := 1 # 1000000.

(** A value clamped to 0..255 and rounded to the nearest integer, ties to
    even. *)
Definition clampToByte (v : Q) : Z :=
  if Num.leb v 0 then 0%Z
  else if Num.leb 255 v then 255%Z
  else
    let f := Qfloor v in
    let r := v - inject_Z f in
    if Num.ltb r (1 # 2) then f
    else if Num.ltb (1 # 2) r then (f + 1)%Z
    else if Z.even f then f else (f + 1)%Z.

(** Conversion of a number to an element of a [Uint8ClampedArray]: the value
    of the double clamped and rounded; [+Infinity] gives 255, [-Infinity] and
    NaN give 0. *)
Definition toUint8Clamped (v : float) : Z :=
  match Double.value v with
  | Some q => clampToByte q
  | None => if PrimFloat.ltb 0 v then 255%Z else 0%Z
  end.

(** [0.299 * r + 0.587 * g + 0.114 * b], in doubles. *)
Definition luminance (r g b : Z) : float :=
  (0.299 * Double.of_Z r + 0.587 * Double.of_Z g + 0.114 * Double.of_Z b)%float.

(** STEP 1.  The values written by the loop over [data], four samples per
    pixel: a pixel whose green or blue sample is missing gets NaN, stored
    as 0. *)
Fixpoint grayValues (data : list Z) : list Z :=
  match data with
  | [] => []
  | r :: g :: b :: _ :: rest => toUint8Clamped (luminance r g b) :: grayValues rest
  | r :: g :: b :: [] => [toUint8Clamped (luminance r g b)]
  | _ => [0%Z]
  end.

(** [gray]: an array of [n] zeros overwritten from its start by the loop;
    writes past its end are ignored. *)
Definition grayscale (n : nat) (data : list Z) : list Z :=
  firstn n (grayValues data ++ repeat 0%Z n).

(** STEP 2. *)
Definition sumOf (gray : list Z) : Z := fold_left Z.add gray 0%Z.

(** [gray[i] < avg] and [gray[i] > avg]; false when [avg] is NaN. *)
Definition belowAvg (avg : option Q) (g : Z) : bool :=
  match avg with Some a => Num.ltb (inject_Z g) a | None => false end.

Definition aboveAvg (avg : option Q) (g : Z) : bool :=
  match avg with Some a => Num.gtb (inject_Z g) a | None => false end.

Definition countPolarity (avg : option Q) (gray : list Z) : Z * Z :=
  fold_left (fun '(darkPixels, lightPixels) g =>
               if belowAvg avg g then (darkPixels + 1, lightPixels)%Z
               else (darkPixels, lightPixels + 1)%Z)
            gray (0%Z, 0%Z).

Definition binarize (gray : list Z) : list Z :=
  let avg := Num.jsDiv (inject_Z (sumOf gray)) (inject_Z (Z.of_nat (length gray))) in
  let '(darkPixels, lightPixels) := countPolarity avg gray in
  let shapesAreLight := (lightPixels <? darkPixels)%Z in
  map (fun g => if shapesAreLight
                then (if aboveAvg avg g then 1%Z else 0%Z)
                else (if belowAvg avg g then 1%Z else 0%Z)) gray.

(** STEP 3. *)
Definition dirs : list (Z * Z) :=
  [(1, 0); (-1, 0); (0, 1); (0, -1); (1, 1); (1, -1); (-1, 1); (-1, -1)]%Z.

Definition index (width : Z) (x y : Z) : Z := (y * width + x)%Z.

(** [nx < 0 || ny < 0 || nx >= width || ny >= height]. *)
Definition outOfBounds (width height nx ny : Z) : bool :=
  (nx <? 0)%Z || (ny <? 0)%Z || (nx >=? width)%Z || (ny >=? height)%Z.

Section Segmenter.

Variables (width height : Z) (binary : list Z).

(** One turn of the loop over [dirs] inside the flood fill.  The stack [q]
    is a list whose head is the top of the stack. *)
Definition visitNeighbor (c : Pixel) (st : list Z * list Pixel) (d : Z * Z)
  : list Z * list Pixel :=
  let '(visited, q) := st in
  let nx := (fst c + fst d)%Z in
  let ny := (snd c + snd d)%Z in
  if outOfBounds width height nx ny then st
  else
    let nidx := index width nx ny in
    if TypedArray.equals binary nidx 1 && negb (TypedArray.truthy visited nidx)
    then (TypedArray.set visited nidx 1, (nx, ny) :: q)
    else st.

(** [while (q.length) { ... }]: pops a pixel, appends it to [pixels], pushes
    its unvisited foreground neighbours. *)
Fixpoint floodLoop (fuel : nat) (q : list Pixel) (visited : list Z)
  (pixels : list Pixel) : outcome (list Z * list Pixel) :=
  match q with
  | [] => Returned (visited, pixels)
  | c :: q' =>
      match fuel with
      | O => OutOfFuel
      | S fuel' =>
          let '(visited', q'') := fold_left (visitNeighbor c) dirs (visited, q') in
          floodLoop fuel' q'' visited' (pixels ++ [c])
      end
  end.

(** The flood fill started at the unvisited foreground pixel [(x, y)]. *)
Definition floodFill (visited : list Z) (x y : Z) : outcome (list Z * list Pixel) :=
  floodLoop (S (length visited)) [(x, y)]
            (TypedArray.set visited (index width x y) 1) [].

(** The two nested scan loops, row by row, as one loop over the coordinates
    in row-major order.  [handle] is what the body does with a region once
    it is filled: [None] for [continue], [Some a] for a value pushed, unless
    it throws. *)
Fixpoint scanLoop {A : Type} (handle : list Pixel -> outcome (option A))
  (coords : list Pixel) (visited : list Z) (acc : list A) : outcome (list A) :=
  match coords with
  | [] => Returned acc
  | (x, y) :: rest =>
      let idx := index width x y in
      if TypedArray.equals binary idx 0 || TypedArray.truthy visited idx
      then scanLoop handle rest visited acc
      else
        match floodFill visited x y with
        | Returned (visited', pixels) =>
            match handle pixels with
            | Returned None => scanLoop handle rest visited' acc
            | Returned (Some a) => scanLoop handle rest visited' (acc ++ [a])
            | Thrown e => Thrown e
            | OutOfFuel => OutOfFuel
            end
        | Thrown e => Thrown e
        | OutOfFuel => OutOfFuel
        end
  end.

End Segmenter.

(** [0, 1, ..., n-1] *)
Definition upto (n : Z) : list Z := map Z.of_nat (seq 0 (Z.to_nat n)).

(** The coordinates visited by [for y < height: for x < width]. *)
Definition scanOrder (width height : Z) : list Pixel :=
  flat_map (fun y => map (fun x => (x, y)) (upto width)) (upto height).

(** STEP 4 to STEP 7: what the body of the scan does with one region. *)

(** The least and the greatest element of a non-empty array (a region has
    at least its start pixel). *)
Definition leastOf (xs : list Z) : Z :=
  match xs with
  | [] => 0%Z
  | a :: rest => fold_left Z.min rest a
  end.

Definition greatestOf (xs : list Z) : Z :=
  match xs with
  | [] => 0%Z
  | a :: rest => fold_left Z.max rest a
  end.

(** [Math.min(...xs)] and [Math.max(...xs)].  The spread passes every element
    of [xs] as an argument of one call, and an engine accepts only so many
    arguments: [maxArguments] of them here, a parameter of the development.
    With more, the call throws a [RangeError]. *)
Definition minOf (maxArguments : Z) (xs : list Z) : outcome Z :=
  if (maxArguments <? Z.of_nat (length xs))%Z then Thrown "RangeError"
  else Returned (leastOf xs).

Definition maxOf (maxArguments : Z) (xs : list Z) : outcome Z :=
  if (maxArguments <? Z.of_nat (length xs))%Z then Thrown "RangeError"
  else Returned (greatestOf xs).

(** The geometric metrics of a region; the pixel counts and the sides of the
    bounding box are integers. *)
Record ShapeFeatures := mkShapeFeatures {
  sf_area : Z;
  sf_minX : Z;
  sf_minY : Z;
  sf_width : Z;
  sf_height : Z;
  sf_center : Point;
  sf_perimeter : Z;
  sf_circularity : Q;
  sf_corners : Z;
  sf_fillRatio : Q;
  sf_aspectRatio : Q;
  sf_thinness : Q
}.

Section Detector.

(** [Math.sqrt] and [Math.acos]. *)
Variables (Math_sqrt Math_acos : Q -> Q).

(** The number of arguments the engine accepts in one call. *)
Variable maxArguments : Z.

Section Region.

Variables (width height : Z) (binary : list Z).

(** The loop over [dirs] of the perimeter computation and of the [boundary]
    filter: true as soon as a neighbour inside the image is background
    ([edge = true; break] and [return true]); neighbours outside the image
    are skipped ([continue]). *)
Fixpoint hasBackgroundNeighbor (px py : Z) (ds : list (Z * Z)) : bool :=
  match ds with
  | [] => false
  | (dx, dy) :: rest =>
      let nx := (px + dx)%Z in
      let ny := (py + dy)%Z in
      if outOfBounds width height nx ny then hasBackgroundNeighbor px py rest
      else if TypedArray.equals binary (index width nx ny) 0 then true
      else hasBackgroundNeighbor px py rest
  end.

Definition perimeterOf (pixels : list Pixel) : Z :=
  fold_left (fun perimeter '(px, py) =>
               if hasBackgroundNeighbor px py dirs then (perimeter + 1)%Z
               else perimeter)
            pixels 0%Z.

Definition boundaryOf (pixels : list Pixel) : list Pixel :=
  filter (fun '(x, y) => hasBackgroundNeighbor x y dirs) pixels.

(** STEP 5: the test made at index [i] of [boundary]. *)
Definition isCorner (boundary : list Pixel) (i : nat) : bool :=
  let n := length boundary in
  let p1 := nth i boundary (0, 0)%Z in
  let p2 := nth ((i + 1) mod n) boundary (0, 0)%Z in
  let p3 := nth ((i + 2) mod n) boundary (0, 0)%Z in
  let v1 := (fst p2 - fst p1, snd p2 - snd p1)%Z in
  let v2 := (fst p3 - fst p2, snd p3 - snd p2)%Z in
  let dot := (fst v1 * fst v2 + snd v1 * snd v2)%Z in
  let mag := Math_sqrt (inject_Z (fst v1 * fst v1 + snd v1 * snd v1))
             * Math_sqrt (inject_Z (fst v2 * fst v2 + snd v2 * snd v2)) in
  let angle :=
    Math_acos (Num.max (- (1)) (Num.min 1 (inject_Z dot / (mag + epsilon)))) in
  Num.gtb angle (Math_PI / 4) && Num.ltb angle (3 * Math_PI / 4).

(** The values of [i] in [for (i = 0; i < n; i += floor(n / 20) + 1)]. *)
Definition cornerIndices (n : nat) : list nat :=
  let step := (n / 20 + 1)%nat in
  map (fun k => (k * step)%nat) (seq 0 ((n + step - 1) / step)).

Definition countCorners (boundary : list Pixel) : Z :=
  fold_left (fun corners i =>
               if isCorner boundary i then (corners + 1)%Z else corners)
            (cornerIndices (length boundary)) 0%Z.

(** STEP 4 to STEP 6 once the four extremes are there. *)
Definition measure (minX maxX minY maxY : Z) (pixels : list Pixel) : ShapeFeatures :=
  let area := Z.of_nat (length pixels) in
  let bwidth := (maxX - minX)%Z in
  let bheight := (maxY - minY)%Z in
  let perimeter := perimeterOf pixels in
  let bboxArea := (bwidth * bheight)%Z in
  {| sf_area := area;
     sf_minX := minX;
     sf_minY := minY;
     sf_width := bwidth;
     sf_height := bheight;
     sf_center := {| pt_x := inject_Z (minX + maxX) / 2;
                     pt_y := inject_Z (minY + maxY) / 2 |};
     sf_perimeter := perimeter;
     sf_circularity :=
       (4 * Math_PI * inject_Z area) / (inject_Z (perimeter * perimeter) + epsilon);
     sf_corners := countCorners (boundaryOf pixels);
     sf_fillRatio := inject_Z area / (inject_Z bboxArea + epsilon);
     sf_aspectRatio :=
       inject_Z (Z.max bwidth bheight) / inject_Z (Z.max 1 (Z.min bwidth bheight));
     sf_thinness := inject_Z perimeter / (inject_Z area + 1) |}.

(** STEP 4: the four calls [Math.min(...xs)], [Math.max(...xs)],
    [Math.min(...ys)] and [Math.max(...ys)], in this order. *)
Definition extremes (pixels : list Pixel) : outcome (Z * Z * Z * Z) :=
  let xs := map fst pixels in
  let ys := map snd pixels in
  bind (minOf maxArguments xs) (fun minX =>
  bind (maxOf maxArguments xs) (fun maxX =>
  bind (minOf maxArguments ys) (fun minY =>
  bind (maxOf maxArguments ys) (fun maxY =>
  Returned (minX, maxX, minY, maxY))))).

(** The metrics of a region on which the four calls return. *)
Definition features (pixels : list Pixel) : ShapeFeatures :=
  let xs := map fst pixels in
  let ys := map snd pixels in
  measure (leastOf xs) (greatestOf xs) (leastOf ys) (greatestOf ys) pixels.

(** STEP 6: true when one of the four [continue] statements drops the
    region. *)
Definition rejected (f : ShapeFeatures) : bool :=
  (sf_area f <? 300)%Z
  || Num.ltb (sf_fillRatio f) (2 # 10)
  || Num.gtb (sf_aspectRatio f) 4
  || Num.gtb (sf_thinness f) (5 # 10).

(** [ratio < 1.2] for [ratio = bbox.width / bbox.height]: false when the
    quotient is an infinity or NaN. *)
Definition ratioBelow (f : ShapeFeatures) : bool :=
  match Num.jsDiv (inject_Z (sf_width f)) (inject_Z (sf_height f)) with
  | Some ratio => Num.ltb ratio (12 # 10)
  | None => false
  end.

(** STEP 7. *)
Definition classify (f : ShapeFeatures) : ShapeType * Q :=
  if Num.gtb (sf_circularity f) (75 # 100) then (circle, sf_circularity f)
  else if (sf_corners f <=? 4)%Z then (triangle, 9 # 10)
  else if (sf_corners f <=? 6)%Z then (pentagon, 85 # 100)
  else if ratioBelow f && Num.ltb (sf_circularity f) (4 # 10) then (star, 8 # 10)
  else (rectangle, 8 # 10).

Definition shapeOf (f : ShapeFeatures) : DetectedShape :=
  let '(type, confidence) := classify f in
  {| ds_type := type;
     ds_confidence := confidence;
     ds_boundingBox := {| box_x := inject_Z (sf_minX f);
                          box_y := inject_Z (sf_minY f);
                          box_width := inject_Z (sf_width f);
                          box_height := inject_Z (sf_height f) |};
     ds_center := sf_center f;
     ds_area := inject_Z (sf_area f) |}.

(** The body of the scan after the flood fill: [None] when the region is
    skipped, the shape pushed otherwise. *)
Definition processRegion (pixels : list Pixel) : outcome (option DetectedShape) :=
  if (length pixels <? 40)%nat then Returned None
  else
    bind (extremes pixels) (fun '(minX, maxX, minY, maxY) =>
      let f := measure minX maxX minY maxY pixels in
      Returned (if rejected f then None else Some (shapeOf f))).

End Region.

(** [detectShapes].  [startTime] and [endTime] are the two readings of
    [performance.now()].  The arrays [gray], [binary] and [visited] are
    allocated with the same length [width * height]. *)
Definition detectShapes (startTime endTime : Q) (imageData : ImageData)
  : outcome DetectionResult :=
  let width := img_width imageData in
  let height := img_height imageData in
  bind (TypedArray.create (width * height)) (fun zeros =>
    let gray := grayscale (length zeros) (img_data imageData) in
    let binary := binarize gray in
    bind (scanLoop width height binary (processRegion width height binary)
                   (scanOrder width height) zeros [])
         (fun shapes =>
            Returned {| shapes := shapes;
                        processingTime := endTime - startTime;
                        imageWidth := width;
                        imageHeight := height |})).

End Detector.

(** The mask computed by [detectShapes] and the regions its scan fills, in
    the order it fills them (those under 40 pixels included). *)
Definition maskOf (imageData : ImageData) : list Z :=
  binarize (grayscale (Z.to_nat (img_width imageData * img_height imageData))
                      (img_data imageData)).

Definition regionsOf (imageData : ImageData) : outcome (list (list Pixel)) :=
  let width := img_width imageData in
  let height := img_height imageData in
  bind (TypedArray.create (width * height)) (fun zeros =>
    scanLoop width height (maskOf imageData) (fun pixels => Returned (Some pixels))
             (scanOrder width height) zeros []).

(** The values kept by a handler from a list of regions, taken in their
    order, up to the first region on which the handler does not return. *)
Fixpoint filterMap {A B : Type} (f : A -> outcome (option B)) (l : list A)
  : outcome (list B) :=
  match l with
  | [] => Returned []
  | a :: rest =>
      bind (f a) (fun o =>
        bind (filterMap f rest) (fun bs =>
          Returned match o with Some b => b :: bs | None => bs end))
  end.

(** ** The matcher and the metrics ([evaluateDetection]) *)

(** The loop variables of [evaluateDetection]; [matched] is the [Set] of
    ground-truth indices, in insertion order. *)
Record MatchState := mkMatchState {
  matched : list nat;
  truePositives : Z;
  totalIoU : float;
  totalCenterDistance : Q;
  totalAreaError : Q;
  confidenceErrors : Q
}.

Definition initialMatchState : MatchState :=
  {| matched := [];
     truePositives := 0;
     totalIoU := 0%float;
     totalCenterDistance := 0;
     totalAreaError := 0;
     confidenceErrors := 0 |}.

(** [matched.has(i)] and [matched.add(i)]. *)
Definition setHas (s : list nat) (i : nat) : bool := existsb (Nat.eqb i) s.

Definition setAdd (s : list nat) (i : nat) : list nat :=
  if setHas s i then s else s ++ [i].

(** The inner loop over [groundTruth], from index [i] on.  [best] holds
    [bestMatch] with [bestIndex] ([None] for [null] and [-1]). *)
Fixpoint scanGroundTruth (iouThreshold : float) (matchedSet : list nat)
  (detectedShape : DetectedShape) (groundTruth : list GroundTruthShape) (i : nat)
  (best : option (GroundTruthShape * nat)) (bestIoU : float)
  : option (GroundTruthShape * nat) * float :=
  match groundTruth with
  | [] => (best, bestIoU)
  | gtShape :: rest =>
      if setHas matchedSet i
      then scanGroundTruth iouThreshold matchedSet detectedShape rest (S i) best bestIoU
      else if negb (String.eqb (typeName (ds_type detectedShape)) (gt_type gtShape))
      then scanGroundTruth iouThreshold matchedSet detectedShape rest (S i) best bestIoU
      else
        let iou := calculateIoU (ds_boundingBox detectedShape) (gt_bounding_box gtShape) in
        if Double.gtb iou bestIoU && Double.gtb iou iouThreshold
        then scanGroundTruth iouThreshold matchedSet detectedShape rest (S i)
                             (Some (gtShape, i)) iou
        else scanGroundTruth iouThreshold matchedSet detectedShape rest (S i) best bestIoU
  end.

Definition findBest (iouThreshold : float) (matchedSet : list nat)
  (detectedShape : DetectedShape) (groundTruth : list GroundTruthShape)
  : option (GroundTruthShape * nat) * float :=
  scanGroundTruth iouThreshold matchedSet detectedShape groundTruth 0 None 0%float.

Section Evaluation.

Variable Math_sqrt : Q -> Q.

Definition calculateDistance (p1 p2 : Point) : Q :=
  Math_sqrt ((pt_x p2 - pt_x p1) ^ 2 + (pt_y p2 - pt_y p1) ^ 2).

(** The body of [for (const detectedShape of detected)]. *)
Definition matchStep (iouThreshold : float) (groundTruth : list GroundTruthShape)
  (st : MatchState) (detectedShape : DetectedShape) : MatchState :=
  match findBest iouThreshold (matched st) detectedShape groundTruth with
  | (None, _) => st
  | (Some (bestMatch, bestIndex), bestIoU) =>
      {| matched := setAdd (matched st) bestIndex;
         truePositives := (truePositives st + 1)%Z;
         totalIoU := (totalIoU st + bestIoU)%float;
         totalCenterDistance :=
           match gt_center bestMatch with
           | Some c => totalCenterDistance st
                       + calculateDistance (ds_center detectedShape) c
           | None => totalCenterDistance st
           end;
         totalAreaError :=
           match gt_area bestMatch with
           | Some a =>
               if Num.truthy a && Num.truthy (ds_area detectedShape)
               then totalAreaError st + Num.abs (ds_area detectedShape - a) / a
               else totalAreaError st
           | None => totalAreaError st
           end;
         confidenceErrors :=
           match gt_confidence_expected bestMatch with
           | Some c =>
               if Num.truthy c && Num.truthy (ds_confidence detectedShape)
               then confidenceErrors st + Num.abs (ds_confidence detectedShape - c)
               else confidenceErrors st
           | None => confidenceErrors st
           end |}
  end.

Definition matchLoop (iouThreshold : float) (detected : list DetectedShape)
  (groundTruth : list GroundTruthShape) : MatchState :=
  fold_left (matchStep iouThreshold groundTruth) detected initialMatchState.

Definition lengthOf {A} (l : list A) : Q := inject_Z (Z.of_nat (length l)).

(** [evaluateDetection] with [iouThreshold] as a parameter. *)
Definition evaluateDetectionAt (iouThreshold : float) (detected : list DetectedShape)
  (groundTruth : list GroundTruthShape) (imageName : string) : EvaluationMetrics :=
  let st := matchLoop iouThreshold detected groundTruth in
  let tp := inject_Z (truePositives st) in
  let precision := if Num.gtb (lengthOf detected) 0 then tp / lengthOf detected else 0 in
  let recall := if Num.gtb (lengthOf groundTruth) 0 then tp / lengthOf groundTruth else 1 in
  let f1Score :=
    if Num.gtb (precision + recall) 0
    then 2 * (precision * recall) / (precision + recall) else 0 in
  {| precision := precision;
     recall := recall;
     f1_score := f1Score;
     average_iou :=
       if Num.gtb tp 0 then (totalIoU st / Double.of_Z (truePositives st))%float
       else 0%float;
     center_point_accuracy :=
       if Num.gtb tp 0 then totalCenterDistance st / tp else 0;
     area_accuracy := if Num.gtb tp 0 then 1 - totalAreaError st / tp else 0;
     confidence_calibration :=
       if Num.gtb tp 0 then 1 - confidenceErrors st / tp else 0;
     processing_time := 0 |}.

Definition evaluateDetection := evaluateDetectionAt 0.5%float.

(** The number of true positives at a given threshold. *)
Definition truePositivesAt (iouThreshold : float) (detected : list DetectedShape)
  (groundTruth : list GroundTruthShape) : Z :=
  truePositives (matchLoop iouThreshold detected groundTruth).

(** The ground-truth index taken by each detection, in detection order:
    [bestIndex] of every turn of the outer loop, [None] where [bestMatch]
    stays [null]. *)
Fixpoint assignments (iouThreshold : float) (groundTruth : list GroundTruthShape)
  (matchedSet : list nat) (detected : list DetectedShape) : list (option nat) :=
  match detected with
  | [] => []
  | detectedShape :: rest =>
      match findBest iouThreshold matchedSet detectedShape groundTruth with
      | (Some (_, bestIndex), _) =>
          Some bestIndex
          :: assignments iouThreshold groundTruth (setAdd matchedSet bestIndex) rest
      | (None, _) => None :: assignments iouThreshold groundTruth matchedSet rest
      end
  end.

End Evaluation.

(** ** Notions used to state the properties of the matcher *)

(** The intersection over union of a detection with a ground-truth shape. *)
Definition iouWith (detectedShape : DetectedShape) (g : GroundTruthShape) : float :=
  calculateIoU (ds_boundingBox detectedShape) (gt_bounding_box g).

(** A ground-truth shape the inner loop looks at: not matched yet and of the
    type of the detection. *)
Definition eligible (matchedSet : list nat) (detectedShape : DetectedShape)
  (j : nat) (g : GroundTruthShape) : Prop :=
  setHas matchedSet j = false /\ typeName (ds_type detectedShape) = gt_type g.

(** The ground-truth indices taken, in the order they are taken. *)
Definition assignedIndices (a : list (option nat)) : list nat :=
  flat_map (fun o => match o with Some i => [i] | None => [] end) a.

(** ** Scoring ([calculateScore], [calculateGrade], [runEvaluation]) *)

Definition f1Points (f1 : Q) : Z :=
  if Num.geb f1 (9 # 10) then 40
  else if Num.geb f1 (7 # 10) then 30
  else if Num.geb f1 (5 # 10) then 20
  else 0.

Definition iouPoints (avgIoU : float) : Z :=
  if Double.geb avgIoU 0.8 then 25
  else if Double.geb avgIoU 0.6 then 20
  else if Double.geb avgIoU 0.4 then 10
  else 0.

Definition centerPoints (centerAcc : Q) : Z :=
  if Num.leb centerAcc 5 then 15
  else if Num.leb centerAcc 10 then 12
  else if Num.leb centerAcc 20 then 8
  else 0.

Definition areaPoints (areaAcc : Q) : Z :=
  if Num.geb areaAcc (9 # 10) then 10
  else if Num.geb areaAcc (8 # 10) then 8
  else if Num.geb areaAcc (7 # 10) then 5
  else 0.

Definition timePoints (processingTime : Q) : Z :=
  if Num.leb processingTime 500 then 10
  else if Num.leb processingTime 1000 then 8
  else if Num.leb processingTime 2000 then 5
  else 0.

(** [calculateScore]: the [score] and [passed] fields of its result (the
    [feedback] strings are not modelled). *)
Definition calculateScore (evaluation : EvaluationMetrics)
  (detection : DetectionResult) : bool * Z :=
  let score :=
    (f1Points (f1_score evaluation)
     + iouPoints (average_iou evaluation)
     + centerPoints (center_point_accuracy evaluation)
     + areaPoints (area_accuracy evaluation)
     + timePoints (processingTime detection))%Z in
  ((score >=? 60)%Z, score).

(** [calculateGrade]; [None] is NaN, for which every comparison fails. *)
Definition calculateGrade (percentage : option Q) : string :=
  match percentage with
  | None => "F"
  | Some p =>
      if Num.geb p 90 then "A"
      else if Num.geb p 80 then "B"
      else if Num.geb p 70 then "C"
      else if Num.geb p 60 then "D"
      else "F"
  end.

Record TestResult := mkTestResult {
  tr_imageName : string;
  tr_detectionResult : DetectionResult;
  tr_evaluation : EvaluationMetrics;
  tr_passed : bool
}.

Record Summary := mkSummary {
  averagePrecision : option Q;
  averageRecall : option Q;
  averageF1 : option Q;
  averageIoU : float;
  totalProcessingTime : Q
}.

Record OverallResults := mkOverallResults {
  totalScore : Z;
  maxScore : Z;
  percentage : option Q;
  grade : string;
  testResults : list TestResult;
  summary : Summary
}.

(** What one turn of the batch loop works on: the name of the image, the
    outcome of loading it and running [detectShapes] on it, and the shapes the
    ground truth has for it. *)
Record ImageRun := mkImageRun {
  run_imageName : string;
  run_detection : outcome DetectionResult;
  run_groundTruth : list GroundTruthShape
}.

(** The accumulators of [runEvaluation] and [runSelectedEvaluation]. *)
Record BatchState := mkBatchState {
  acc_testResults : list TestResult;
  acc_totalPrecision : Q;
  acc_totalRecall : Q;
  acc_totalF1 : Q;
  acc_totalIoU : float;
  acc_totalProcessingTime : Q;
  acc_totalScore : Z
}.

Definition initialBatchState : BatchState :=
  {| acc_testResults := [];
     acc_totalPrecision := 0;
     acc_totalRecall := 0;
     acc_totalF1 := 0;
     acc_totalIoU := 0%float;
     acc_totalProcessingTime := 0;
     acc_totalScore := 0 |}.

Definition zeroMetrics : EvaluationMetrics :=
  {| precision := 0; recall := 0; f1_score := 0; average_iou := 0%float;
     center_point_accuracy := 0; area_accuracy := 0;
     confidence_calibration := 0; processing_time := 0 |}.

Definition withProcessingTime (e : EvaluationMetrics) (t : Q) : EvaluationMetrics :=
  {| precision := precision e; recall := recall e; f1_score := f1_score e;
     average_iou := average_iou e;
     center_point_accuracy := center_point_accuracy e;
     area_accuracy := area_accuracy e;
     confidence_calibration := confidence_calibration e;
     processing_time := t |}.

Section Batch.

Variable Math_sqrt : Q -> Q.

(** The evaluation of one image inside the [try] block. *)
Definition evaluateRun (run : ImageRun) (detectionResult : DetectionResult)
  : EvaluationMetrics :=
  withProcessingTime
    (evaluateDetection Math_sqrt (shapes detectionResult) (run_groundTruth run)
                       (run_imageName run))
    (processingTime detectionResult).

(** One turn of [for (const imageName of imageNames)]: the [try] block when
    the detection returned, the [catch] block otherwise. *)
Definition batchStep (st : BatchState) (run : ImageRun) : BatchState :=
  match run_detection run with
  | Returned detectionResult =>
      let evaluation := evaluateRun run detectionResult in
      let '(passed, score) := calculateScore evaluation detectionResult in
      {| acc_testResults :=
           acc_testResults st
           ++ [{| tr_imageName := run_imageName run;
                  tr_detectionResult := detectionResult;
                  tr_evaluation := evaluation;
                  tr_passed := passed |}];
         acc_totalPrecision := acc_totalPrecision st + precision evaluation;
         acc_totalRecall := acc_totalRecall st + recall evaluation;
         acc_totalF1 := acc_totalF1 st + f1_score evaluation;
         acc_totalIoU := (acc_totalIoU st + average_iou evaluation)%float;
         acc_totalProcessingTime :=
           acc_totalProcessingTime st + processing_time evaluation;
         acc_totalScore := (acc_totalScore st + score)%Z |}
  | _ =>
      {| acc_testResults :=
           acc_testResults st
           ++ [{| tr_imageName := run_imageName run;
                  tr_detectionResult :=
                    {| shapes := []; processingTime := 0;
                       imageWidth := 0; imageHeight := 0 |};
                  tr_evaluation := zeroMetrics;
                  tr_passed := false |}];
         acc_totalPrecision := acc_totalPrecision st;
         acc_totalRecall := acc_totalRecall st;
         acc_totalF1 := acc_totalF1 st;
         acc_totalIoU := acc_totalIoU st;
         acc_totalProcessingTime := acc_totalProcessingTime st;
         acc_totalScore := acc_totalScore st |}
  end.

(** [percentage = (totalScore / maxScore) * 100], the value handed to
    [calculateGrade]. *)
Definition batchPercentage (st : BatchState) : option Q :=
  let numTests := Z.of_nat (length (acc_testResults st)) in
  let maxScore := (numTests * 100)%Z in
  option_map (fun r => r * 100)
             (Num.jsDiv (inject_Z (acc_totalScore st)) (inject_Z maxScore)).

(** The end of [runEvaluation].  The [percentage] field is the percentage
    rounded to two decimals, [Math.round(percentage * 100) / 100]; the
    rounding is that of the exact percentage here, while the code rounds the
    double: where the exact percentage ends in a 5 at the third decimal the
    two may fall on either side (a batch of 8 images with 115 points in all is
    reported as 14.37 by the code, the exact 14.375 rounds to 14.38), so of
    this field the development states only how far it is from the
    percentage. *)
Definition finishBatch (st : BatchState) : OverallResults :=
  let numTests := Z.of_nat (length (acc_testResults st)) in
  let maxScore := (numTests * 100)%Z in
  let percentage := batchPercentage st in
  {| totalScore := Num.round (inject_Z (acc_totalScore st));
     maxScore := maxScore;
     percentage :=
       option_map (fun p => inject_Z (Num.round (p * 100)) / 100) percentage;
     grade := calculateGrade percentage;
     testResults := acc_testResults st;
     summary :=
       {| averagePrecision := Num.jsDiv (acc_totalPrecision st) (inject_Z numTests);
          averageRecall := Num.jsDiv (acc_totalRecall st) (inject_Z numTests);
          averageF1 := Num.jsDiv (acc_totalF1 st) (inject_Z numTests);
          averageIoU := (acc_totalIoU st / Double.of_Z numTests)%float;
          totalProcessingTime := acc_totalProcessingTime st |} |}.

Definition runEvaluation (runs : list ImageRun) : OverallResults :=
  finishBatch (fold_left batchStep runs initialBatchState).

(** The score of one image: that of [calculateScore] when it is evaluated,
    nothing when its turn ends in the [catch] block. *)
Definition scoreOfRun (run : ImageRun) : Z :=
  match run_detection run with
  | Returned detectionResult =>
      snd (calculateScore (evaluateRun run detectionResult) detectionResult)
  | _ => 0%Z
  end.

Definition sumOfScores (runs : list ImageRun) : Z :=
  fold_right (fun run s => (scoreOfRun run + s)%Z) 0%Z runs.

End Batch.

(** ** Sample inputs *)

Definition unitBox : Box :=
  {| box_x := 0; box_y := 0; box_width := 1; box_height := 1 |}.

(** The ground truth of the scenario of the specification: one circle with
    bounding box [{x: 0, y: 0, w: 10, h: 10}]. *)
Definition circleTruth : GroundTruthShape :=
  {| gt_type := "circle";
     gt_center := None;
     gt_bounding_box := {| box_x := 0; box_y := 0; box_width := 10; box_height := 10 |};
     gt_area := None;
     gt_confidence_expected := None |}.

(** A circle whose box [{x: 3.3, y: 0, w: 5, h: 10}] lies inside that of
    [circleTruth] and covers half of it: an IoU of one half, were it not for
    the rounding of [3.3 + 5]. *)
Definition offsetTruth : GroundTruthShape :=
  {| gt_type := "circle";
     gt_center := None;
     gt_bounding_box :=
       {| box_x := 33 # 10; box_y := 0; box_width := 5; box_height := 10 |};
     gt_area := None;
     gt_confidence_expected := None |}.

(** A detected circle whose box covers four fifths of that of [circleTruth]. *)
Definition circleDetection : DetectedShape :=
  {| ds_type := circle;
     ds_confidence := 9 # 10;
     ds_boundingBox := {| box_x := 0; box_y := 0; box_width := 10; box_height := 8 |};
     ds_center := {| pt_x := 5; pt_y := 4 |};
     ds_area := 80 |}.

(** A detected circle with the bounding box of [circleTruth]. *)
Definition exactDetection : DetectedShape :=
  {| ds_type := circle;
     ds_confidence := 9 # 10;
     ds_boundingBox := {| box_x := 0; box_y := 0; box_width := 10; box_height := 10 |};
     ds_center := {| pt_x := 5; pt_y := 5 |};
     ds_area := 100 |}.

(** A batch of one image: the detection [exactDetection] against
    [circleTruth], found in 20 ms. *)
Definition circleRun : ImageRun :=
  {| run_imageName := "circle";
     run_detection :=
       Returned {| shapes := [exactDetection]; processingTime := 20;
                   imageWidth := 20; imageHeight := 20 |};
     run_groundTruth := [circleTruth] |}.

(** An image of 36 by 18 pixels, black on its left half and white on its
    right half; both halves have 324 pixels, so the dark half is the
    foreground. *)
Definition halfImage : ImageData :=
  {| img_width := 36;
     img_height := 18;
     img_data :=
       flat_map (fun y =>
                   flat_map (fun x => if (x <? 18)%Z then [0; 0; 0; 255]%Z
                                      else [255; 255; 255; 255]%Z)
                            (upto 36))
                (upto 18) |}.

(** An image of 4 by 4 pixels of one colour. *)
Definition uniformImage : ImageData :=
  {| img_width := 4;
     img_height := 4;
     img_data := flat_map (fun _ => [128; 128; 128; 255]%Z) (upto 16) |}.


(** ** The perimeter in the words of the specification

    "perimeter = count of region pixels that have at least one 8-neighbor
    outside the region or outside image bounds". *)

Definition pixel_eqb (p q : Pixel) : bool :=
  (fst p =? fst q)%Z && (snd p =? snd q)%Z.

Definition specBoundaryPixel (width height : Z) (region : list Pixel) (p : Pixel) : bool :=
  existsb (fun d : Z * Z =>
             let nx := (fst p + fst d)%Z in
             let ny := (snd p + snd d)%Z in
             outOfBounds width height nx ny
             || negb (existsb (pixel_eqb (nx, ny)) region))
          dirs.

Definition specPerimeter (width height : Z) (region : list Pixel) : Z :=
  Z.of_nat (length (filter (specBoundaryPixel width height region) region)).

(** The test the code makes: some neighbour inside the image is a background
    pixel of the mask. *)
Definition backgroundNeighbor (width height : Z) (binary : list Z) (p : Pixel) : bool :=
  existsb (fun d : Z * Z =>
             let nx := (fst p + fst d)%Z in
             let ny := (snd p + snd d)%Z in
             negb (outOfBounds width height nx ny)
             && TypedArray.equals binary (index width nx ny) 0)
          dirs.

(** A box whose four edges, as computed, are numbers: none is NaN. *)
Definition numericBox (b : Box) : Prop :=
  Double.isNumber (leftEdge b) = true /\ Double.isNumber (topEdge b) = true
  /\ Double.isNumber (rightEdge b) = true /\ Double.isNumber (bottomEdge b) = true.

(** Boxes for which rounding, or a division by zero, takes the quotient out
    of the interval from 0 to 1. *)
Definition tenthBox : Box :=
  {| box_x := 1 # 10; box_y := 1 # 10; box_width := 2 # 10; box_height := 2 # 10 |}.

Definition sliverBox : Box :=
  {| box_x := 1; box_y := 1;
     box_width := 3 # 2 ^ 54; box_height := 6004799503160661 # 2 ^ 105 |}.

(** What the inner loop of the matcher, run over [groundTruth] from index [i]
    with [best] and [bestIoU], ends with: either nothing changed and no shape
    could change it, or a shape above the threshold that no eligible shape
    exceeds and that no earlier eligible shape equals.  The comparisons are
    those of doubles: an IoU that is NaN is neither above nor below
    anything. *)
Definition scanResult (iouThreshold : float) (matchedSet : list nat)
  (detectedShape : DetectedShape) (groundTruth : list GroundTruthShape) (i : nat)
  (best : option (GroundTruthShape * nat)) (bestIoU : float)
  (r : option (GroundTruthShape * nat) * float) : Prop :=
  let iou := iouWith detectedShape in
  let free := eligible matchedSet detectedShape in
  (r = (best, bestIoU)
   /\ forall k g, nth_error groundTruth k = Some g -> free (i + k)%nat g ->
                  ~ (PrimFloat.ltb bestIoU (iou g) = true
                     /\ PrimFloat.ltb iouThreshold (iou g) = true))
  \/ (exists k g,
        nth_error groundTruth k = Some g /\ r = (Some (g, (i + k)%nat), iou g)
        /\ free (i + k)%nat g
        /\ PrimFloat.ltb bestIoU (iou g) = true
        /\ PrimFloat.ltb iouThreshold (iou g) = true
        /\ (forall k' g', nth_error groundTruth k' = Some g' ->
                          free (i + k')%nat g' ->
                          PrimFloat.ltb (iou g) (iou g') = false)
        /\ (forall k' g', (k' < k)%nat -> nth_error groundTruth k' = Some g' ->
                          free (i + k')%nat g' ->
                          PrimFloat.leb (iou g) (iou g') = false)).

(** An image passes when its score reaches 60; an image whose turn ended in
    the [catch] block has no score and does not pass. *)
Definition passedAsScored (Math_sqrt : Q -> Q) (run : ImageRun) (tr : TestResult) : Prop :=
  tr_passed tr = (scoreOfRun Math_sqrt run >=? 60)%Z.

(** ** Notions used to state the properties of the flood fill *)

(** The number of flags of [visited] that are not set. *)
Definition unset (a : list Z) : nat := length (filter (fun v => (v =? 0)%Z) a).

Definition indexOf (width : Z) (p : Pixel) : Z := index width (fst p) (snd p).

(** The loop invariant of the flood fill, for the stack [snd st] and the
    pixels [done] already popped: no pixel occurs twice among them, and all
    of them are flagged in [visited]. *)
Record floodInv (width : Z) (binary : list Z) (done : list Pixel)
  (st : list Z * list Pixel) : Prop := {
  inv_length : length (fst st) = length binary;
  inv_nodup : NoDup (snd st ++ done);
  inv_marked : forall p, In p (snd st ++ done) ->
                         TypedArray.truthy (fst st) (indexOf width p) = true
}.

(** The number of turns the loop can still take. *)
Definition floodMeasure (st : list Z * list Pixel) : nat :=
  (length (snd st) + unset (fst st))%nat.

Definition insideImage (width height : Z) (p : Pixel) : Prop :=
  (0 <= fst p < width)%Z /\ (0 <= snd p < height)%Z.

(** ** Notions used to state further properties *)

(** The metrics [m'] are at least as good as [m]: F1, IoU and area accuracy
    not lower, centre error not higher. *)
Definition atLeastAsGood (m m' : EvaluationMetrics) : Prop :=
  f1_score m <= f1_score m'
  /\ PrimFloat.leb (average_iou m) (average_iou m') = true
  /\ center_point_accuracy m' <= center_point_accuracy m
  /\ area_accuracy m <= area_accuracy m'.

(** The [TestResult] pushed for one image: by the [try] block when the
    detection returned, by the [catch] block otherwise. *)
Definition testResultOf (Math_sqrt : Q -> Q) (run : ImageRun) : TestResult :=
  match run_detection run with
  | Returned detectionResult =>
      {| tr_imageName := run_imageName run;
         tr_detectionResult := detectionResult;
         tr_evaluation := evaluateRun Math_sqrt run detectionResult;
         tr_passed :=
           fst (calculateScore (evaluateRun Math_sqrt run detectionResult)
                               detectionResult) |}
  | _ =>
      {| tr_imageName := run_imageName run;
         tr_detectionResult :=
           {| shapes := []; processingTime := 0; imageWidth := 0; imageHeight := 0 |};
         tr_evaluation := zeroMetrics;
         tr_passed := false |}
  end.

(** The detection of an image did not return. *)
Definition runFailed (run : ImageRun) : Prop :=
  match run_detection run with Returned _ => False | _ => True end.

(** An image whose loading threw. *)
Definition brokenRun : ImageRun :=
  {| run_imageName := "broken";
     run_detection := Thrown "TypeError";
     run_groundTruth := [circleTruth] |}.

(** The gray level the loop computes for pixel [k] of [data], if it computes
    one: the luminance of its first three samples when they are there, 0
    (from NaN) when the green or the blue one is missing. *)
Definition grayAt (data : list Z) (k : nat) : option Z :=
  match nth_error data (4 * k) with
  | None => None
  | Some r =>
      match nth_error data (4 * k + 1), nth_error data (4 * k + 2) with
      | Some g, Some b => Some (toUint8Clamped (luminance r g b))
      | _, _ => Some 0%Z
      end
  end.

(** The number of foreground pixels of a mask. *)
Definition foregroundCount (mask : list Z) : Z :=
  Z.of_nat (length (filter (Z.eqb 1) mask)).

(** The IoUs of the pairs matched by the loop, in the order of the
    detections: [bestIoU] of every turn in which [bestMatch] is not
    [null]. *)
Fixpoint matchedIoUs (iouThreshold : float) (groundTruth : list GroundTruthShape)
  (matchedSet : list nat) (detected : list DetectedShape) : list float :=
  match detected with
  | [] => []
  | detectedShape :: rest =>
      match findBest iouThreshold matchedSet detectedShape groundTruth with
      | (Some (_, bestIndex), bestIoU) =>
          bestIoU :: matchedIoUs iouThreshold groundTruth (setAdd matchedSet bestIndex) rest
      | (None, _) => matchedIoUs iouThreshold groundTruth matchedSet rest
      end
  end.

(** The sum of doubles, added one after the other to [start]. *)
Definition sumFrom (start : float) (values : list float) : float :=
  fold_left PrimFloat.add values start.

(** What the loop keeps true of its counters: the matched indices are
    indices of [groundTruth], and [truePositives] is not negative. *)
Record countersInv (groundTruth : list GroundTruthShape) (st : MatchState) : Prop := {
  ci_range : forall i, In i (matched st) -> (i < length groundTruth)%nat;
  ci_tp : (0 <= truePositives st)%Z
}.

(** ** Notions used to state the properties of the segmentation *)

(** The neighbour of a pixel in a direction, and adjacency in one of the
    eight directions of [dirs]. *)
Definition neighbor (p : Pixel) (d : Z * Z) : Pixel :=
  (fst p + fst d, snd p + snd d)%Z.

Definition adjacent (p n : Pixel) : Prop := exists d, In d dirs /\ n = neighbor p d.

(** A foreground pixel of the mask. *)
Definition foreground (width : Z) (binary : list Z) (p : Pixel) : Prop :=
  TypedArray.equals binary (indexOf width p) 1 = true.

(** [pathIn S a b]: [b] is reached from [a] by steps to adjacent pixels,
    all inside the list [S]. *)
Inductive pathIn (S : list Pixel) (a : Pixel) : Pixel -> Prop :=
| path_here : In a S -> pathIn S a a
| path_step (b c : Pixel) : pathIn S a b -> In c S -> adjacent b c -> pathIn S a c.

(** [linked width height binary a b]: [b] is reached from [a] by steps to
    adjacent pixels through foreground pixels of the image. *)
Inductive linked (width height : Z) (binary : list Z) (a : Pixel) : Pixel -> Prop :=
| linked_here :
    insideImage width height a -> foreground width binary a ->
    linked width height binary a a
| linked_step (b c : Pixel) :
    linked width height binary a b ->
    insideImage width height c -> foreground width binary c -> adjacent b c ->
    linked width height binary a c.

(** What the flood fill started at [start] with the flags [v0] keeps true of
    its stack [snd st], its flags [fst st] and the pixels [done] it has
    popped: they are foreground pixels of the image that were not flagged
    before, the flags only grow and grow by the index of such a pixel, and
    each of the pixels is reached from [start] through them. *)
Record fillInv (width height : Z) (binary v0 : list Z) (start : Pixel)
  (done : list Pixel) (st : list Z * list Pixel) : Prop := {
  fi_fg : forall p, In p (snd st ++ done) ->
            insideImage width height p /\ foreground width binary p
            /\ TypedArray.truthy v0 (indexOf width p) = false;
  fi_mono : forall i, TypedArray.truthy v0 i = true ->
                      TypedArray.truthy (fst st) i = true;
  fi_new : forall i, TypedArray.truthy (fst st) i = true ->
             TypedArray.truthy v0 i = true
             \/ exists p, In p (snd st ++ done) /\ indexOf width p = i;
  fi_path : forall p, In p (snd st ++ done) -> pathIn (snd st ++ done) start p
}.

(** Every foreground neighbour inside the image of a pixel of [pixels] is
    flagged. *)
Definition neighborsFlagged (width height : Z) (binary visited : list Z)
  (pixels : list Pixel) : Prop :=
  forall p d, In p pixels -> In d dirs ->
    insideImage width height (neighbor p d) -> foreground width binary (neighbor p d) ->
    TypedArray.truthy visited (indexOf width (neighbor p d)) = true.

(** What the scan keeps true of the flags and of the regions filled so
    far. *)
Record scanInv (width height : Z) (binary visited : list Z)
  (regions : list (list Pixel)) : Prop := {
  si_length : length visited = length binary;
  si_nodup : NoDup (concat regions);
  si_fg : forall p, In p (concat regions) ->
            insideImage width height p /\ foreground width binary p
            /\ TypedArray.truthy visited (indexOf width p) = true;
  si_flagged : forall i, TypedArray.truthy visited i = true ->
                 exists p, In p (concat regions) /\ indexOf width p = i;
  si_closed : forall r p d, In r regions -> In p r -> In d dirs ->
                insideImage width height (neighbor p d) ->
                foreground width binary (neighbor p d) -> In (neighbor p d) r;
  si_connected : forall r, In r regions ->
                   exists s, In s r /\ forall p, In p r -> pathIn r s p
}.

(** ** Notions used to state the properties of the detected shapes *)

(** The sum of the areas of a list of shapes. *)
Definition totalArea (shapes : list DetectedShape) : Q :=
  fold_right (fun s a => ds_area s + a) 0 shapes.

(** The integers [a], [a + 1], ..., [a + n - 1]. *)
Definition rangeFrom (a : Z) (n : nat) : list Z :=
  map (fun k => (a + Z.of_nat k)%Z) (seq 0 n).

(** The indices of the foreground flags of a mask. *)
Definition foregroundIndices (mask : list Z) (from : nat) : list nat :=
  filter (fun i => match nth_error mask (i - from) with
                   | Some v => (1 =? v)%Z
                   | None => false
                   end)
         (seq from (length mask)).

(** The shape found in [halfImage]: its dark half. *)
Definition halfShape : DetectedShape :=
  {| ds_type := circle;
     ds_confidence := 1146026515828607280000000 # 91197892735727520710656;
     ds_boundingBox := {| box_x := 0; box_y := 0; box_width := 17; box_height := 17 |};
     ds_center := {| pt_x := 17 # 2; pt_y := 17 # 2 |};
     ds_area := 324 |}.

Definition halfResult : DetectionResult :=
  {| shapes := [halfShape];
     processingTime := 1;
     imageWidth := 36;
     imageHeight := 18 |}.

(** ** Notions used to state the bounds of the accuracy metrics *)

(** No ground-truth area is negative. *)
Definition areasNonNegative (groundTruth : list GroundTruthShape) : Prop :=
  forall g a, In g groundTruth -> gt_area g = Some a -> 0 <= a.

(** Detected and expected confidences lie between 0 and 1. *)
Definition confidencesInUnit (detected : list DetectedShape)
  (groundTruth : list GroundTruthShape) : Prop :=
  (forall d, In d detected -> 0 <= ds_confidence d <= 1)
  /\ (forall g c, In g groundTruth -> gt_confidence_expected g = Some c -> 0 <= c <= 1).

(** What the loop of [evaluateDetection] keeps true of its error sums. *)
Record errorsInv (Math_sqrt : Q -> Q) (detected : list DetectedShape)
  (groundTruth : list GroundTruthShape) (st : MatchState) : Prop := {
  ei_tp : (0 <= truePositives st)%Z;
  ei_conf : 0 <= confidenceErrors st;
  ei_center : (forall q, 0 <= Math_sqrt q) -> 0 <= totalCenterDistance st;
  ei_area : areasNonNegative groundTruth -> 0 <= totalAreaError st;
  ei_unit : confidencesInUnit detected groundTruth ->
            confidenceErrors st <= inject_Z (truePositives st)
}.

(** The average IoUs that the batch loop adds to [totalIoU]: those of the
    images whose detection returned, in the order of the batch. *)
Definition evaluatedIoUs (Math_sqrt : Q -> Q) (runs : list ImageRun) : list float :=
  flat_map (fun run =>
              match run_detection run with
              | Returned detectionResult =>
                  [average_iou (evaluateRun Math_sqrt run detectionResult)]
              | _ => []
              end) runs.

(** The sum of one metric over the test results of a batch. *)
Definition sumBy (metric : EvaluationMetrics -> Q) (results : list TestResult) : Q :=
  fold_right (fun tr a => metric (tr_evaluation tr) + a) 0 results.

(** The accumulators of the batch loop are the sums of the metrics of the
    test results pushed so far. *)
Record sumsInv (st : BatchState) : Prop := {
  sums_precision : acc_totalPrecision st == sumBy precision (acc_testResults st);
  sums_recall : acc_totalRecall st == sumBy recall (acc_testResults st);
  sums_f1 : acc_totalF1 st == sumBy f1_score (acc_testResults st);
  sums_time : acc_totalProcessingTime st == sumBy processing_time (acc_testResults st)
}.

(** ** The selection of test images ([SelectionManager]) *)

Module SelectionManager.

(** [selectedImages : Set<string>], as the list of its elements in insertion
    order; [has], [add] and [delete] are the methods of the set. *)
Definition has (selectedImages : list string) (imageName : string) : bool :=
  existsb (String.eqb imageName) selectedImages.

Definition add (selectedImages : list string) (imageName : string) : list string :=
  if has selectedImages imageName then selectedImages
  else selectedImages ++ [imageName].

Definition delete (selectedImages : list string) (imageName : string) : list string :=
  filter (fun n => negb (String.eqb imageName n)) selectedImages.

(** [toggleImageSelection]; [found] tells whether
    [document.querySelector] found an element for the name (when it finds
    none, or throws on a name that makes the selector invalid, the selection
    is left as it is). *)
Definition toggleImageSelection (found : bool) (selectedImages : list string)
  (imageName : string) : list string :=
  if negb found then selectedImages
  else if has selectedImages imageName then delete selectedImages imageName
  else add selectedImages imageName.

(** The click handler of [selectAllBtn]; [items] holds, for every
    [.test-image-item] element, the result of [getAttribute("data-image")]
    ([None] for [null]).  The empty string is falsy. *)
Definition selectAll (items : list (option string)) (selectedImages : list string)
  : list string :=
  fold_left (fun acc item =>
               match item with
               | Some imageName =>
                   if String.eqb imageName EmptyString then acc else add acc imageName
               | None => acc
               end)
            items selectedImages.

(** The click handler of [deselectAllBtn]. *)
Definition deselectAll (selectedImages : list string) : list string := [].

Definition getSelectedImages (selectedImages : list string) : list string :=
  selectedImages.

Definition hasSelections (selectedImages : list string) : bool :=
  (0 <? length selectedImages)%nat.

(** What the user does, with what the document answered. *)
Inductive action :=
| Toggle (imageName : string) (found : bool)
| SelectAll (items : list (option string))
| DeselectAll.

Definition step (selectedImages : list string) (a : action) : list string :=
  match a with
  | Toggle imageName found => toggleImageSelection found selectedImages imageName
  | SelectAll items => selectAll items selectedImages
  | DeselectAll => deselectAll selectedImages
  end.

(** The selection after a sequence of actions on a new manager. *)
Definition run (actions : list action) : list string := fold_left step actions [].

End SelectionManager.
(** * Proofs *)

(** ** Facts about the number operations *)

Module NumFacts.
Import Num.

Lemma ltb_spec a b : reflect (a < b) (ltb a b).
Proof.
  unfold ltb. apply iff_reflect. rewrite Qlt_alt.
  destruct (a ?= b); split; congruence.
Qed.

Lemma leb_spec a b : reflect (a <= b) (leb a b).
Proof.
  unfold leb. apply iff_reflect. rewrite Qle_alt.
  destruct (a ?= b); split; congruence.
Qed.

Lemma gtb_spec a b : reflect (b < a) (gtb a b).
Proof. apply ltb_spec. Qed.

Lemma geb_spec a b : reflect (b <= a) (geb a b).
Proof. apply leb_spec. Qed.

Lemma is_zero_spec a : reflect (a == 0) (is_zero a).
Proof.
  unfold is_zero. apply iff_reflect. rewrite Qeq_alt.
  destruct (a ?= 0); split; congruence.
Qed.

Lemma ltb_true a b : ltb a b = true <-> a < b.
Proof. destruct (ltb_spec a b); split; intros; congruence || tauto. Qed.

Lemma max_spec a b : (a <= b /\ max a b = b) \/ (b <= a /\ max a b = a).
Proof. unfold max. destruct (ltb_spec a b); [left | right]; split; auto; lra. Qed.

Lemma min_spec a b : (a <= b /\ min a b = a) \/ (b <= a /\ min a b = b).
Proof. unfold min. destruct (ltb_spec b a); [right | left]; split; auto; lra. Qed.

End NumFacts.
Import NumFacts.

(** ** Facts about doubles

    The comparisons of doubles, through their specification
    ([SFcompare]): an order on the doubles that are not NaN, in which the
    two zeros are equal. *)

Module DoubleFacts.

Ltac sf_cases :=
  repeat match goal with
  | x : spec_float |- _ => destruct x as [[]|[]| |[] ? ?]
  end;
  cbn [SFcompare SFltb SFleb SFeqb] in *; try congruence; try discriminate; try reflexivity.

Ltac cmp_cases :=
  repeat match goal with
  | H : context [(?a ?= ?b)%Z] |- _ => destruct (Z.compare_spec a b); try subst
  | |- context [(?a ?= ?b)%Z] => destruct (Z.compare_spec a b); try subst
  | H : context [Pos.compare_cont Eq ?a ?b] |- _ =>
      change (Pos.compare_cont Eq a b) with (Pos.compare a b) in H;
      destruct (Pos.compare_spec a b); try subst
  | |- context [Pos.compare_cont Eq ?a ?b] =>
      change (Pos.compare_cont Eq a b) with (Pos.compare a b);
      destruct (Pos.compare_spec a b); try subst
  end; cbn [CompOpp] in *; try congruence; try discriminate; try reflexivity; try lia.

Lemma SFltb_trans x y z : SFltb x y = true -> SFltb y z = true -> SFltb x z = true.
Proof. unfold SFltb. sf_cases; cmp_cases. Qed.

Lemma SFleb_trans x y z : SFleb x y = true -> SFleb y z = true -> SFleb x z = true.
Proof. unfold SFleb. sf_cases; cmp_cases. Qed.

Lemma SFltb_leb_trans x y z : SFltb x y = true -> SFleb y z = true -> SFltb x z = true.
Proof. unfold SFltb, SFleb. sf_cases; cmp_cases. Qed.

Lemma SFleb_ltb_trans x y z : SFleb x y = true -> SFltb y z = true -> SFltb x z = true.
Proof. unfold SFltb, SFleb. sf_cases; cmp_cases. Qed.

Lemma SFleb_total x y :
  SFleb x x = true -> SFleb y y = true -> SFltb x y = false -> SFleb y x = true.
Proof. unfold SFltb, SFleb. sf_cases; cmp_cases. Qed.

Lemma SFltb_not_leb x y : SFltb x y = true -> SFleb y x = false.
Proof. unfold SFltb, SFleb. sf_cases; cmp_cases. Qed.

Lemma SFleb_refl_l x y : SFleb x y = true -> SFleb x x = true.
Proof. unfold SFleb. sf_cases; cmp_cases. Qed.

Lemma SFleb_refl_r x y : SFleb x y = true -> SFleb y y = true.
Proof. unfold SFleb. sf_cases; cmp_cases. Qed.

Lemma SFleb_antisym x y :
  SFleb x y = true -> SFleb y x = true -> SFeqb x y = true.
Proof. unfold SFleb, SFeqb. sf_cases; cmp_cases. Qed.

Lemma SFeqb_leb x y : SFeqb x y = true -> SFleb x y = true.
Proof. unfold SFleb, SFeqb. destruct (SFcompare x y) as [[]|]; congruence. Qed.

Import Double.

Lemma ltb_trans a b c :
  PrimFloat.ltb a b = true -> PrimFloat.ltb b c = true -> PrimFloat.ltb a c = true.
Proof. rewrite !FloatAxioms.ltb_spec. apply SFltb_trans. Qed.

Lemma leb_trans a b c :
  PrimFloat.leb a b = true -> PrimFloat.leb b c = true -> PrimFloat.leb a c = true.
Proof. rewrite !FloatAxioms.leb_spec. apply SFleb_trans. Qed.

Lemma ltb_leb_trans a b c :
  PrimFloat.ltb a b = true -> PrimFloat.leb b c = true -> PrimFloat.ltb a c = true.
Proof. rewrite !FloatAxioms.ltb_spec, FloatAxioms.leb_spec. apply SFltb_leb_trans. Qed.

Lemma leb_ltb_trans a b c :
  PrimFloat.leb a b = true -> PrimFloat.ltb b c = true -> PrimFloat.ltb a c = true.
Proof. rewrite !FloatAxioms.ltb_spec, FloatAxioms.leb_spec. apply SFleb_ltb_trans. Qed.

Lemma ltb_not_leb a b : PrimFloat.ltb a b = true -> PrimFloat.leb b a = false.
Proof. rewrite FloatAxioms.ltb_spec, FloatAxioms.leb_spec. apply SFltb_not_leb. Qed.

Lemma ltb_leb a b : PrimFloat.ltb a b = true -> PrimFloat.leb a b = true.
Proof.
  rewrite FloatAxioms.ltb_spec, FloatAxioms.leb_spec. unfold SFltb, SFleb.
  destruct (SFcompare _ _) as [[]|]; congruence.
Qed.

Lemma ltb_asym a b : PrimFloat.ltb a b = true -> PrimFloat.ltb b a = false.
Proof.
  intros H. destruct (PrimFloat.ltb b a) eqn:E; [|reflexivity].
  apply ltb_leb in E. rewrite (ltb_not_leb _ _ H) in E. discriminate.
Qed.

Lemma ltb_irrefl a : PrimFloat.ltb a a = false.
Proof.
  destruct (PrimFloat.ltb a a) eqn:E; [|reflexivity].
  now rewrite (ltb_asym _ _ E) in E.
Qed.

(** Two numbers are comparable. *)
Lemma leb_total a b :
  isNumber a = true -> isNumber b = true ->
  PrimFloat.ltb a b = false -> PrimFloat.leb b a = true.
Proof. unfold isNumber. rewrite !FloatAxioms.leb_spec, FloatAxioms.ltb_spec. apply SFleb_total. Qed.

Lemma leb_number a b :
  PrimFloat.leb a b = true -> isNumber a = true /\ isNumber b = true.
Proof.
  unfold isNumber. rewrite !FloatAxioms.leb_spec. intros H.
  split; [exact (SFleb_refl_l _ _ H) | exact (SFleb_refl_r _ _ H)].
Qed.

Lemma ltb_number a b :
  PrimFloat.ltb a b = true -> isNumber a = true /\ isNumber b = true.
Proof. intros H. apply leb_number. now apply ltb_leb. Qed.

Lemma leb_not_ltb a b : PrimFloat.leb a b = true -> PrimFloat.ltb b a = false.
Proof.
  intros H. destruct (PrimFloat.ltb b a) eqn:E; [|reflexivity].
  rewrite (ltb_not_leb _ _ E) in H. discriminate.
Qed.

(** NaN, in terms of [isNumber]. *)
Lemma is_nan_number a : is_nan a = negb (isNumber a).
Proof.
  unfold is_nan, isNumber. rewrite FloatAxioms.eqb_spec, FloatAxioms.leb_spec. unfold SFeqb, SFleb.
  destruct (Prim2SF a) as [[]|[]| |[] m e]; cbn; try reflexivity;
    rewrite Z.compare_refl;
    change (Pos.compare_cont Eq m m) with (Pos.compare m m);
    now rewrite Pos.compare_refl.
Qed.

Lemma not_leb_ltb a b :
  isNumber a = true -> isNumber b = true ->
  PrimFloat.leb a b = false -> PrimFloat.ltb b a = true.
Proof.
  unfold isNumber. rewrite !FloatAxioms.leb_spec, FloatAxioms.ltb_spec.
  generalize (Prim2SF a) (Prim2SF b). intros x y.
  unfold SFleb, SFltb. sf_cases; cmp_cases.
Qed.

(** Two numbers that are equal as doubles are the same double, or two
    zeros. *)
Lemma SFleb_antisym_eq x y :
  SFleb x y = true -> SFleb y x = true ->
  x = y \/ exists s s', x = S754_zero s /\ y = S754_zero s'.
Proof.
  unfold SFleb.
  destruct x as [[]|[]| |[] m1 e1], y as [[]|[]| |[] m2 e2];
    cbn [SFcompare]; try discriminate; eauto;
    destruct (Z.compare_spec e1 e2); try discriminate;
    destruct (Z.compare_spec e2 e1); try discriminate; try lia;
    change (Pos.compare_cont Eq m1 m2) with (Pos.compare m1 m2);
    change (Pos.compare_cont Eq m2 m1) with (Pos.compare m2 m1);
    destruct (Pos.compare_spec m1 m2); try discriminate;
    destruct (Pos.compare_spec m2 m1); cbn [CompOpp]; try discriminate; try lia;
    subst; intros _ _; left; reflexivity.
Qed.

Lemma same_or_zeros a b :
  PrimFloat.leb a b = true -> PrimFloat.leb b a = true ->
  a = b \/ exists s s', Prim2SF a = S754_zero s /\ Prim2SF b = S754_zero s'.
Proof.
  rewrite !FloatAxioms.leb_spec. intros H1 H2.
  destruct (SFleb_antisym_eq _ _ H1 H2) as [E|Z]; [left | right; exact Z].
  now apply Prim2SF_inj.
Qed.

(** [Math.max] and [Math.min] of two numbers: a number on the right side of
    both. *)
Lemma max_bounds a b :
  isNumber a = true -> isNumber b = true ->
  isNumber (max a b) = true
  /\ PrimFloat.leb a (max a b) = true /\ PrimFloat.leb b (max a b) = true.
Proof.
  intros Ha Hb. unfold max. rewrite !is_nan_number, Ha, Hb. cbn [negb orb].
  destruct (PrimFloat.ltb a b) eqn:E1.
  { split; [assumption|]. split; [now apply ltb_leb | assumption]. }
  destruct (PrimFloat.ltb b a) eqn:E2.
  { split; [assumption|]. split; [assumption | now apply ltb_leb]. }
  pose proof (leb_total _ _ Ha Hb E1). pose proof (leb_total _ _ Hb Ha E2).
  destruct (Prim2SF a) as [[]|[]| |[] m e]; auto.
Qed.

Lemma min_bounds a b :
  isNumber a = true -> isNumber b = true ->
  isNumber (min a b) = true
  /\ PrimFloat.leb (min a b) a = true /\ PrimFloat.leb (min a b) b = true.
Proof.
  intros Ha Hb. unfold min. rewrite !is_nan_number, Ha, Hb. cbn [negb orb].
  destruct (PrimFloat.ltb a b) eqn:E1.
  { split; [assumption|]. split; [assumption | now apply ltb_leb]. }
  destruct (PrimFloat.ltb b a) eqn:E2.
  { split; [assumption|]. split; [now apply ltb_leb | assumption]. }
  pose proof (leb_total _ _ Ha Hb E1). pose proof (leb_total _ _ Hb Ha E2).
  destruct (Prim2SF a) as [[]|[]| |[] m e]; auto.
Qed.

(** [Math.max] and [Math.min] do not depend on the order of their
    arguments. *)
Lemma max_comm a b : max a b = max b a.
Proof.
  unfold max. rewrite (orb_comm (is_nan b)).
  destruct (is_nan a || is_nan b) eqn:En; [reflexivity|].
  apply orb_false_elim in En. destruct En as [Ea Eb].
  rewrite is_nan_number in Ea, Eb. apply negb_false_iff in Ea, Eb.
  destruct (PrimFloat.ltb a b) eqn:E1.
  { now rewrite (ltb_asym _ _ E1). }
  destruct (PrimFloat.ltb b a) eqn:E2; [reflexivity|].
  pose proof (leb_total _ _ Ea Eb E1) as L1. pose proof (leb_total _ _ Eb Ea E2) as L2.
  destruct (same_or_zeros _ _ L2 L1) as [->|(s & s' & Za & Zb)].
  - now destruct (Prim2SF b) as [[]|[]| |[] m e].
  - rewrite Za, Zb. destruct s, s'; try reflexivity;
      apply Prim2SF_inj; congruence.
Qed.

Lemma min_comm a b : min a b = min b a.
Proof.
  unfold min. rewrite (orb_comm (is_nan b)).
  destruct (is_nan a || is_nan b) eqn:En; [reflexivity|].
  apply orb_false_elim in En. destruct En as [Ea Eb].
  rewrite is_nan_number in Ea, Eb. apply negb_false_iff in Ea, Eb.
  destruct (PrimFloat.ltb a b) eqn:E1.
  { now rewrite (ltb_asym _ _ E1). }
  destruct (PrimFloat.ltb b a) eqn:E2; [reflexivity|].
  pose proof (leb_total _ _ Ea Eb E1) as L1. pose proof (leb_total _ _ Eb Ea E2) as L2.
  destruct (same_or_zeros _ _ L2 L1) as [->|(s & s' & Za & Zb)].
  - now destruct (Prim2SF b) as [[]|[]| |[] m e].
  - rewrite Za, Zb. destruct s, s'; try reflexivity;
      apply Prim2SF_inj; congruence.
Qed.

(** The sum of two doubles does not depend on their order. *)
Lemma add_comm a b : (a + b)%float = (b + a)%float.
Proof.
  apply Prim2SF_inj. rewrite !FloatAxioms.add_spec.
  unfold SF64add, SFadd.
  destruct (Prim2SF a) as [[]|[]| |[] m1 e1], (Prim2SF b) as [[]|[]| |[] m2 e2];
    try reflexivity;
    cbn zeta; rewrite (Z.min_comm e2 e1), Z.add_comm; reflexivity.
Qed.

(** Adding the double [0] to a number leaves a number equal to it. *)
Lemma add_zero a :
  isNumber a = true ->
  PrimFloat.leb (a + 0)%float a = true /\ PrimFloat.leb a (a + 0)%float = true.
Proof.
  unfold isNumber. rewrite !FloatAxioms.leb_spec, FloatAxioms.add_spec.
  change (Prim2SF 0%float) with (S754_zero false).
  unfold SF64add, SFadd, SFleb.
  destruct (Prim2SF a) as [[]|[]| |[] m e]; cbn; intros H; try discriminate;
    try (split; reflexivity); split; exact H.
Qed.

End DoubleFacts.

(** ** Theorems: [calculateIoU] *)

Lemma of_Q_zero q : q == 0 -> Double.of_Q q = 0%float.
Proof.
  intros H. assert (Hn : Qnum q = 0%Z).
  { unfold Qeq in H. cbn in H. lia. }
  unfold Double.of_Q. rewrite Hn. reflexivity.
Qed.

Section IoU.

Variables box1 box2 : Box.

Hypothesis numeric1 : numericBox box1.
Hypothesis numeric2 : numericBox box2.

(** The corners are numbers, inside the edges of both boxes. *)
Lemma iouCorners_bounds x1 y1 x2 y2 :
  iouCorners box1 box2 = (x1, y1, x2, y2) ->
  (Double.isNumber x1 = true /\ Double.isNumber y1 = true
   /\ Double.isNumber x2 = true /\ Double.isNumber y2 = true)
  /\ PrimFloat.leb (leftEdge box1) x1 = true /\ PrimFloat.leb (leftEdge box2) x1 = true
  /\ PrimFloat.leb (topEdge box1) y1 = true /\ PrimFloat.leb (topEdge box2) y1 = true
  /\ PrimFloat.leb x2 (rightEdge box1) = true /\ PrimFloat.leb x2 (rightEdge box2) = true
  /\ PrimFloat.leb y2 (bottomEdge box1) = true
  /\ PrimFloat.leb y2 (bottomEdge box2) = true.
Proof.
  destruct numeric1 as (L1 & T1 & R1 & B1), numeric2 as (L2 & T2 & R2 & B2).
  unfold iouCorners. intros [= <- <- <- <-].
  destruct (DoubleFacts.max_bounds _ _ L1 L2) as (? & ? & ?).
  destruct (DoubleFacts.max_bounds _ _ T1 T2) as (? & ? & ?).
  destruct (DoubleFacts.min_bounds _ _ R1 R2) as (? & ? & ?).
  destruct (DoubleFacts.min_bounds _ _ B1 B2) as (? & ? & ?).
  repeat split; assumption.
Qed.

(** The early return, in terms of the corners. *)
Lemma calculateIoU_early x1 y1 x2 y2 :
  iouCorners box1 box2 = (x1, y1, x2, y2) ->
  PrimFloat.leb x2 x1 = true \/ PrimFloat.leb y2 y1 = true ->
  calculateIoU box1 box2 = 0%float.
Proof.
  intros C H. unfold calculateIoU. rewrite C.
  destruct H as [-> | ->]; [reflexivity | now rewrite orb_true_r].
Qed.

End IoU.

(** C10, as amended.  [calculateIoU] has a result for every pair of boxes.
    For boxes whose edges are numbers, it is 0 whenever the corners of the
    intersection, as computed, do not cross: [x2 <= x1] or [y2 <= y1]; this
    is so when one box ends, as computed, where the other begins or before,
    and when a box has no width or no height.  The division is reached only
    with [x1 < x2] and [y1 < y2], and its result is the quotient of the
    doubles [intersection] and [union]; no bound is claimed for it. *)
Theorem calculateIoU_zero_unless_corners_cross
  (box1 box2 : Box) (x1 y1 x2 y2 : float) :
  numericBox box1 -> numericBox box2 ->
  iouCorners box1 box2 = (x1, y1, x2, y2) ->
  (PrimFloat.leb x2 x1 = true \/ PrimFloat.leb y2 y1 = true ->
   calculateIoU box1 box2 = 0%float)
  /\ (PrimFloat.leb (rightEdge box1) (leftEdge box2) = true
      \/ PrimFloat.leb (rightEdge box2) (leftEdge box1) = true
      \/ PrimFloat.leb (bottomEdge box1) (topEdge box2) = true
      \/ PrimFloat.leb (bottomEdge box2) (topEdge box1) = true ->
      calculateIoU box1 box2 = 0%float)
  /\ (box_width box1 == 0 \/ box_height box1 == 0
      \/ box_width box2 == 0 \/ box_height box2 == 0 ->
      calculateIoU box1 box2 = 0%float)
  /\ (PrimFloat.leb x2 x1 = false -> PrimFloat.leb y2 y1 = false ->
      PrimFloat.ltb x1 x2 = true /\ PrimFloat.ltb y1 y2 = true
      /\ calculateIoU box1 box2
         = ((x2 - x1) * (y2 - y1)
            / (boxArea box1 + boxArea box2 - (x2 - x1) * (y2 - y1)))%float).
Proof.
  intros N1 N2 C.
  destruct (iouCorners_bounds box1 box2 N1 N2 _ _ _ _ C)
    as ((Nx1 & Ny1 & Nx2 & Ny2) & A1 & A2 & A3 & A4 & A5 & A6 & A7 & A8).
  assert (Hearly : PrimFloat.leb x2 x1 = true \/ PrimFloat.leb y2 y1 = true ->
                   calculateIoU box1 box2 = 0%float)
    by (apply (calculateIoU_early box1 box2 _ _ _ _ C)).
  assert (Hapart : PrimFloat.leb (rightEdge box1) (leftEdge box2) = true
                   \/ PrimFloat.leb (rightEdge box2) (leftEdge box1) = true
                   \/ PrimFloat.leb (bottomEdge box1) (topEdge box2) = true
                   \/ PrimFloat.leb (bottomEdge box2) (topEdge box1) = true ->
                   calculateIoU box1 box2 = 0%float).
  { intros [H|[H|[H|H]]]; apply Hearly.
    - left. apply DoubleFacts.leb_trans with (rightEdge box1); [assumption|].
      now apply DoubleFacts.leb_trans with (leftEdge box2).
    - left. apply DoubleFacts.leb_trans with (rightEdge box2); [assumption|].
      now apply DoubleFacts.leb_trans with (leftEdge box1).
    - right. apply DoubleFacts.leb_trans with (bottomEdge box1); [assumption|].
      now apply DoubleFacts.leb_trans with (topEdge box2).
    - right. apply DoubleFacts.leb_trans with (bottomEdge box2); [assumption|].
      now apply DoubleFacts.leb_trans with (topEdge box1). }
  split; [exact Hearly|]. split; [exact Hapart|]. split.
  - destruct N1 as (L1 & T1 & _), N2 as (L2 & T2 & _).
    intros [H|[H|[H|H]]]; apply Hearly; apply of_Q_zero in H.
    + left. apply DoubleFacts.leb_trans with (rightEdge box1); [assumption|].
      apply DoubleFacts.leb_trans with (leftEdge box1); [|assumption].
      unfold rightEdge. rewrite H. now apply DoubleFacts.add_zero.
    + right. apply DoubleFacts.leb_trans with (bottomEdge box1); [assumption|].
      apply DoubleFacts.leb_trans with (topEdge box1); [|assumption].
      unfold bottomEdge. rewrite H. now apply DoubleFacts.add_zero.
    + left. apply DoubleFacts.leb_trans with (rightEdge box2); [assumption|].
      apply DoubleFacts.leb_trans with (leftEdge box2); [|assumption].
      unfold rightEdge. rewrite H. now apply DoubleFacts.add_zero.
    + right. apply DoubleFacts.leb_trans with (bottomEdge box2); [assumption|].
      apply DoubleFacts.leb_trans with (topEdge box2); [|assumption].
      unfold bottomEdge. rewrite H. now apply DoubleFacts.add_zero.
  - intros Hx Hy.
    split; [now apply DoubleFacts.not_leb_ltb|].
    split; [now apply DoubleFacts.not_leb_ltb|].
    unfold calculateIoU. rewrite C, Hx, Hy. reflexivity.
Qed.

Lemma calculateIoU_zero_unless_corners_cross_witness :
  numericBox unitBox /\ numericBox tenthBox
  /\ iouCorners unitBox tenthBox
     = (0.1, 0.1, 0.30000000000000004, 0.30000000000000004)%float
  /\ calculateIoU unitBox tenthBox
     = ((0.30000000000000004 - 0.1) * (0.30000000000000004 - 0.1)
        / (boxArea unitBox + boxArea tenthBox
           - (0.30000000000000004 - 0.1) * (0.30000000000000004 - 0.1)))%float.
Proof.
  assert (N1 : numericBox unitBox) by (repeat split; vm_compute; reflexivity).
  assert (N2 : numericBox tenthBox) by (repeat split; vm_compute; reflexivity).
  assert (C : iouCorners unitBox tenthBox
              = (0.1, 0.1, 0.30000000000000004, 0.30000000000000004)%float)
    by (vm_compute; reflexivity).
  split; [exact N1|]. split; [exact N2|]. split; [exact C|].
  destruct (calculateIoU_zero_unless_corners_cross unitBox tenthBox _ _ _ _ N1 N2 C)
    as (_ & _ & _ & H).
  apply H; vm_compute; reflexivity.
Defined.

(** C10 as stated fails.  For the box [{x: 0.1, y: 0.1, width: 0.2,
    height: 0.2}] with itself the quotient is [1.0000000000000004], above 1.
    For [sliverBox] with itself the division is reached with an
    [intersection] above 0 and a [union] that is 0: it is a division by zero,
    and the result is [Infinity].  Both boxes have positive sides. *)
Lemma calculateIoU_above_one_and_infinite :
  (0 < box_width tenthBox /\ 0 < box_height tenthBox
   /\ calculateIoU tenthBox tenthBox = 1.0000000000000004%float
   /\ PrimFloat.leb (calculateIoU tenthBox tenthBox) 1 = false)
  /\ (0 < box_width sliverBox /\ 0 < box_height sliverBox
      /\ (let '(x1, y1, x2, y2) := iouCorners sliverBox sliverBox in
          let intersection := ((x2 - x1) * (y2 - y1))%float in
          let union := (boxArea sliverBox + boxArea sliverBox - intersection)%float in
          PrimFloat.leb x2 x1 || PrimFloat.leb y2 y1 = false
          /\ PrimFloat.ltb 0 intersection = true
          /\ union = 0%float)
      /\ calculateIoU sliverBox sliverBox = infinity).
Proof.
  split; (split; [reflexivity|]); (split; [reflexivity|]); split;
    vm_compute; repeat split; reflexivity.
Qed.

(** ** The matcher *)

Section Matcher.

Variables (iouThreshold : float) (matchedSet : list nat) (detectedShape : DetectedShape).

Let result := scanResult iouThreshold matchedSet detectedShape.

Let iou := iouWith detectedShape.

(** A shape that is passed over changes nothing. *)
Lemma scanResult_skip g0 rest i best bestIoU r :
  (eligible matchedSet detectedShape i g0 ->
   ~ (PrimFloat.ltb bestIoU (iou g0) = true /\ PrimFloat.ltb iouThreshold (iou g0) = true)) ->
  result rest (S i) best bestIoU r ->
  result (g0 :: rest) i best bestIoU r.
Proof.
  unfold result, scanResult, iou. cbn zeta.
  intros Hskip [[E N]|(k & g & Hk & E & El & B & T & Mx & Fs)].
  - left. split; [exact E|]. intros [|k] g Hk El.
    + cbn in Hk. injection Hk as <-. rewrite Nat.add_0_r in El. now apply Hskip.
    + rewrite Nat.add_succ_r in El. exact (N k g Hk El).
  - right. exists (S k), g. rewrite Nat.add_succ_r.
    split; [assumption|]. split; [assumption|]. split; [assumption|].
    split; [assumption|]. split; [assumption|]. split.
    + intros [|k'] g' Hk' El'.
      * cbn in Hk'. injection Hk' as <-. rewrite Nat.add_0_r in El'.
        specialize (Hskip El').
        destruct (PrimFloat.ltb (iouWith detectedShape g) (iouWith detectedShape g0)) eqn:L;
          [|reflexivity].
        exfalso. apply Hskip. split; eapply DoubleFacts.ltb_trans; eassumption.
      * rewrite Nat.add_succ_r in El'. exact (Mx k' g' Hk' El').
    + intros [|k'] g' Hlt Hk' El'.
      * cbn in Hk'. injection Hk' as <-. rewrite Nat.add_0_r in El'.
        specialize (Hskip El').
        destruct (PrimFloat.leb (iouWith detectedShape g) (iouWith detectedShape g0)) eqn:L;
          [|reflexivity].
        exfalso. apply Hskip. split; eapply DoubleFacts.ltb_leb_trans; eassumption.
      * rewrite Nat.add_succ_r in El'. apply (Fs k' g'); [lia|assumption..].
Qed.

(** A shape that becomes the best so far stays it unless a later one has a
    larger IoU. *)
Lemma scanResult_take g0 rest i best bestIoU r :
  eligible matchedSet detectedShape i g0 ->
  PrimFloat.ltb bestIoU (iou g0) = true -> PrimFloat.ltb iouThreshold (iou g0) = true ->
  result rest (S i) (Some (g0, i)) (iou g0) r ->
  result (g0 :: rest) i best bestIoU r.
Proof.
  unfold result, scanResult, iou. cbn zeta.
  intros El0 B0 T0 [[E N]|(k & g & Hk & E & El & B & T & Mx & Fs)]; right.
  - exists 0%nat, g0. rewrite Nat.add_0_r.
    split; [reflexivity|]. split; [assumption|]. split; [assumption|].
    split; [assumption|]. split; [assumption|]. split.
    + intros [|k'] g' Hk' El'.
      * cbn in Hk'. injection Hk' as <-. apply DoubleFacts.ltb_irrefl.
      * rewrite Nat.add_succ_r in El'. specialize (N k' g' Hk' El').
        destruct (PrimFloat.ltb (iouWith detectedShape g0) (iouWith detectedShape g')) eqn:L;
          [|reflexivity].
        exfalso. apply N. split; [reflexivity|].
        eapply DoubleFacts.ltb_trans; eassumption.
    + intros k' g' Hlt. lia.
  - exists (S k), g. rewrite Nat.add_succ_r.
    split; [assumption|]. split; [assumption|]. split; [assumption|].
    split; [eapply DoubleFacts.ltb_trans; eassumption|]. split; [assumption|]. split.
    + intros [|k'] g' Hk' El'.
      * cbn in Hk'. injection Hk' as <-. now apply DoubleFacts.ltb_asym.
      * rewrite Nat.add_succ_r in El'. exact (Mx k' g' Hk' El').
    + intros [|k'] g' Hlt Hk' El'.
      * cbn in Hk'. injection Hk' as <-. now apply DoubleFacts.ltb_not_leb.
      * rewrite Nat.add_succ_r in El'. apply (Fs k' g'); [lia|assumption..].
Qed.

Lemma scanGroundTruth_spec (groundTruth : list GroundTruthShape) :
  forall i best bestIoU,
    result groundTruth i best bestIoU
           (scanGroundTruth iouThreshold matchedSet detectedShape groundTruth
                                i best bestIoU).
Proof.
  induction groundTruth as [|g0 rest IH]; intros i best bestIoU.
  - left. split; [reflexivity|]. intros [|k] g Hk; discriminate.
  - cbn [scanGroundTruth]. specialize (IH (S i)).
    destruct (setHas matchedSet i) eqn:Hm.
    { apply scanResult_skip; [|apply IH]. intros [El _]. congruence. }
    destruct (String.eqb_spec (typeName (ds_type detectedShape)) (gt_type g0)) as [Ht|Ht];
      cbn [negb].
    2:{ apply scanResult_skip; [|apply IH]. intros [_ El]. contradiction. }
    fold (iouWith detectedShape g0). fold (iou g0). unfold Double.gtb.
    destruct (PrimFloat.ltb bestIoU (iou g0)) eqn:Hb; cbn [andb].
    2:{ apply scanResult_skip; [|apply IH]. intros _ [H _]. congruence. }
    destruct (PrimFloat.ltb iouThreshold (iou g0)) eqn:Hthr.
    2:{ apply scanResult_skip; [|apply IH]. intros _ [_ H]. congruence. }
    apply scanResult_take; [split; assumption | assumption | assumption | apply IH].
Qed.

End Matcher.

(** What the inner loop leaves in [bestMatch], [bestIndex] and [bestIoU]. *)
Lemma findBest_none iouThreshold matchedSet d groundTruth b :
  findBest iouThreshold matchedSet d groundTruth = (None, b) ->
  forall j g, nth_error groundTruth j = Some g -> eligible matchedSet d j g ->
              ~ (PrimFloat.ltb 0 (iouWith d g) = true
                 /\ PrimFloat.ltb iouThreshold (iouWith d g) = true).
Proof.
  unfold findBest. intros H.
  destruct (scanGroundTruth_spec iouThreshold matchedSet d groundTruth 0 None 0)
    as [[_ N]|(k & g & _ & E & _)].
  - exact N.
  - cbn zeta in E. congruence.
Qed.

Lemma findBest_some iouThreshold matchedSet d groundTruth g i b :
  findBest iouThreshold matchedSet d groundTruth = (Some (g, i), b) ->
  nth_error groundTruth i = Some g
  /\ b = iouWith d g
  /\ eligible matchedSet d i g
  /\ PrimFloat.ltb 0 (iouWith d g) = true
  /\ PrimFloat.ltb iouThreshold (iouWith d g) = true
  /\ (forall j g', nth_error groundTruth j = Some g' ->
                   eligible matchedSet d j g' ->
                   PrimFloat.ltb (iouWith d g) (iouWith d g') = false)
  /\ (forall j g', (j < i)%nat -> nth_error groundTruth j = Some g' ->
                   eligible matchedSet d j g' ->
                   PrimFloat.leb (iouWith d g) (iouWith d g') = false).
Proof.
  unfold findBest. intros H.
  destruct (scanGroundTruth_spec iouThreshold matchedSet d groundTruth 0 None 0)
    as [[E _]|(k & g1 & Hk & E & El & B & T & Mx & Fs)]; cbn zeta in E.
  - congruence.
  - rewrite H in E. cbn in E. injection E as -> -> ->.
    repeat split; try assumption; apply El.
Qed.

Lemma findBest_exists iouThreshold matchedSet d groundTruth j g :
  nth_error groundTruth j = Some g -> eligible matchedSet d j g ->
  PrimFloat.ltb 0 (iouWith d g) = true ->
  PrimFloat.ltb iouThreshold (iouWith d g) = true ->
  exists g' i b, findBest iouThreshold matchedSet d groundTruth = (Some (g', i), b).
Proof.
  intros Hj El H0 Ht.
  destruct (findBest iouThreshold matchedSet d groundTruth) as [[[g' i]|] b] eqn:E.
  - eauto.
  - exfalso. exact (findBest_none _ _ _ _ _ E j g Hj El (conj H0 Ht)).
Qed.

Lemma setHas_true s i : setHas s i = true <-> In i s.
Proof.
  unfold setHas. rewrite existsb_exists. split.
  - intros (x & Hx & E). apply Nat.eqb_eq in E. now subst.
  - intros H. exists i. split; [assumption | apply Nat.eqb_refl].
Qed.

Lemma setHas_false s i : setHas s i = false <-> ~ In i s.
Proof.
  rewrite <- setHas_true. destruct (setHas s i); split; congruence.
Qed.

Lemma setAdd_fresh s i : setHas s i = false -> setAdd s i = s ++ [i].
Proof. unfold setAdd. now intros ->. Qed.

(** The choice of a detection does not depend on the threshold or on the
    ground truth taken by others, as long as its own choice is still free. *)
Lemma findBest_stable t1 t2 m1 m2 d groundTruth g i b :
  PrimFloat.leb t1 t2 = true -> incl m2 m1 ->
  findBest t2 m2 d groundTruth = (Some (g, i), b) ->
  In i m1 \/ findBest t1 m1 d groundTruth = (Some (g, i), b).
Proof.
  intros Ht Hincl H.
  destruct (findBest_some _ _ _ _ _ _ _ H) as (Hi & -> & [Hfree Hty] & H0 & Hthr & Mx & Fs).
  destruct (setHas m1 i) eqn:Hm; [left; now apply setHas_true|right].
  destruct (findBest_exists t1 m1 d groundTruth i g Hi (conj Hm Hty) H0)
    as (g' & i' & b' & E); [eapply DoubleFacts.leb_ltb_trans; eassumption|].
  destruct (findBest_some _ _ _ _ _ _ _ E) as (Hi' & -> & [Hfree' Hty'] & H0' & _ & Mx' & Fs').
  assert (El2 : eligible m2 d i' g').
  { split; [|assumption]. apply setHas_false. intros Hin.
    apply setHas_false in Hfree'. apply Hfree'. now apply Hincl. }
  assert (El1 : eligible m1 d i g) by (split; assumption).
  pose proof (Mx i' g' Hi' El2) as L1.
  pose proof (Mx' i g Hi El1) as L2.
  destruct (DoubleFacts.ltb_number _ _ H0) as [_ Ng].
  destruct (DoubleFacts.ltb_number _ _ H0') as [_ Ng'].
  destruct (Nat.lt_trichotomy i i') as [Hlt|[Heq|Hgt]].
  - pose proof (Fs' i g Hlt Hi El1) as F.
    rewrite (DoubleFacts.leb_total _ _ Ng Ng' L1) in F. discriminate.
  - subst i'. rewrite E. congruence.
  - pose proof (Fs i' g' Hgt Hi' El2) as F.
    rewrite (DoubleFacts.leb_total _ _ Ng' Ng L2) in F. discriminate.
Qed.

Lemma matchStep_none Math_sqrt iouThreshold groundTruth st d b :
  findBest iouThreshold (matched st) d groundTruth = (None, b) ->
  matchStep Math_sqrt iouThreshold groundTruth st d = st.
Proof. unfold matchStep. now intros ->. Qed.

Lemma matchStep_some Math_sqrt iouThreshold groundTruth st d g i b :
  findBest iouThreshold (matched st) d groundTruth = (Some (g, i), b) ->
  let st' := matchStep Math_sqrt iouThreshold groundTruth st d in
  matched st' = matched st ++ [i]
  /\ truePositives st' = (truePositives st + 1)%Z
  /\ ~ In i (matched st).
Proof.
  intros H. cbn zeta. unfold matchStep. rewrite H. cbn.
  destruct (findBest_some _ _ _ _ _ _ _ H) as (_ & _ & [Hfree _] & _).
  rewrite (setAdd_fresh _ _ Hfree). repeat split. now apply setHas_false.
Qed.

(** The set [matched] and the counter [truePositives] grow together with the
    indices listed by [assignments]. *)
Lemma matchLoop_assignments Math_sqrt iouThreshold groundTruth detected :
  forall st,
    let st' := fold_left (matchStep Math_sqrt iouThreshold groundTruth) detected st in
    let a := assignments iouThreshold groundTruth (matched st) detected in
    matched st' = matched st ++ assignedIndices a
    /\ truePositives st'
       = (truePositives st + Z.of_nat (length (assignedIndices a)))%Z.
Proof.
  induction detected as [|d rest IH]; intros st; cbn zeta.
  - cbn. rewrite app_nil_r. split; [reflexivity | lia].
  - cbn [fold_left assignments].
    destruct (findBest iouThreshold (matched st) d groundTruth) as [[[g i]|] b] eqn:E.
    + destruct (matchStep_some Math_sqrt _ _ _ _ _ _ _ E) as (Hm & Htp & Hfresh).
      destruct (IH (matchStep Math_sqrt iouThreshold groundTruth st d)) as [I1 I2].
      rewrite Hm in I1, I2. rewrite Htp in I2.
      assert (Hadd : setAdd (matched st) i = matched st ++ [i]).
      { apply setAdd_fresh. now apply setHas_false. }
      rewrite Hadd. cbn [assignedIndices flat_map].
      fold (assignedIndices (assignments iouThreshold groundTruth (matched st ++ [i]) rest)).
      split.
      * rewrite I1, <- app_assoc. reflexivity.
      * rewrite I2. cbn [app length]. lia.
    + rewrite (matchStep_none Math_sqrt _ _ _ _ _ E).
      destruct (IH st) as [I1 I2]. cbn [assignedIndices flat_map app].
      split; assumption.
Qed.

Lemma assignments_length iouThreshold groundTruth detected :
  forall m, length (assignments iouThreshold groundTruth m detected) = length detected.
Proof.
  induction detected as [|d rest IH]; intros m; cbn [assignments]; [reflexivity|].
  destruct (findBest iouThreshold m d groundTruth) as [[[g i]|] b]; cbn; now rewrite IH.
Qed.

(** The [k]-th detection makes the choice of the inner loop for the set of
    indices taken before its turn. *)
Lemma assignments_nth iouThreshold groundTruth detected :
  forall m k d,
    nth_error detected k = Some d ->
    let a := assignments iouThreshold groundTruth m detected in
    exists m',
      (forall j, In j m' <-> In j m \/ In (Some j) (firstn k a))
      /\ nth_error a k
         = Some (option_map snd (fst (findBest iouThreshold m' d groundTruth))).
Proof.
  induction detected as [|d0 rest IH]; intros m k d Hk; cbn zeta.
  - destruct k; discriminate.
  - destruct k as [|k].
    + cbn in Hk. injection Hk as ->. exists m. split.
      * intros j. cbn. tauto.
      * cbn [assignments].
        destruct (findBest iouThreshold m d groundTruth) as [[[g i]|] b]; reflexivity.
    + cbn in Hk. cbn [assignments].
      destruct (findBest iouThreshold m d0 groundTruth) as [[[g i]|] b] eqn:E.
      * destruct (IH (setAdd m i) k d Hk) as (m' & Hm' & Hn).
        exists m'. split; [|exact Hn].
        intros j. rewrite Hm'. cbn [firstn In].
        destruct (findBest_some _ _ _ _ _ _ _ E) as (_ & _ & [Hfree _] & _).
        rewrite (setAdd_fresh _ _ Hfree), in_app_iff. cbn.
        split.
        -- intros [[H|[H|[]]]|H]; [tauto | subst; right; now left | tauto].
        -- intros [H|[H|H]]; [tauto | injection H as ->; left; right; now left | tauto].
      * destruct (IH m k d Hk) as (m' & Hm' & Hn).
        exists m'. split; [|exact Hn].
        intros j. rewrite Hm'. cbn [firstn In].
        split.
        -- tauto.
        -- intros [H|[H|H]]; [tauto | discriminate | tauto].
Qed.


Lemma In_firstn_of_nth {A} (l : list A) :
  forall k n x, nth_error l k = Some x -> (k < n)%nat -> In x (firstn n l).
Proof.
  induction l as [|a l IH]; intros [|k] [|n] x H Hlt; try discriminate; try lia.
  - cbn in *. left. congruence.
  - cbn in *. right. apply (IH k); [assumption | lia].
Qed.

Lemma matchLoop_NoDup Math_sqrt iouThreshold groundTruth detected :
  forall st, NoDup (matched st) ->
    NoDup (matched (fold_left (matchStep Math_sqrt iouThreshold groundTruth) detected st)).
Proof.
  induction detected as [|d rest IH]; intros st Hnd; cbn [fold_left]; [assumption|].
  apply IH.
  destruct (findBest iouThreshold (matched st) d groundTruth) as [[[g i]|] b] eqn:E.
  - destruct (matchStep_some Math_sqrt _ _ _ _ _ _ _ E) as (-> & _ & Hfresh).
    apply NoDup_app; [assumption | repeat constructor; intros [] | ].
    intros x Hx [<-|[]]. contradiction.
  - now rewrite (matchStep_none Math_sqrt _ _ _ _ _ E).
Qed.

(** The turn of the [k]-th detection at threshold [iouThreshold], read off
    [assignments]: [free j] says that no earlier detection took ground-truth
    shape [j]. *)
Lemma assignments_turn iouThreshold groundTruth detected k d :
  nth_error detected k = Some d ->
  let a := assignments iouThreshold groundTruth [] detected in
  let free j := ~ In (Some j) (firstn k a) in
  (exists i g,
      nth_error a k = Some (Some i)
      /\ nth_error groundTruth i = Some g
      /\ free i
      /\ typeName (ds_type d) = gt_type g
      /\ PrimFloat.ltb 0 (iouWith d g) = true
      /\ PrimFloat.ltb iouThreshold (iouWith d g) = true
      /\ (forall j g', nth_error groundTruth j = Some g' -> free j ->
                       typeName (ds_type d) = gt_type g' ->
                       PrimFloat.ltb (iouWith d g) (iouWith d g') = false)
      /\ (forall j g', (j < i)%nat -> nth_error groundTruth j = Some g' -> free j ->
                       typeName (ds_type d) = gt_type g' ->
                       PrimFloat.leb (iouWith d g) (iouWith d g') = false))
  \/ (nth_error a k = Some None
      /\ forall j g', nth_error groundTruth j = Some g' -> free j ->
                      typeName (ds_type d) = gt_type g' ->
                      ~ (PrimFloat.ltb 0 (iouWith d g') = true
                         /\ PrimFloat.ltb iouThreshold (iouWith d g') = true)).
Proof.
  intros Hk. cbn zeta.
  destruct (assignments_nth iouThreshold groundTruth detected [] k d Hk)
    as (m' & Hm' & Hn).
  assert (Hfree : forall j, setHas m' j = false
                    <-> ~ In (Some j)
                          (firstn k (assignments iouThreshold groundTruth [] detected))).
  { intros j. rewrite setHas_false, Hm'. cbn. tauto. }
  destruct (findBest iouThreshold m' d groundTruth) as [[[g i]|] b] eqn:E.
  - left. exists i, g.
    destruct (findBest_some _ _ _ _ _ _ _ E) as (Hi & _ & [Hf Hty] & H0 & Ht & Mx & Fs).
    repeat split; try assumption.
    + now apply Hfree.
    + intros j g' Hj Hfj Htj. apply (Mx j g' Hj). split; [now apply Hfree | assumption].
    + intros j g' Hlt Hj Hfj Htj. apply (Fs j g' Hlt Hj).
      split; [now apply Hfree | assumption].
  - right. split; [assumption|].
    intros j g' Hj Hfj Htj. apply (findBest_none _ _ _ _ _ E j g' Hj).
    split; [now apply Hfree | assumption].
Qed.

Lemma assignments_injective iouThreshold groundTruth detected k k' i :
  let a := assignments iouThreshold groundTruth [] detected in
  nth_error a k = Some (Some i) -> nth_error a k' = Some (Some i) -> k = k'.
Proof.
  cbn zeta.
  assert (Hlt : forall k k', (k < k')%nat ->
            nth_error (assignments iouThreshold groundTruth [] detected) k = Some (Some i) ->
            nth_error (assignments iouThreshold groundTruth [] detected) k' = Some (Some i) ->
            False).
  { clear k k'. intros k k' Hlt H H'.
    assert (Hlen : (k' < length detected)%nat).
    { rewrite <- (assignments_length iouThreshold groundTruth detected []).
      apply nth_error_Some. congruence. }
    destruct (nth_error detected k') as [d|] eqn:Hd.
    2:{ apply nth_error_None in Hd. lia. }
    destruct (assignments_turn iouThreshold groundTruth detected k' d Hd)
      as [(i' & g & Hn & _ & Hfree & _)|(Hn & _)]; [|congruence].
    rewrite H' in Hn. injection Hn as <-.
    apply Hfree. apply (In_firstn_of_nth _ k k'); assumption. }
  intros H H'. destruct (Nat.lt_trichotomy k k') as [L|[L|L]]; [|assumption|].
  - exfalso. exact (Hlt _ _ L H H').
  - exfalso. exact (Hlt _ _ L H' H).
Qed.

(** C3.  [evaluateDetection] takes the detections in order; each takes, among
    the ground-truth shapes of its type that no earlier detection took, the
    first one of maximum IoU if that IoU is above 0.5, and none otherwise; no
    ground-truth shape is taken by two detections.  The IoU is the double
    that [calculateIoU] returns and the comparisons are those of doubles:
    the shape taken has an IoU above 0.5, no candidate has a greater one, and
    no earlier candidate has one that is greater or equal; a detection is
    left without a shape when no candidate has an IoU above 0.5. *)
Theorem evaluateDetection_greedy_injective_matching
  (Math_sqrt : Q -> Q) (detected : list DetectedShape)
  (groundTruth : list GroundTruthShape) :
  let a := assignments 0.5 groundTruth [] detected in
  let free k j := ~ In (Some j) (firstn k a) in
  length a = length detected
  /\ matched (matchLoop Math_sqrt 0.5 detected groundTruth) = assignedIndices a
  /\ NoDup (matched (matchLoop Math_sqrt 0.5 detected groundTruth))
  /\ (forall k d, nth_error detected k = Some d ->
        (exists i g,
            nth_error a k = Some (Some i)
            /\ nth_error groundTruth i = Some g
            /\ free k i
            /\ typeName (ds_type d) = gt_type g
            /\ PrimFloat.ltb 0.5 (iouWith d g) = true
            /\ (forall j g', nth_error groundTruth j = Some g' -> free k j ->
                             typeName (ds_type d) = gt_type g' ->
                             PrimFloat.ltb (iouWith d g) (iouWith d g') = false)
            /\ (forall j g', (j < i)%nat -> nth_error groundTruth j = Some g' ->
                             free k j -> typeName (ds_type d) = gt_type g' ->
                             PrimFloat.leb (iouWith d g) (iouWith d g') = false))
        \/ (nth_error a k = Some None
            /\ forall j g', nth_error groundTruth j = Some g' -> free k j ->
                            typeName (ds_type d) = gt_type g' ->
                            PrimFloat.ltb 0.5 (iouWith d g') = false))
  /\ (forall k k' i,
        nth_error a k = Some (Some i) -> nth_error a k' = Some (Some i) -> k = k').
Proof.
  cbn zeta. split; [apply assignments_length|].
  split.
  { destruct (matchLoop_assignments Math_sqrt 0.5 groundTruth detected
                initialMatchState) as [H _].
    exact H. }
  split.
  { apply matchLoop_NoDup. constructor. }
  split.
  - intros k d Hk.
    destruct (assignments_turn 0.5 groundTruth detected k d Hk)
      as [(i & g & Hn & Hi & Hf & Hty & H0 & Ht & Mx & Fs)|(Hn & Hnone)].
    + left. exists i, g. repeat split; assumption.
    + right. split; [assumption|].
      intros j g' Hj Hf Hty.
      destruct (PrimFloat.ltb 0.5 (iouWith d g')) eqn:L; [|reflexivity].
      exfalso. apply (Hnone j g' Hj Hf Hty). split; [|exact L].
      apply DoubleFacts.ltb_trans with 0.5%float; [reflexivity | exact L].
  - intros k k' i. apply assignments_injective.
Qed.

(** ** Monotonicity in the threshold *)

Lemma matchStep_grows Math_sqrt iouThreshold groundTruth st d :
  incl (matched st) (matched (matchStep Math_sqrt iouThreshold groundTruth st d)).
Proof.
  destruct (findBest iouThreshold (matched st) d groundTruth) as [[[g i]|] b] eqn:E.
  - destruct (matchStep_some Math_sqrt _ _ _ _ _ _ _ E) as (-> & _).
    apply incl_appl, incl_refl.
  - rewrite (matchStep_none Math_sqrt _ _ _ _ _ E). apply incl_refl.
Qed.

(** Whatever is matched at the higher threshold is matched at the lower
    one. *)
Lemma matchLoop_incl Math_sqrt t1 t2 groundTruth detected :
  PrimFloat.leb t1 t2 = true ->
  forall low high,
    incl (matched high) (matched low) ->
    incl (matched (fold_left (matchStep Math_sqrt t2 groundTruth) detected high))
         (matched (fold_left (matchStep Math_sqrt t1 groundTruth) detected low)).
Proof.
  intros Ht. induction detected as [|d rest IH]; intros low high Hincl;
    cbn [fold_left]; [assumption|].
  apply IH.
  pose proof (matchStep_grows Math_sqrt t1 groundTruth low d) as Hgrow.
  destruct (findBest t2 (matched high) d groundTruth) as [[[g i]|] b] eqn:E.
  - destruct (matchStep_some Math_sqrt _ _ _ _ _ _ _ E) as (-> & _).
    apply incl_app; [eapply incl_tran; eassumption|].
    intros x [<-|[]].
    destruct (findBest_stable t1 t2 (matched low) (matched high) d groundTruth g i b
                Ht Hincl E) as [Hin|E1].
    + now apply Hgrow.
    + destruct (matchStep_some Math_sqrt _ _ _ _ _ _ _ E1) as (-> & _).
      apply in_or_app. right. now left.
  - rewrite (matchStep_none Math_sqrt _ _ _ _ _ E).
    eapply incl_tran; eassumption.
Qed.

Lemma truePositivesAt_matched Math_sqrt iouThreshold detected groundTruth :
  truePositivesAt Math_sqrt iouThreshold detected groundTruth
  = Z.of_nat (length (matched (matchLoop Math_sqrt iouThreshold detected groundTruth))).
Proof.
  unfold truePositivesAt, matchLoop.
  destruct (matchLoop_assignments Math_sqrt iouThreshold groundTruth detected
              initialMatchState) as [-> ->].
  cbn. reflexivity.
Qed.

(** C6.  With the detections and the ground truth fixed, raising the IoU
    threshold of [evaluateDetection] never raises the number of true
    positives. *)
Theorem truePositives_antitone_in_threshold
  (Math_sqrt : Q -> Q) (t1 t2 : float) (detected : list DetectedShape)
  (groundTruth : list GroundTruthShape) :
  PrimFloat.leb t1 t2 = true ->
  (truePositivesAt Math_sqrt t2 detected groundTruth
   <= truePositivesAt Math_sqrt t1 detected groundTruth)%Z.
Proof.
  intros Ht. rewrite !truePositivesAt_matched.
  apply inj_le, NoDup_incl_length.
  - apply matchLoop_NoDup. constructor.
  - apply matchLoop_incl; [assumption | apply incl_refl].
Qed.

Lemma truePositives_antitone_in_threshold_witness :
  PrimFloat.leb 0.5 0.9 = true
  /\ (truePositivesAt (fun q => q) 0.9 [circleDetection] [circleTruth]
      <= truePositivesAt (fun q => q) 0.5 [circleDetection] [circleTruth])%Z.
Proof.
  split.
  - reflexivity.
  - apply truePositives_antitone_in_threshold. reflexivity.
Defined.

(** ** Precision, recall and F1 *)

Lemma inject_Z_pos z : (0 < z)%Z -> 0 < inject_Z z.
Proof. intros H. unfold Qlt. cbn. lia. Qed.

Lemma inject_Z_le a b : (a <= b)%Z -> inject_Z a <= inject_Z b.
Proof. intros H. unfold Qle. cbn. lia. Qed.

Lemma inject_Z_nonneg z : (0 <= z)%Z -> 0 <= inject_Z z.
Proof. intros H. unfold Qle. cbn. lia. Qed.

Lemma lengthOf_pos {A} (l : list A) : l <> [] -> 0 < lengthOf l.
Proof.
  intros H. apply inject_Z_pos. destruct l; [contradiction | cbn; lia].
Qed.

Lemma truePositivesAt_nonneg Math_sqrt iouThreshold detected groundTruth :
  (0 <= truePositivesAt Math_sqrt iouThreshold detected groundTruth)%Z.
Proof. rewrite truePositivesAt_matched. lia. Qed.

Lemma Qdiv_nonneg a b : 0 <= a -> 0 < b -> 0 <= a / b.
Proof. intros Ha Hb. apply Qle_shift_div_l; lra. Qed.

Lemma gtb_lengthOf_cons {A} (l : list A) : l <> [] -> Num.gtb (lengthOf l) 0 = true.
Proof.
  intros H. destruct (NumFacts.gtb_spec (lengthOf l) 0) as [|N]; [reflexivity|].
  exfalso. apply N. now apply lengthOf_pos.
Qed.

(** C4.  [precision] is TP / |detected| (0 without detections), [recall] is
    TP / |groundTruth| (1 without ground truth), [f1_score] is
    2 * precision * recall / (precision + recall) (0 when the sum is 0), where
    TP is the number of detections that were given a ground-truth shape.  With
    one circle as ground truth and no detection all three are 0. *)
Theorem evaluateDetection_precision_recall_f1
  (Math_sqrt : Q -> Q) (detected : list DetectedShape)
  (groundTruth : list GroundTruthShape) (imageName : string) :
  let m := evaluateDetection Math_sqrt detected groundTruth imageName in
  let TP := truePositivesAt Math_sqrt 0.5 detected groundTruth in
  TP = Z.of_nat (length (assignedIndices (assignments 0.5 groundTruth [] detected)))
  /\ (detected = [] -> precision m = 0)
  /\ (detected <> [] -> precision m = inject_Z TP / lengthOf detected)
  /\ (groundTruth = [] -> recall m = 1)
  /\ (groundTruth <> [] -> recall m = inject_Z TP / lengthOf groundTruth)
  /\ (precision m + recall m == 0 -> f1_score m = 0)
  /\ (~ precision m + recall m == 0 ->
      f1_score m == 2 * precision m * recall m / (precision m + recall m))
  /\ (let m0 := evaluateDetection Math_sqrt [] [circleTruth] imageName in
      precision m0 = 0 /\ recall m0 = 0 /\ f1_score m0 = 0).
Proof.
  cbn zeta.
  assert (Hp : 0 <= precision (evaluateDetection Math_sqrt detected groundTruth imageName)).
  { unfold evaluateDetection, evaluateDetectionAt. cbn [precision].
    destruct (NumFacts.gtb_spec (lengthOf detected) 0); [|lra].
    apply Qdiv_nonneg; [|assumption].
    apply inject_Z_nonneg, (truePositivesAt_nonneg Math_sqrt). }
  assert (Hr : 0 <= recall (evaluateDetection Math_sqrt detected groundTruth imageName)).
  { unfold evaluateDetection, evaluateDetectionAt. cbn [recall].
    destruct (NumFacts.gtb_spec (lengthOf groundTruth) 0); [|lra].
    apply Qdiv_nonneg; [|assumption].
    apply inject_Z_nonneg, (truePositivesAt_nonneg Math_sqrt). }
  split.
  { unfold truePositivesAt.
    destruct (matchLoop_assignments Math_sqrt 0.5%float groundTruth detected
                initialMatchState) as [_ H].
    unfold matchLoop. rewrite H. reflexivity. }
  split.
  { intros ->. reflexivity. }
  split.
  { intros H. unfold evaluateDetection, evaluateDetectionAt. cbn [precision].
    rewrite (gtb_lengthOf_cons _ H). reflexivity. }
  split.
  { intros ->. unfold evaluateDetection, evaluateDetectionAt. cbn [recall].
    reflexivity. }
  split.
  { intros H. unfold evaluateDetection, evaluateDetectionAt. cbn [recall].
    rewrite (gtb_lengthOf_cons _ H). reflexivity. }
  split.
  { intros H. revert Hp Hr H.
    unfold evaluateDetection, evaluateDetectionAt. cbn [precision recall f1_score].
    intros Hp Hr H.
    match goal with
    | |- (if Num.gtb ?s 0 then _ else _) = 0 =>
        destruct (NumFacts.gtb_spec s 0) as [P|_]; [lra | reflexivity]
    end. }
  split.
  { revert Hp Hr.
    unfold evaluateDetection, evaluateDetectionAt. cbn [precision recall f1_score].
    intros Hp Hr H.
    match goal with
    | |- (if Num.gtb ?s 0 then _ else _) == _ =>
        destruct (NumFacts.gtb_spec s 0) as [P|N]; [|lra]
    end.
    field. lra. }
  repeat split.
Qed.

(** ** Scores without a match *)

Lemma f1Points_zero f : f == 0 -> f1Points f = 0%Z.
Proof.
  intros H. unfold f1Points.
  destruct (NumFacts.geb_spec f (9 # 10)); [lra|].
  destruct (NumFacts.geb_spec f (7 # 10)); [lra|].
  destruct (NumFacts.geb_spec f (5 # 10)); [lra|reflexivity].
Qed.

Lemma evaluateDetection_f1_zero Math_sqrt detected groundTruth imageName :
  truePositivesAt Math_sqrt 0.5 detected groundTruth = 0%Z ->
  f1_score (evaluateDetection Math_sqrt detected groundTruth imageName) == 0.
Proof.
  unfold truePositivesAt, evaluateDetection, evaluateDetectionAt. intros ->.
  cbn [f1_score].
  set (p := if Num.gtb (lengthOf detected) 0 then _ else _).
  set (r := if Num.gtb (lengthOf groundTruth) 0 then _ else _).
  assert (Hp : p == 0).
  { subst p. destruct (Num.gtb (lengthOf detected) 0); [|reflexivity].
    unfold Qdiv. apply Qmult_0_l. }
  destruct (Num.gtb (p + r) 0); [|reflexivity].
  unfold Qdiv. rewrite Hp. rewrite Qmult_0_l, Qmult_0_r, Qmult_0_l. reflexivity.
Qed.

Lemma calculateScore_passed evaluation detection :
  calculateScore evaluation detection
  = ((snd (calculateScore evaluation detection) >=? 60)%Z,
     snd (calculateScore evaluation detection)).
Proof. reflexivity. Qed.

(** C9.  When no detection is matched, [evaluateDetection] returns 0 for
    [average_iou], [center_point_accuracy], [area_accuracy] and
    [confidence_calibration]; [calculateScore] reads the 0 of
    [center_point_accuracy] as its best band, so the image scores the 15
    points of the centre plus the points of the processing time (10 at
    most) and nothing else. *)
Theorem unmatched_image_keeps_center_and_time_points
  (Math_sqrt : Q -> Q) (detected : list DetectedShape)
  (groundTruth : list GroundTruthShape) (imageName : string) :
  truePositivesAt Math_sqrt 0.5 detected groundTruth = 0%Z ->
  let m := evaluateDetection Math_sqrt detected groundTruth imageName in
  average_iou m = 0%float
  /\ center_point_accuracy m = 0
  /\ area_accuracy m = 0
  /\ confidence_calibration m = 0
  /\ centerPoints (center_point_accuracy m) = 15%Z
  /\ forall detection : DetectionResult,
       calculateScore (withProcessingTime m (processingTime detection)) detection
       = (false, (15 + timePoints (processingTime detection))%Z)
       /\ (15 <= snd (calculateScore (withProcessingTime m (processingTime detection))
                                    detection) <= 25)%Z
       /\ (processingTime detection <= 500 ->
           snd (calculateScore (withProcessingTime m (processingTime detection))
                               detection) = 25%Z).
Proof.
  intros Htp. cbn zeta.
  pose proof (evaluateDetection_f1_zero Math_sqrt detected groundTruth imageName Htp) as Hf1.
  assert (Hfields :
    average_iou (evaluateDetection Math_sqrt detected groundTruth imageName) = 0%float
    /\ center_point_accuracy (evaluateDetection Math_sqrt detected groundTruth imageName) = 0
    /\ area_accuracy (evaluateDetection Math_sqrt detected groundTruth imageName) = 0
    /\ confidence_calibration (evaluateDetection Math_sqrt detected groundTruth imageName) = 0).
  { unfold truePositivesAt in Htp.
    unfold evaluateDetection, evaluateDetectionAt. rewrite Htp.
    cbn. repeat split. }
  destruct Hfields as (Hiou & Hc & Ha & Hcal).
  assert (Hscore : forall detection : DetectionResult,
    snd (calculateScore
           (withProcessingTime (evaluateDetection Math_sqrt detected groundTruth imageName)
                               (processingTime detection)) detection)
    = (15 + timePoints (processingTime detection))%Z).
  { intros detection. unfold calculateScore, withProcessingTime.
    cbn [f1_score average_iou center_point_accuracy area_accuracy snd].
    rewrite Hiou, Hc, Ha, (f1Points_zero _ Hf1). reflexivity. }
  assert (Ht : forall t, (0 <= timePoints t <= 10)%Z).
  { intros t. unfold timePoints.
    destruct (Num.leb t 500); [lia|].
    destruct (Num.leb t 1000); [lia|].
    destruct (Num.leb t 2000); lia. }
  split; [assumption|]. split; [assumption|]. split; [assumption|].
  split; [assumption|]. split; [rewrite Hc; reflexivity|].
  intros detection. specialize (Hscore detection). specialize (Ht (processingTime detection)).
  split; [|split].
  - rewrite calculateScore_passed, Hscore. f_equal.
    rewrite Z.geb_leb. apply Z.leb_gt. lia.
  - rewrite Hscore. lia.
  - intros Hfast. rewrite Hscore. unfold timePoints.
    destruct (NumFacts.leb_spec (processingTime detection) 500); [reflexivity|contradiction].
Qed.

Lemma unmatched_image_keeps_center_and_time_points_witness :
  truePositivesAt (fun q => q) 0.5 [] [circleTruth] = 0%Z
  /\ center_point_accuracy (evaluateDetection (fun q => q) [] [circleTruth] "image") = 0
  /\ centerPoints
       (center_point_accuracy (evaluateDetection (fun q => q) [] [circleTruth] "image"))
     = 15%Z.
Proof.
  split; [reflexivity|].
  destruct (unmatched_image_keeps_center_and_time_points
              (fun q => q) [] [circleTruth] "image" eq_refl)
    as (_ & Hc & _ & _ & Hp & _).
  split; assumption.
Defined.

(** ** The batch *)

Section BatchFacts.

Variable Math_sqrt : Q -> Q.

Lemma batchStep_spec st run :
  let st' := batchStep Math_sqrt st run in
  acc_totalScore st' = (acc_totalScore st + scoreOfRun Math_sqrt run)%Z
  /\ exists tr, acc_testResults st' = acc_testResults st ++ [tr]
                /\ passedAsScored Math_sqrt run tr.
Proof.
  cbn zeta. unfold passedAsScored, batchStep, scoreOfRun.
  destruct (run_detection run) as [d| |].
  - rewrite (calculateScore_passed (evaluateRun Math_sqrt run d) d).
    cbn. split; [reflexivity|]. eexists. split; reflexivity.
  - cbn. split; [lia|]. eexists. split; reflexivity.
  - cbn. split; [lia|]. eexists. split; reflexivity.
Qed.

Lemma batchLoop_spec runs :
  forall st,
    let st' := fold_left (batchStep Math_sqrt) runs st in
    acc_totalScore st' = (acc_totalScore st + sumOfScores Math_sqrt runs)%Z
    /\ exists trs, acc_testResults st' = acc_testResults st ++ trs
                   /\ Forall2 (passedAsScored Math_sqrt) runs trs.
Proof.
  induction runs as [|run rest IH]; intros st; cbn zeta.
  - cbn. split; [lia|]. exists []. split; [now rewrite app_nil_r | constructor].
  - cbn [fold_left sumOfScores fold_right].
    destruct (batchStep_spec st run) as (Hs & tr & Hr & Hp).
    destruct (IH (batchStep Math_sqrt st run)) as (Hs' & trs & Hr' & Hps).
    split.
    + rewrite Hs', Hs. unfold sumOfScores. lia.
    + exists (tr :: trs). split.
      * rewrite Hr', Hr, <- app_assoc. reflexivity.
      * constructor; assumption.
Qed.

End BatchFacts.

Lemma inject_Z_nonzero z : z <> 0%Z -> ~ inject_Z z == 0.
Proof. intros H E. apply H. unfold Qeq in E. cbn in E. lia. Qed.

Lemma round_inject_Z z : Num.round (inject_Z z) = z.
Proof.
  unfold Num.round, Qfloor. cbn.
  replace (z * 2 + 1)%Z with (1 + z * 2)%Z by lia.
  rewrite Z.div_add by lia. reflexivity.
Qed.

Lemma jsDiv_nonzero a b : ~ b == 0 -> Num.jsDiv a b = Some (a / b).
Proof.
  intros H. unfold Num.jsDiv.
  destruct (NumFacts.is_zero_spec b); [contradiction | reflexivity].
Qed.

(** [Math.round] moves a number by at most a half. *)
Lemma round_near a :
  a - (1 # 2) < inject_Z (Num.round a) /\ inject_Z (Num.round a) <= a + (1 # 2).
Proof.
  unfold Num.round.
  pose proof (Qfloor_le (a + (1 # 2))) as Hle.
  pose proof (Qlt_floor (a + (1 # 2))) as Hlt.
  rewrite inject_Z_plus in Hlt. change (inject_Z 1) with 1 in Hlt.
  split; lra.
Qed.

(** C7.  For a batch of N images whose scores sum to S: an image passes iff
    its score is at least 60; for N >= 1 the batch percentage is S / (100 * N)
    expressed in percent, the number 100 * S / (100 * N), and the grade is
    read off it: A from 90, B from 80, C from 70, D from 60, and F below.  The
    [percentage] field of the result is this percentage rounded to two
    decimals: it lies within a hundredth of it.  For the empty batch the
    percentage is NaN and the grade F. *)
Theorem batch_percentage_and_grade (Math_sqrt : Q -> Q) (runs : list ImageRun) :
  let r := runEvaluation Math_sqrt runs in
  let S := inject_Z (sumOfScores Math_sqrt runs) in
  let N := lengthOf runs in
  let decisive := batchPercentage (fold_left (batchStep Math_sqrt) runs initialBatchState) in
  Forall2 (passedAsScored Math_sqrt) runs (testResults r)
  /\ totalScore r = sumOfScores Math_sqrt runs
  /\ maxScore r = (100 * Z.of_nat (length runs))%Z
  /\ grade r = calculateGrade decisive
  /\ (runs = [] -> decisive = None /\ percentage r = None /\ grade r = "F"%string)
  /\ (runs <> [] ->
      exists p reported,
        decisive = Some p
        /\ p == 100 * (S / (100 * N))
        /\ percentage r = Some reported
        /\ p - (1 # 100) < reported < p + (1 # 100)
        /\ (90 <= p -> grade r = "A"%string)
        /\ (80 <= p < 90 -> grade r = "B"%string)
        /\ (70 <= p < 80 -> grade r = "C"%string)
        /\ (60 <= p < 70 -> grade r = "D"%string)
        /\ (p < 60 -> grade r = "F"%string)).
Proof.
  cbn zeta.
  destruct (batchLoop_spec Math_sqrt runs initialBatchState) as (Hs & trs & Hr & Hp).
  cbn in Hs, Hr.
  pose proof (Forall2_length Hp) as Hlen.
  unfold runEvaluation, finishBatch.
  cbn [testResults totalScore maxScore grade percentage].
  rewrite Hr, Hs, <- Hlen.
  split; [assumption|].
  split; [apply round_inject_Z|].
  split; [lia|].
  split; [reflexivity|].
  split.
  { intros ->. repeat split; reflexivity. }
  intros Hne.
  assert (HN : (0 < Z.of_nat (length runs))%Z) by (destruct runs; [contradiction | cbn; lia]).
  unfold batchPercentage. rewrite Hr, Hs, <- Hlen.
  rewrite jsDiv_nonzero by (apply inject_Z_nonzero; lia).
  cbn [option_map].
  eexists. eexists. split; [reflexivity|].
  split.
  { unfold lengthOf. rewrite inject_Z_mult. field.
    apply inject_Z_nonzero. lia. }
  split; [reflexivity|].
  set (p := inject_Z (sumOfScores Math_sqrt runs)
            / inject_Z (Z.of_nat (length runs) * 100) * 100).
  split.
  { destruct (round_near (p * 100)) as [Hlo Hhi].
    set (k := inject_Z (Num.round (p * 100))) in *.
    assert (E : k / 100 == k * (1 # 100)) by (field).
    rewrite E. split; lra. }
  unfold calculateGrade.
  repeat split; intros H;
    destruct (NumFacts.geb_spec p 90); try lra; try reflexivity;
    destruct (NumFacts.geb_spec p 80); try lra; try reflexivity;
    destruct (NumFacts.geb_spec p 70); try lra; try reflexivity;
    destruct (NumFacts.geb_spec p 60); try lra; try reflexivity.
Qed.

Lemma batch_percentage_and_grade_witness :
  totalScore (runEvaluation (fun q => q) [circleRun])
  = sumOfScores (fun q => q) [circleRun]
  /\ Forall2 (passedAsScored (fun q => q)) [circleRun]
             (testResults (runEvaluation (fun q => q) [circleRun])).
Proof.
  destruct (batch_percentage_and_grade (fun q => q) [circleRun]) as (Hp & Hs & _).
  split; assumption.
Defined.

(** One image with 100 points and two that threw: the percentage is 100/3,
    reported as 33.33, and the grade F. *)
Example rounded_percentage :
  let runs := [circleRun; brokenRun; brokenRun] in
  let r := runEvaluation (fun q => q) runs in
  totalScore r = 100%Z /\ maxScore r = 300%Z
  /\ (exists p,
        batchPercentage (fold_left (batchStep (fun q => q)) runs initialBatchState)
        = Some p /\ p == 100 # 3)
  /\ (exists reported, percentage r = Some reported /\ reported == 3333 # 100)
  /\ grade r = "F"%string.
Proof.
  cbv zeta. split; [reflexivity|]. split; [reflexivity|].
  split; [eexists; split; [vm_compute; reflexivity | reflexivity]|].
  split; [eexists; split; [vm_compute; reflexivity | reflexivity]|].
  reflexivity.
Qed.

(** ** Typed arrays *)

Module TypedArrayFacts.
Import TypedArray.

Lemma get_range a i v : get a i = Some v -> (0 <= i)%Z /\ (Z.to_nat i < length a)%nat.
Proof.
  unfold get. destruct (Z.ltb_spec i 0) as [Hneg|Hpos]; [discriminate|].
  intros H. split; [assumption|]. apply nth_error_Some. congruence.
Qed.

Lemma update_length a : forall i v, length (update a i v) = length a.
Proof.
  induction a as [|h a IH]; intros [|i] v; cbn; try reflexivity. now rewrite IH.
Qed.

Lemma set_length a i v : length (set a i v) = length a.
Proof. unfold set. destruct (i <? 0)%Z; [reflexivity | apply update_length]. Qed.

Lemma nth_error_update_same a : forall i v,
  (i < length a)%nat -> nth_error (update a i v) i = Some v.
Proof.
  induction a as [|h a IH]; intros [|i] v H; cbn in *; try lia; try reflexivity.
  apply IH. lia.
Qed.

Lemma nth_error_update_other a : forall i j v,
  i <> j -> nth_error (update a i v) j = nth_error a j.
Proof.
  induction a as [|h a IH]; intros [|i] [|j] v H; cbn; try reflexivity; try congruence.
  apply IH. congruence.
Qed.

Lemma get_set_same a i v :
  (0 <= i)%Z -> (Z.to_nat i < length a)%nat -> get (set a i v) i = Some v.
Proof.
  intros H0 H1. unfold get, set.
  destruct (Z.ltb_spec i 0); [lia|]. now apply nth_error_update_same.
Qed.

Lemma get_set_other a i j v : i <> j -> get (set a i v) j = get a j.
Proof.
  intros H. unfold get, set.
  destruct (Z.ltb_spec j 0); [reflexivity|].
  destruct (Z.ltb_spec i 0); [reflexivity|].
  apply nth_error_update_other. lia.
Qed.

Lemma equals_range a i v :
  equals a i v = true -> (0 <= i)%Z /\ (Z.to_nat i < length a)%nat.
Proof.
  unfold equals. destruct (get a i) as [w|] eqn:E; [|discriminate].
  intros _. eapply get_range; eassumption.
Qed.

(** A flag that is set stays set when another one is set. *)
Lemma truthy_set a i j : truthy a j = true -> truthy (set a i 1) j = true.
Proof.
  intros H. destruct (Z.eq_dec i j) as [->|N].
  - unfold truthy in *. destruct (get a j) as [w|] eqn:E; [|discriminate].
    destruct (get_range _ _ _ E) as [H0 H1].
    now rewrite (get_set_same _ _ 1%Z H0 H1).
  - unfold truthy in *. now rewrite (get_set_other _ _ _ _ N).
Qed.

Lemma truthy_set_same a i :
  (0 <= i)%Z -> (Z.to_nat i < length a)%nat -> truthy (set a i 1) i = true.
Proof. intros H0 H1. unfold truthy. now rewrite (get_set_same _ _ _ H0 H1). Qed.

Lemma unset_update a : forall i,
  nth_error a i = Some 0%Z -> S (unset (update a i 1)) = unset a.
Proof.
  unfold unset. induction a as [|h a IH]; intros [|i] H; cbn in *; try discriminate.
  - injection H as ->. reflexivity.
  - destruct (h =? 0)%Z; cbn; rewrite <- (IH i H); reflexivity.
Qed.

(** Setting a flag that was not set leaves one flag less to set. *)
Lemma unset_set a i :
  (0 <= i)%Z -> (Z.to_nat i < length a)%nat -> truthy a i = false ->
  S (unset (set a i 1)) = unset a.
Proof.
  intros H0 H1 Ht. unfold set. destruct (Z.ltb_spec i 0); [lia|].
  apply unset_update. unfold truthy, get in Ht.
  destruct (Z.ltb_spec i 0); [lia|].
  destruct (nth_error a (Z.to_nat i)) as [w|] eqn:E.
  - destruct (Z.eqb_spec w 0); [congruence | discriminate].
  - apply nth_error_None in E. lia.
Qed.

(** Once a flag is set, fewer flags than elements are left to set. *)
Lemma unset_after_set a i :
  (0 <= i)%Z -> (Z.to_nat i < length a)%nat -> (unset (set a i 1) < length a)%nat.
Proof.
  intros H0 H1. unfold set. destruct (Z.ltb_spec i 0) as [Hneg|Hpos]; [lia|].
  remember (Z.to_nat i) as n eqn:En. clear En H0 Hpos i.
  revert n H1. unfold unset.
  induction a as [|h a IH]; intros [|n] H1; cbn in *; try lia.
  - pose proof (filter_length_le (fun v => (v =? 0)%Z) a). lia.
  - assert (n < length a)%nat as Hn by lia. specialize (IH n Hn).
    destruct (h =? 0)%Z; cbn; lia.
Qed.

End TypedArrayFacts.

(** ** The flood fill *)

Section FloodFacts.

Import TypedArrayFacts.

Variables (width height : Z) (binary : list Z).

Lemma floodInv_perm done done' st :
  Permutation done done' -> floodInv width binary done st -> floodInv width binary done' st.
Proof.
  intros Hp [Hl Hn Hm]. split.
  - assumption.
  - eapply Permutation_NoDup; [|eassumption]. now apply Permutation_app_head.
  - intros p Hin. apply Hm.
    eapply Permutation_in; [|eassumption].
    apply Permutation_app_head. now apply Permutation_sym.
Qed.

Lemma visitNeighbor_inv done c st d :
  floodInv width binary done st ->
  floodInv width binary done (visitNeighbor width height binary c st d)
  /\ floodMeasure (visitNeighbor width height binary c st d) = floodMeasure st.
Proof.
  intros Hinv. destruct st as [visited q]. unfold visitNeighbor.
  destruct (outOfBounds width height (fst c + fst d) (snd c + snd d));
    [split; [assumption | reflexivity]|].
  set (nx := (fst c + fst d)%Z). set (ny := (snd c + snd d)%Z).
  destruct (TypedArray.equals binary (index width nx ny) 1) eqn:Hb;
    [|split; [assumption | reflexivity]].
  destruct (TypedArray.truthy visited (index width nx ny)) eqn:Hv;
    [split; [assumption | reflexivity]|].
  cbn [andb negb].
  destruct Hinv as [Hl Hn Hm]. cbn [fst snd] in *.
  destruct (equals_range _ _ _ Hb) as [H0 H1]. rewrite <- Hl in H1.
  split.
  - split; cbn [fst snd].
    + now rewrite set_length.
    + cbn [app]. constructor; [|assumption].
      intros Hin. specialize (Hm _ Hin). unfold indexOf in Hm. cbn [fst snd] in Hm.
      congruence.
    + intros p [<-|Hin].
      * unfold indexOf. cbn [fst snd]. now apply truthy_set_same.
      * apply truthy_set. now apply Hm.
  - unfold floodMeasure. cbn [fst snd length].
    rewrite <- (unset_set visited (index width nx ny) H0 H1 Hv). lia.
Qed.

Lemma visitNeighbors_inv done c ds :
  forall st,
    floodInv width binary done st ->
    floodInv width binary done (fold_left (visitNeighbor width height binary c) ds st)
    /\ floodMeasure (fold_left (visitNeighbor width height binary c) ds st)
       = floodMeasure st.
Proof.
  induction ds as [|d ds IH]; intros st Hinv; cbn [fold_left].
  - split; [assumption | reflexivity].
  - destruct (visitNeighbor_inv done c st d Hinv) as [Hinv' Hm].
    destruct (IH _ Hinv') as [Hinv'' Hm'].
    split; [assumption | congruence].
Qed.

(** With fuel above the measure the loop returns, and what it returns
    satisfies the invariant with an empty stack. *)
Lemma floodLoop_spec :
  forall fuel q visited pixels,
    floodInv width binary pixels (visited, q) ->
    (floodMeasure (visited, q) < fuel)%nat ->
    exists visited' pixels',
      floodLoop width height binary fuel q visited pixels = Returned (visited', pixels')
      /\ length visited' = length binary
      /\ NoDup pixels'.
Proof.
  induction fuel as [|fuel IH]; intros q visited pixels Hinv Hfuel; [lia|].
  destruct q as [|c q'].
  - exists visited, pixels. cbn. destruct Hinv as [Hl Hn _]. cbn in *. auto.
  - cbn [floodLoop].
    assert (Hinv0 : floodInv width binary (c :: pixels) (visited, q')).
    { destruct Hinv as [Hl Hn Hm]. cbn [fst snd] in *. split; cbn [fst snd].
      - assumption.
      - eapply Permutation_NoDup; [|exact Hn]. cbn [app]. apply Permutation_middle.
      - intros p Hin. apply Hm. eapply Permutation_in; [|exact Hin].
        apply Permutation_sym. cbn [app]. apply Permutation_middle. }
    destruct (visitNeighbors_inv (c :: pixels) c dirs _ Hinv0) as [Hinv1 Hmeasure].
    destruct (fold_left (visitNeighbor width height binary c) dirs (visited, q'))
      as [visited' q''] eqn:E.
    apply IH.
    + eapply floodInv_perm; [|exact Hinv1]. apply Permutation_cons_append.
    + unfold floodMeasure in *. cbn [fst snd length] in *. lia.
Qed.

(** The flood fill from a pixel whose flag lies inside [visited] returns a
    region without repeated pixels. *)
Lemma floodFill_returns visited x y :
  length visited = length binary ->
  (0 <= index width x y)%Z -> (Z.to_nat (index width x y) < length visited)%nat ->
  exists visited' pixels,
    floodFill width height binary visited x y = Returned (visited', pixels)
    /\ length visited' = length binary
    /\ NoDup pixels.
Proof.
  intros Hl H0 H1. unfold floodFill. apply floodLoop_spec.
  - split; cbn [fst snd app].
    + now rewrite set_length.
    + repeat constructor. intros [].
    + intros p [<-|[]]. unfold indexOf. cbn [fst snd]. now apply truthy_set_same.
  - unfold floodMeasure. cbn [fst snd length].
    pose proof (unset_after_set visited (index width x y) H0 H1). lia.
Qed.

End FloodFacts.

(** ** The scan *)

Lemma index_range width height x y :
  insideImage width height (x, y) ->
  (0 <= index width x y)%Z
  /\ (Z.to_nat (index width x y) < Z.to_nat (width * height))%nat.
Proof.
  unfold insideImage, index. cbn [fst snd]. intros [Hx Hy].
  assert (0 <= y * width + x < width * height)%Z by nia.
  split; [lia|]. apply Z2Nat.inj_lt; lia.
Qed.

Lemma upto_range n i : In i (upto n) -> (0 <= i < n)%Z.
Proof.
  unfold upto. rewrite in_map_iff. intros (k & <- & Hk).
  apply in_seq in Hk. lia.
Qed.

Lemma scanOrder_inside width height :
  Forall (insideImage width height) (scanOrder width height).
Proof.
  apply Forall_forall. intros [x y] Hin.
  unfold scanOrder in Hin. apply in_flat_map in Hin.
  destruct Hin as (y' & Hy & Hin). apply in_map_iff in Hin.
  destruct Hin as (x' & [= <- <-] & Hx).
  split; cbn; now apply upto_range.
Qed.


(** The values kept by a handler come from the regions it was given. *)
Lemma filterMap_In {A B} (f : A -> outcome (option B)) l :
  forall kept b,
    filterMap f l = Returned kept -> In b kept ->
    exists a, In a l /\ f a = Returned (Some b).
Proof.
  induction l as [|a l IH]; cbn [filterMap]; intros kept b.
  - intros [= <-] [].
  - destruct (f a) as [o| |] eqn:Ea; cbn [bind]; try discriminate.
    destruct (filterMap f l) as [bs| |] eqn:El; cbn [bind]; try discriminate.
    intros [= <-] Hin.
    destruct o as [b0|].
    + destruct Hin as [<- | Hin].
      * exists a. split; [now left | assumption].
      * destruct (IH bs b eq_refl Hin) as (a' & Ha' & Hf). exists a'. split; [now right | assumption].
    + destruct (IH bs b eq_refl Hin) as (a' & Ha' & Hf). exists a'. split; [now right | assumption].
Qed.




(** The scan fills the same regions whatever its handler does with them, and
    hands them to it one after the other: its result is that of the handler
    run over the regions in the order they are filled, up to the first one
    on which it throws.  The regions have no repeated pixel. *)
Lemma scanLoop_regions {A : Type} width height binary
  (handle : list Pixel -> outcome (option A)) :
  length binary = Z.to_nat (width * height) ->
  forall coords visited,
    Forall (insideImage width height) coords ->
    length visited = length binary ->
    exists regions,
      Forall (@NoDup Pixel) regions
      /\ (forall acc,
            scanLoop width height binary (fun pixels => Returned (Some pixels))
                     coords visited acc
            = Returned (acc ++ regions))
      /\ (forall acc,
            scanLoop width height binary handle coords visited acc
            = bind (filterMap handle regions) (fun kept => Returned (acc ++ kept))).
Proof.
  intros Hbin.
  induction coords as [|[x y] rest IH]; intros visited Hin Hlen.
  - exists []. split; [constructor|]. split; intros acc; cbn; now rewrite app_nil_r.
  - inversion Hin as [|? ? Hxy Hrest]; subst. cbn [scanLoop].
    destruct (TypedArray.equals binary (index width x y) 0
              || TypedArray.truthy visited (index width x y)).
    + now apply IH.
    + destruct (index_range width height x y Hxy) as [H0 H1].
      rewrite <- Hbin, <- Hlen in H1.
      destruct (floodFill_returns width height binary visited x y Hlen H0 H1)
        as (visited' & pixels & -> & Hlen' & Hnd).
      destruct (IH visited' Hrest Hlen') as (regions & Hall & Hid & Hh).
      exists (pixels :: regions).
      split; [constructor; assumption|]. split; intros acc.
      * rewrite Hid, <- app_assoc. reflexivity.
      * cbn [filterMap]. destruct (handle pixels) as [[a|]| |]; cbn [bind];
          try reflexivity; rewrite Hh;
          destruct (filterMap handle regions); cbn [bind]; try reflexivity.
        now rewrite <- app_assoc.
Qed.

Lemma grayscale_length n data : length (grayscale n data) = n.
Proof.
  unfold grayscale. rewrite length_firstn, length_app, repeat_length. lia.
Qed.

Lemma binarize_length gray : length (binarize gray) = length gray.
Proof.
  unfold binarize. destruct (countPolarity _ gray). apply length_map.
Qed.

Lemma create_returns n :
  (0 <= n)%Z -> TypedArray.create n = Returned (repeat 0%Z (Z.to_nat n)).
Proof.
  intros H. unfold TypedArray.create. destruct (Z.ltb_spec n 0); [lia | reflexivity].
Qed.

(** ** Bounding boxes *)

Lemma fold_min_le xs : forall a,
  (fold_left Z.min xs a <= a)%Z
  /\ forall x, In x xs -> (fold_left Z.min xs a <= x)%Z.
Proof.
  induction xs as [|h xs IH]; intros a; cbn [fold_left].
  - split; [lia | intros x []].
  - destruct (IH (Z.min a h)) as [H1 H2]. split; [lia|].
    intros x [<-|Hin]; [lia | now apply H2].
Qed.

Lemma fold_max_ge xs : forall a,
  (a <= fold_left Z.max xs a)%Z
  /\ forall x, In x xs -> (x <= fold_left Z.max xs a)%Z.
Proof.
  induction xs as [|h xs IH]; intros a; cbn [fold_left].
  - split; [lia | intros x []].
  - destruct (IH (Z.max a h)) as [H1 H2]. split; [lia|].
    intros x [<-|Hin]; [lia | now apply H2].
Qed.

Lemma leastOf_le xs x : In x xs -> (leastOf xs <= x)%Z.
Proof.
  destruct xs as [|a xs]; [intros []|]. cbn [leastOf].
  destruct (fold_min_le xs a) as [H1 H2]. intros [<-|Hin]; [assumption | now apply H2].
Qed.

Lemma greatestOf_ge xs x : In x xs -> (x <= greatestOf xs)%Z.
Proof.
  destruct xs as [|a xs]; [intros []|]. cbn [greatestOf].
  destruct (fold_max_ge xs a) as [H1 H2]. intros [<-|Hin]; [assumption | now apply H2].
Qed.

(** Distinct integers between [a] and [b]: at most [b - a + 1] of them. *)
Lemma NoDup_range_length (l : list Z) a b :
  NoDup l -> (forall x, In x l -> (a <= x <= b)%Z) ->
  (Z.of_nat (length l) <= Z.max 0 (b - a + 1))%Z.
Proof.
  intros Hnd Hr.
  destruct l as [|x0 l0] eqn:El; [cbn; lia|]. rewrite <- El in *.
  assert (Hab : (a <= b)%Z) by (specialize (Hr x0); rewrite El in Hr; cbn in Hr; lia).
  assert (Hmap : NoDup (map (fun x => Z.to_nat (x - a)) l)).
  { clear El. induction Hnd as [|x l Hx Hnd IH]; cbn; constructor.
    - rewrite in_map_iff. intros (y & Hy & Hin).
      assert (x = y).
      { pose proof (Hr x (or_introl eq_refl)). pose proof (Hr y (or_intror Hin)). lia. }
      subst. contradiction.
    - apply IH. intros y Hy. apply Hr. now right. }
  assert (Hincl : incl (map (fun x => Z.to_nat (x - a)) l) (seq 0 (Z.to_nat (b - a + 1)))).
  { intros n Hn. apply in_map_iff in Hn. destruct Hn as (x & <- & Hin).
    apply in_seq. specialize (Hr x Hin). lia. }
  pose proof (NoDup_incl_length Hmap Hincl) as Hlen.
  rewrite length_map, length_seq in Hlen. lia.
Qed.

(** Pixels without repetition that share one coordinate differ in the
    other. *)
Lemma NoDup_row (pixels : list Pixel) y0 :
  NoDup pixels -> (forall p, In p pixels -> snd p = y0) -> NoDup (map fst pixels).
Proof.
  intros Hnd Hy. induction Hnd as [|p l Hp Hnd IH]; cbn; constructor.
  - rewrite in_map_iff. intros (q & Hq & Hin). apply Hp.
    assert (p = q); [|now subst].
    destruct p as [px py], q as [qx qy]. cbn in Hq.
    pose proof (Hy (px, py) (or_introl eq_refl)) as E1.
    pose proof (Hy (qx, qy) (or_intror Hin)) as E2.
    cbn in E1, E2. congruence.
  - apply IH. intros q Hq. apply Hy. now right.
Qed.

Lemma NoDup_column (pixels : list Pixel) x0 :
  NoDup pixels -> (forall p, In p pixels -> fst p = x0) -> NoDup (map snd pixels).
Proof.
  intros Hnd Hx. induction Hnd as [|p l Hp Hnd IH]; cbn; constructor.
  - rewrite in_map_iff. intros (q & Hq & Hin). apply Hp.
    assert (p = q); [|now subst].
    destruct p as [px py], q as [qx qy]. cbn in Hq.
    pose proof (Hx (px, py) (or_introl eq_refl)) as E1.
    pose proof (Hx (qx, qy) (or_intror Hin)) as E2.
    cbn in E1, E2. congruence.
  - apply IH. intros q Hq. apply Hx. now right.
Qed.

(** A region of distinct pixels whose bounding box has no height lies in one
    row: it has at most [width + 1] pixels; likewise for a box of no
    width. *)
Lemma flat_region_area (pixels : list Pixel) :
  NoDup pixels ->
  let w := (greatestOf (map fst pixels) - leastOf (map fst pixels))%Z in
  let h := (greatestOf (map snd pixels) - leastOf (map snd pixels))%Z in
  (h <= 0 -> Z.of_nat (length pixels) <= w + 1)%Z
  /\ (w <= 0 -> Z.of_nat (length pixels) <= h + 1)%Z.
Proof.
  intros Hnd. cbn zeta.
  assert (Hx : (leastOf (map fst pixels) <= greatestOf (map fst pixels))%Z).
  { destruct pixels as [|p ps]; [cbn; lia|].
    pose proof (leastOf_le (map fst (p :: ps)) (fst p) (or_introl eq_refl)).
    pose proof (greatestOf_ge (map fst (p :: ps)) (fst p) (or_introl eq_refl)). lia. }
  assert (Hy : (leastOf (map snd pixels) <= greatestOf (map snd pixels))%Z).
  { destruct pixels as [|p ps]; [cbn; lia|].
    pose proof (leastOf_le (map snd (p :: ps)) (snd p) (or_introl eq_refl)).
    pose proof (greatestOf_ge (map snd (p :: ps)) (snd p) (or_introl eq_refl)). lia. }
  split; intros Hflat.
  - replace (length pixels) with (length (map fst pixels)) by apply length_map.
    match goal with |- (_ <= ?w + 1)%Z => rewrite <- (Z.max_r 0 (w + 1)) by lia end.
    apply NoDup_range_length.
    + apply (NoDup_row pixels (leastOf (map snd pixels)) Hnd).
      intros p Hp.
      pose proof (leastOf_le (map snd pixels) (snd p) (in_map snd _ _ Hp)).
      pose proof (greatestOf_ge (map snd pixels) (snd p) (in_map snd _ _ Hp)). lia.
    + intros x Hin. split; [now apply leastOf_le | now apply greatestOf_ge].
  - replace (length pixels) with (length (map snd pixels)) by apply length_map.
    match goal with |- (_ <= ?h + 1)%Z => rewrite <- (Z.max_r 0 (h + 1)) by lia end.
    apply NoDup_range_length.
    + apply (NoDup_column pixels (leastOf (map fst pixels)) Hnd).
      intros p Hp.
      pose proof (leastOf_le (map fst pixels) (fst p) (in_map fst _ _ Hp)).
      pose proof (greatestOf_ge (map fst pixels) (fst p) (in_map fst _ _ Hp)). lia.
    + intros x Hin. split; [now apply leastOf_le | now apply greatestOf_ge].
Qed.

(** ** The gates and the classifier *)

Lemma aspectRatio_flat a b :
  (Z.min a b <= 0)%Z -> (5 <= Z.max a b)%Z ->
  Num.gtb (inject_Z (Z.max a b) / inject_Z (Z.max 1 (Z.min a b))) 4 = true.
Proof.
  intros Hmin Hmax. rewrite (Z.max_l 1 (Z.min a b)) by lia.
  apply NumFacts.ltb_true.
  unfold Qlt, Qdiv, Qmult, Qinv, inject_Z. cbn. lia.
Qed.

(** The four calls of STEP 4 throw together, when the region has more
    pixels than a call takes arguments. *)
Lemma extremes_spec maxArguments (pixels : list Pixel) :
  extremes maxArguments pixels
  = if (maxArguments <? Z.of_nat (length pixels))%Z then Thrown "RangeError"
    else Returned (leastOf (map fst pixels), greatestOf (map fst pixels),
                   leastOf (map snd pixels), greatestOf (map snd pixels)).
Proof.
  unfold extremes, minOf, maxOf, Pixel in *. rewrite !length_map.
  destruct (maxArguments <? Z.of_nat (length pixels))%Z; reflexivity.
Qed.

Section RegionFacts.

Variables (Math_sqrt Math_acos : Q -> Q) (maxArguments : Z).
Variables (width height : Z) (binary : list Z).

Let featuresOf := features Math_sqrt Math_acos width height binary.

Lemma rejected_false (f : ShapeFeatures) :
  rejected f = false ->
  (300 <= sf_area f)%Z
  /\ Num.ltb (sf_fillRatio f) (2 # 10) = false
  /\ Num.gtb (sf_aspectRatio f) 4 = false
  /\ Num.gtb (sf_thinness f) (5 # 10) = false.
Proof.
  unfold rejected. intros H.
  apply orb_false_elim in H. destruct H as [H Ht].
  apply orb_false_elim in H. destruct H as [H Ha].
  apply orb_false_elim in H. destruct H as [H Hf].
  apply Z.ltb_ge in H. auto.
Qed.

(** A region of distinct pixels that passes the gates has a bounding box
    with [width >= 1] and [height >= 1]: a region of one row or one column
    with 300 pixels has an aspect ratio above 4. *)
Lemma gated_region_sides (pixels : list Pixel) :
  NoDup pixels ->
  rejected (featuresOf pixels) = false ->
  (1 <= sf_width (featuresOf pixels))%Z /\ (1 <= sf_height (featuresOf pixels))%Z.
Proof.
  intros Hnd Hrej.
  destruct (rejected_false _ Hrej) as (Harea & _ & Haspect & _).
  destruct (flat_region_area pixels Hnd) as [Hrow Hcol].
  unfold featuresOf, features, measure in *.
  cbn [sf_area sf_width sf_height sf_aspectRatio] in *.
  set (w := (greatestOf (map fst pixels) - leastOf (map fst pixels))%Z) in *.
  set (h := (greatestOf (map snd pixels) - leastOf (map snd pixels))%Z) in *.
  destruct (Z_lt_le_dec w 1) as [Hw|Hw]; destruct (Z_lt_le_dec h 1) as [Hh|Hh];
    try (split; assumption);
    exfalso;
    try (assert (Z.of_nat (length pixels) <= h + 1)%Z by (apply Hcol; lia));
    try (assert (Z.of_nat (length pixels) <= w + 1)%Z by (apply Hrow; lia));
    rewrite aspectRatio_flat in Haspect by lia; discriminate.
Qed.

(** The body of the scan in terms of the size of the region. *)
Lemma processRegion_spec (pixels : list Pixel) :
  processRegion Math_sqrt Math_acos maxArguments width height binary pixels
  = if (length pixels <? 40)%nat then Returned None
    else if (maxArguments <? Z.of_nat (length pixels))%Z then Thrown "RangeError"
    else Returned (if rejected (featuresOf pixels) then None
                   else Some (shapeOf (featuresOf pixels))).
Proof.
  unfold processRegion. rewrite extremes_spec.
  destruct (length pixels <? 40)%nat; [reflexivity|].
  destruct (maxArguments <? Z.of_nat (length pixels))%Z; reflexivity.
Qed.

(** What the classifier gives to a region that is not dropped. *)
Lemma processRegion_shape (pixels : list Pixel) (s : DetectedShape) :
  processRegion Math_sqrt Math_acos maxArguments width height binary pixels
  = Returned (Some s) ->
  let f := featuresOf pixels in
  rejected f = false
  /\ s = shapeOf f
  /\ ds_area s = inject_Z (sf_area f)
  /\ box_width (ds_boundingBox s) = inject_Z (sf_width f)
  /\ box_height (ds_boundingBox s) = inject_Z (sf_height f).
Proof.
  rewrite processRegion_spec. cbn zeta.
  destruct (length pixels <? 40)%nat; [discriminate|].
  destruct (maxArguments <? Z.of_nat (length pixels))%Z; [discriminate|].
  destruct (rejected (featuresOf pixels)) eqn:Hrej; [discriminate|].
  intros [= <-]. unfold shapeOf. destruct (classify (featuresOf pixels)).
  cbn. auto.
Qed.



Lemma classify_confidence (f : ShapeFeatures) :
  let '(type, confidence) := classify f in
  75 # 100 < confidence
  /\ (type = circle -> confidence = sf_circularity f)
  /\ (type <> circle ->
      confidence = 9 # 10 \/ confidence = 85 # 100 \/ confidence = 8 # 10).
Proof.
  unfold classify.
  destruct (NumFacts.gtb_spec (sf_circularity f) (75 # 100)).
  { repeat split; try assumption; congruence. }
  destruct (sf_corners f <=? 4)%Z.
  { repeat split; try lra; try discriminate; auto. }
  destruct (sf_corners f <=? 6)%Z.
  { repeat split; try lra; try discriminate; auto. }
  destruct (ratioBelow f && Num.ltb (sf_circularity f) (4 # 10)).
  { repeat split; try lra; try discriminate; auto. }
  repeat split; try lra; try discriminate; auto.
Qed.

End RegionFacts.

(** ** [detectShapes] *)

Section DetectorFacts.

Variables (Math_sqrt Math_acos : Q -> Q) (maxArguments : Z) (startTime endTime : Q).
Variable imageData : ImageData.

Let width := img_width imageData.
Let height := img_height imageData.
Let binary := maskOf imageData.
Let detect := detectShapes Math_sqrt Math_acos maxArguments startTime endTime imageData.
Let handle := processRegion Math_sqrt Math_acos maxArguments width height binary.

Lemma maskOf_length : length binary = Z.to_nat (width * height).
Proof.
  unfold binary, maskOf. now rewrite binarize_length, grayscale_length.
Qed.

Lemma detectShapes_throws :
  (width * height < 0)%Z -> detect = Thrown "RangeError".
Proof.
  intros H. unfold detect, detectShapes, TypedArray.create. fold width height.
  destruct (Z.ltb_spec (width * height) 0); [reflexivity | lia].
Qed.

Lemma regionsOf_throws :
  (width * height < 0)%Z -> regionsOf imageData = Thrown "RangeError".
Proof.
  intros H. unfold regionsOf, TypedArray.create. fold width height.
  destruct (Z.ltb_spec (width * height) 0); [reflexivity | lia].
Qed.

(** Once the arrays are allocated the scan fills its regions, none of which
    has a repeated pixel, and [detectShapes] hands them one after the other
    to the body of the scan. *)
Lemma detectShapes_scan :
  (0 <= width * height)%Z ->
  exists regions,
    Forall (@NoDup Pixel) regions
    /\ regionsOf imageData = Returned regions
    /\ detect
       = bind (filterMap handle regions)
              (fun shapes =>
                 Returned {| shapes := shapes;
                             processingTime := endTime - startTime;
                             imageWidth := width;
                             imageHeight := height |}).
Proof.
  intros H.
  destruct (scanLoop_regions width height binary handle maskOf_length
              (scanOrder width height) (repeat 0%Z (Z.to_nat (width * height))))
    as (regions & Hnd & Hid & Hh).
  { apply scanOrder_inside. }
  { now rewrite repeat_length, maskOf_length. }
  exists regions. split; [assumption|].
  specialize (Hid []). specialize (Hh []).
  unfold detect, detectShapes, regionsOf, handle, binary, maskOf, width, height in *.
  rewrite (create_returns _ H). cbn [bind]. rewrite repeat_length.
  split; [exact Hid|].
  rewrite Hh. destruct (filterMap _ regions); reflexivity.
Qed.

(** Every shape [detectShapes] returns is the shape of a region of distinct
    pixels. *)
Lemma detectShapes_spec (P : DetectedShape -> Prop) :
  (forall pixels s, NoDup pixels -> handle pixels = Returned (Some s) -> P s) ->
  forall result, detect = Returned result -> Forall P (shapes result).
Proof.
  intros HP result Hret.
  destruct (Z_lt_le_dec (width * height) 0) as [Hneg|Hsize].
  { rewrite (detectShapes_throws Hneg) in Hret. discriminate. }
  destruct (detectShapes_scan Hsize) as (regions & Hnd & _ & Hdet).
  rewrite Hdet in Hret.
  destruct (filterMap handle regions) as [kept| |] eqn:Hk; try discriminate.
  cbn [bind] in Hret. injection Hret as <-. cbn [shapes].
  apply Forall_forall. intros s Hs.
  destruct (filterMap_In _ _ _ _ Hk Hs) as (pixels & Hin & Hp).
  rewrite Forall_forall in Hnd. exact (HP pixels s (Hnd pixels Hin) Hp).
Qed.

(** The shapes returned are those of the regions of [regionsOf], in their
    order. *)
Lemma detectShapes_regions :
  detect
  = bind (regionsOf imageData)
         (fun regions =>
            bind (filterMap handle regions)
                 (fun shapes =>
                    Returned {| shapes := shapes;
                                processingTime := endTime - startTime;
                                imageWidth := width;
                                imageHeight := height |})).
Proof.
  destruct (Z_lt_le_dec (width * height) 0) as [Hneg|Hsize].
  - now rewrite (detectShapes_throws Hneg), (regionsOf_throws Hneg).
  - destruct (detectShapes_scan Hsize) as (regions & _ & -> & ->). reflexivity.
Qed.

End DetectorFacts.

(** C1, as amended.  Every shape returned by [detectShapes] has an area of at
    least 300 and a confidence above 0.75; the confidence is at most 1 (it is
    0.9, 0.85 or 0.8) for every shape that is not a circle, and for a circle
    it is the circularity [4 * PI * area / (perimeter^2 + 1e-6)] of its
    region, for which no bound by 1 is claimed. *)
Theorem detected_shapes_area_and_confidence
  (Math_sqrt Math_acos : Q -> Q) (maxArguments : Z) (startTime endTime : Q)
  (imageData : ImageData) (result : DetectionResult) (s : DetectedShape) :
  detectShapes Math_sqrt Math_acos maxArguments startTime endTime imageData
  = Returned result ->
  In s (shapes result) ->
  300 <= ds_area s
  /\ 0 <= ds_confidence s
  /\ 75 # 100 < ds_confidence s
  /\ (ds_type s <> circle ->
      ds_confidence s <= 1
      /\ (ds_confidence s = 9 # 10 \/ ds_confidence s = 85 # 100
          \/ ds_confidence s = 8 # 10))
  /\ (ds_type s = circle ->
      exists pixels,
        let f := features Math_sqrt Math_acos (img_width imageData)
                          (img_height imageData) (maskOf imageData) pixels in
        ds_area s = inject_Z (sf_area f)
        /\ ds_confidence s
           = 4 * Math_PI * inject_Z (sf_area f)
             / (inject_Z (sf_perimeter f * sf_perimeter f) + epsilon)).
Proof.
  intros Hret Hin.
  revert s Hin. apply Forall_forall.
  eapply detectShapes_spec; [|exact Hret].
  intros pixels s0 _ Hs0. cbv beta.
  destruct (processRegion_shape _ _ _ _ _ _ _ _ Hs0) as (Hrej & -> & Harea & _).
    destruct (rejected_false _ Hrej) as (H300 & _).
    pose proof (classify_confidence
                  (features Math_sqrt Math_acos (img_width imageData)
                            (img_height imageData) (maskOf imageData) pixels)) as Hc.
    unfold shapeOf in *.
    destruct (classify _) as [type confidence].
    cbn [ds_area ds_confidence ds_type] in *.
    destruct Hc as (Hlow & Hcircle & Hother).
    split.
    { apply (inject_Z_le 300). assumption. }
    split; [lra|]. split; [assumption|]. split.
    + intros Hne. specialize (Hother Hne). split; [|assumption].
      destruct Hother as [-> | [-> | ->]]; lra.
    + intros Heq. exists pixels. cbn zeta. split; [reflexivity|].
      rewrite (Hcircle Heq). reflexivity.
Qed.

Lemma detected_shapes_area_and_confidence_witness :
  exists result s,
    detectShapes (fun q => q) (fun q => q) 65535 0 1 halfImage = Returned result
    /\ In s (shapes result)
    /\ 300 <= ds_area s
    /\ 75 # 100 < ds_confidence s.
Proof.
  eexists. eexists.
  assert (Hret : detectShapes (fun q => q) (fun q => q) 65535 0 1 halfImage
                 = Returned
                     {| shapes :=
                          [{| ds_type := circle;
                              ds_confidence :=
                                1146026515828607280000000 # 91197892735727520710656;
                              ds_boundingBox :=
                                {| box_x := 0; box_y := 0;
                                   box_width := 17; box_height := 17 |};
                              ds_center := {| pt_x := 17 # 2; pt_y := 17 # 2 |};
                              ds_area := 324 |}];
                        processingTime := 1;
                        imageWidth := 36;
                        imageHeight := 18 |})
    by (vm_compute; reflexivity).
  split; [exact Hret|].
  split; [left; reflexivity|].
  destruct (detected_shapes_area_and_confidence
              (fun q => q) (fun q => q) 65535 0 1 halfImage _ _ Hret (or_introl eq_refl))
    as (Harea & _ & Hconf & _).
  split; assumption.
Defined.

(** C1 as stated fails: on [halfImage] the dark half touches three borders
    of the image, only the 18 pixels of its right column count for the
    perimeter, and the circle returned has the confidence
    [4 * PI * 324 / (18^2 + 1e-6)], above 12. *)
Lemma circle_confidence_above_one :
  exists result s,
    detectShapes (fun q => q) (fun q => q) 65535 0 1 halfImage = Returned result
    /\ In s (shapes result)
    /\ ds_type s = circle
    /\ ds_area s == 324
    /\ ds_confidence s == 4 * Math_PI * 324 / (18 * 18 + epsilon)
    /\ 12 < ds_confidence s
    /\ ~ ds_confidence s <= 1.
Proof.
  eexists. eexists.
  split; [vm_compute; reflexivity|].
  split; [left; reflexivity|].
  cbn [ds_type ds_area ds_confidence].
  split; [reflexivity|]. split; [reflexivity|].
  split; [vm_compute; reflexivity|].
  split; [reflexivity|].
  intros H. vm_compute in H. apply H. reflexivity.
Qed.

(** C8.  Every region filled by the scan of [detectShapes] that passes the
    four gates has a bounding box with [width >= 1] and [height >= 1], so the
    quotient [bbox.width / bbox.height] of the classifier is a finite number.
    The shapes returned are those of these regions, and the bounding box of
    every one of them has sides of at least 1. *)
Theorem gated_regions_have_positive_sides
  (Math_sqrt Math_acos : Q -> Q) (maxArguments : Z) (startTime endTime : Q)
  (imageData : ImageData) :
  let width := img_width imageData in
  let height := img_height imageData in
  (forall regions pixels,
      regionsOf imageData = Returned regions -> In pixels regions ->
      let f := features Math_sqrt Math_acos width height (maskOf imageData) pixels in
      rejected f = false ->
      (1 <= sf_width f)%Z /\ (1 <= sf_height f)%Z
      /\ Num.jsDiv (inject_Z (sf_width f)) (inject_Z (sf_height f))
         = Some (inject_Z (sf_width f) / inject_Z (sf_height f)))
  /\ detectShapes Math_sqrt Math_acos maxArguments startTime endTime imageData
     = bind (regionsOf imageData)
            (fun regions =>
               bind (filterMap (processRegion Math_sqrt Math_acos maxArguments
                                              width height (maskOf imageData)) regions)
                    (fun shapes =>
                       Returned
                         {| shapes := shapes;
                            processingTime := endTime - startTime;
                            imageWidth := width;
                            imageHeight := height |}))
  /\ (forall result s,
        detectShapes Math_sqrt Math_acos maxArguments startTime endTime imageData
        = Returned result ->
        In s (shapes result) ->
        1 <= box_width (ds_boundingBox s) /\ 1 <= box_height (ds_boundingBox s)).
Proof.
  cbn zeta. split; [|split; [apply detectShapes_regions|]].
  - intros regions pixels Hreg Hin Hrej.
    assert (Hnd : NoDup pixels).
    { destruct (Z_lt_le_dec (img_width imageData * img_height imageData) 0) as [Hneg|Hsize].
      { rewrite (regionsOf_throws _ Hneg) in Hreg. discriminate. }
      destruct (detectShapes_scan Math_sqrt Math_acos maxArguments startTime endTime
                  imageData Hsize) as (regions' & Hall & Hreg' & _).
      rewrite Hreg in Hreg'. injection Hreg' as <-.
      rewrite Forall_forall in Hall. now apply Hall. }
    destruct (gated_region_sides Math_sqrt Math_acos _ _ _ pixels Hnd Hrej) as [Hw Hh].
    split; [assumption|]. split; [assumption|].
    apply jsDiv_nonzero, inject_Z_nonzero. lia.
  - intros result s Hret Hin. revert s Hin. apply Forall_forall.
    eapply detectShapes_spec; [|exact Hret].
    intros pixels s0 Hnd Hs0. cbv beta.
    destruct (processRegion_shape _ _ _ _ _ _ _ _ Hs0) as (Hrej & _ & _ & -> & ->).
    destruct (gated_region_sides Math_sqrt Math_acos _ _ _ pixels Hnd Hrej) as [Hw Hh].
    split; apply (inject_Z_le 1); assumption.
Qed.

(** ** The perimeter *)

Section PerimeterFacts.

Variables (width height : Z) (binary : list Z).

Lemma hasBackgroundNeighbor_existsb px py ds :
  hasBackgroundNeighbor width height binary px py ds
  = existsb (fun d : Z * Z =>
               negb (outOfBounds width height (px + fst d) (py + snd d))
               && TypedArray.equals binary (index width (px + fst d) (py + snd d)) 0)
            ds.
Proof.
  induction ds as [|[dx dy] ds IH]; [reflexivity|].
  cbn [hasBackgroundNeighbor existsb fst snd].
  destruct (outOfBounds width height (px + dx) (py + dy)); cbn [negb andb orb];
    [assumption|].
  destruct (TypedArray.equals binary (index width (px + dx) (py + dy)) 0);
    [reflexivity | assumption].
Qed.

Lemma perimeter_fold pixels :
  forall n,
    fold_left (fun perimeter '(px, py) =>
                 if hasBackgroundNeighbor width height binary px py dirs
                 then (perimeter + 1)%Z else perimeter)
              pixels n
    = (n + Z.of_nat (length (filter (backgroundNeighbor width height binary) pixels)))%Z.
Proof.
  induction pixels as [|[px py] pixels IH]; intros n; cbn [fold_left filter];
    [cbn; lia|].
  rewrite IH. unfold backgroundNeighbor at 2. cbn [fst snd].
  rewrite <- hasBackgroundNeighbor_existsb.
  destruct (hasBackgroundNeighbor width height binary px py dirs); cbn [length]; lia.
Qed.

Lemma perimeterOf_count pixels :
  perimeterOf width height binary pixels
  = Z.of_nat (length (filter (backgroundNeighbor width height binary) pixels)).
Proof. unfold perimeterOf. now rewrite perimeter_fold. Qed.

End PerimeterFacts.

(** C2, as amended.  The perimeter computed by [detectShapes] for a region is
    the number of its pixels that have at least one 8-neighbour inside the
    image that is a background pixel.  Neighbours outside the image are
    skipped: a region pixel on the border of the image whose only neighbours
    that are not foreground lie outside the image is not counted. *)
Theorem perimeter_counts_background_neighbors_inside_image
  (Math_sqrt Math_acos : Q -> Q) (width height : Z) (binary : list Z)
  (pixels : list Pixel) :
  sf_perimeter (features Math_sqrt Math_acos width height binary pixels)
  = Z.of_nat (length (filter (backgroundNeighbor width height binary) pixels))
  /\ (forall p,
        (forall d, In d dirs ->
                   outOfBounds width height (fst p + fst d) (snd p + snd d) = true
                   \/ TypedArray.equals binary
                        (index width (fst p + fst d) (snd p + snd d)) 0 = false) ->
        backgroundNeighbor width height binary p = false)
  /\ (forall p,
        backgroundNeighbor width height binary p = true <->
        exists d, In d dirs
                  /\ outOfBounds width height (fst p + fst d) (snd p + snd d) = false
                  /\ TypedArray.get binary (index width (fst p + fst d) (snd p + snd d))
                     = Some 0%Z).
Proof.
  split; [|split].
  - cbn [features sf_perimeter]. apply perimeterOf_count.
  - intros p Hall. unfold backgroundNeighbor.
    destruct (existsb _ dirs) eqn:E; [|reflexivity].
    apply existsb_exists in E. destruct E as (d & Hd & Ht).
    cbn beta zeta in Ht.
    destruct (Hall d Hd) as [Ho | He].
    + rewrite Ho in Ht. discriminate.
    + rewrite He, andb_false_r in Ht. discriminate.
  - intros p. unfold backgroundNeighbor. rewrite existsb_exists.
    split; intros (d & Hd & Ht); exists d; (split; [assumption|]); cbn beta zeta in *.
    + apply andb_prop in Ht. destruct Ht as [Ho He].
      apply negb_true_iff in Ho. split; [assumption|].
      unfold TypedArray.equals in He.
      destruct (TypedArray.get binary _) as [v|]; [|discriminate].
      apply Z.eqb_eq in He. now subst.
    + destruct Ht as [-> Hg]. unfold TypedArray.equals. rewrite Hg. reflexivity.
Qed.

(** C2 as stated fails: the region of [halfImage] has 324 pixels, of which
    68 have a neighbour outside the region or outside the image, but the
    perimeter computed is 18; the corner pixel (0, 0) has only neighbours in
    the region or outside the image and is not counted. *)
Lemma border_pixels_are_not_counted :
  exists region,
    regionsOf halfImage = Returned [region]
    /\ perimeterOf 36 18 (maskOf halfImage) region = 18%Z
    /\ specPerimeter 36 18 region = 68%Z
    /\ perimeterOf 36 18 (maskOf halfImage) region <> specPerimeter 36 18 region
    /\ In (0, 0)%Z region
    /\ specBoundaryPixel 36 18 region (0, 0)%Z = true
    /\ hasBackgroundNeighbor 36 18 (maskOf halfImage) 0 0 dirs = false.
Proof.
  eexists. split; [vm_compute; reflexivity|].
  split; [vm_compute; reflexivity|].
  split; [vm_compute; reflexivity|].
  split; [vm_compute; discriminate|].
  split; [left; reflexivity|].
  split; vm_compute; reflexivity.
Qed.

(** ** Scenarios of the specification *)

(** A uniform image has no foreground: no shape, no error. *)
Example uniform_image_has_no_shape :
  detectShapes (fun q => q) (fun q => q) 65535 0 1 uniformImage
  = Returned {| shapes := []; processingTime := 1; imageWidth := 4; imageHeight := 4 |}.
Proof. vm_compute. reflexivity. Qed.

(** A detection identical to the only ground-truth shape: precision, recall,
    F1 and average IoU are 1, the score is 100. *)
Example identical_detection_scores_100 :
  let m := evaluateDetection (fun q => q) [exactDetection] [circleTruth] "image" in
  precision m == 1 /\ recall m == 1 /\ f1_score m == 1 /\ average_iou m = 1%float
  /\ calculateScore m {| shapes := [exactDetection]; processingTime := 20;
                         imageWidth := 20; imageHeight := 20 |}
     = (true, 100%Z).
Proof. cbn zeta. repeat split. Qed.

(** Earlier detections choose first: of three detections competing for two
    ground-truth shapes the third stays without a match. *)
Example greedy_order_of_choice :
  assignments 0.5 [circleTruth; circleTruth] []
              [exactDetection; exactDetection; exactDetection]
  = [Some 0%nat; Some 1%nat; None].
Proof. reflexivity. Qed.

(** The double read from a decimal is the nearest one, ties to even; a
    number too large is an infinity, one too small a zero. *)
Example of_Q_nearest_double :
  Double.of_Q (1 # 10) = 0.1%float
  /\ Double.of_Q (33 # 10) = 3.3%float
  /\ Double.of_Q (- (2) # 3) = (-0.6666666666666666)%float
  /\ Double.of_Q (14099999999999997 # 100000000000000) = 140.99999999999997%float
  /\ Double.of_Q (9007199254740993 # 1) = 9007199254740992%float
  /\ Double.of_Q (9007199254740995 # 1) = 9007199254740996%float
  /\ Double.of_Q (1 # 10 ^ 320) = 1e-320%float
  /\ Double.of_Q (inject_Z (10 ^ 400)) = infinity
  /\ Double.of_Q (1 # 10 ^ 400) = 0%float.
Proof. repeat split; vm_compute; reflexivity. Qed.

(** Values of [calculateIoU] that exact arithmetic would not give: boxes
    that only touch get a positive IoU, different boxes the IoU 1, one box
    with itself the IoU 0, and boxes of sides [1e200] or [1e-200] NaN. *)
Example calculateIoU_rounding :
  let box x y w h := {| box_x := x; box_y := y; box_width := w; box_height := h |} in
  calculateIoU (box (1 # 10) 0 (2 # 10) 1) (box (3 # 10) 0 1 1)
  = 4.625929269271486e-17%float
  /\ calculateIoU (box 0 0 1 1) (box (1 # 10 ^ 17) 0 1 1) = 1%float
  /\ calculateIoU (box (inject_Z (10 ^ 16)) 0 1 1) (box (inject_Z (10 ^ 16)) 0 1 1)
     = 0%float
  /\ PrimFloat.is_nan
       (calculateIoU (box 0 0 (inject_Z (10 ^ 200)) (inject_Z (10 ^ 200)))
                     (box 0 0 (inject_Z (10 ^ 200)) (inject_Z (10 ^ 200)))) = true
  /\ PrimFloat.is_nan
       (calculateIoU (box 0 0 (1 # 10 ^ 200) (1 # 10 ^ 200))
                     (box 0 0 (1 # 10 ^ 200) (1 # 10 ^ 200))) = true.
Proof. cbv zeta. repeat split; vm_compute; reflexivity. Qed.

(** A ground-truth box that covers half of the detected box has the IoU
    [0.5000000000000001]: it is above the threshold, and matched. *)
Example rounding_decides_the_match :
  iouWith exactDetection offsetTruth = 0.5000000000000001%float
  /\ assignments 0.5 [offsetTruth] [] [exactDetection] = [Some 0%nat]
  /\ truePositivesAt (fun q => q) 0.5 [exactDetection] [offsetTruth] = 1%Z.
Proof. repeat split; vm_compute; reflexivity. Qed.

(** An IoU of 0.8 is a match at the threshold 0.5 and none at 0.9. *)
Example threshold_decides_the_match :
  iouWith circleDetection circleTruth = 0.8%float
  /\ truePositivesAt (fun q => q) 0.5 [circleDetection] [circleTruth] = 1%Z
  /\ truePositivesAt (fun q => q) 0.9 [circleDetection] [circleTruth] = 0%Z.
Proof. repeat split. Qed.

(** * Further properties of the code *)

(** ** [calculateIoU] *)

(** X1.  [calculateIoU] does not depend on the order of its two boxes: the
    double it returns is the same. *)
Theorem calculateIoU_symmetric (box1 box2 : Box) :
  calculateIoU box1 box2 = calculateIoU box2 box1.
Proof.
  unfold calculateIoU, iouCorners.
  rewrite (DoubleFacts.max_comm (leftEdge box2)), (DoubleFacts.max_comm (topEdge box2)),
          (DoubleFacts.min_comm (rightEdge box2)), (DoubleFacts.min_comm (bottomEdge box2)),
          (DoubleFacts.add_comm (boxArea box2)).
  reflexivity.
Qed.

(** ** The metrics of [evaluateDetection] *)

Section MetricFacts.

Variables (Math_sqrt : Q -> Q) (iouThreshold : float) (groundTruth : list GroundTruthShape).

Lemma matchStep_counters st d :
  countersInv groundTruth st ->
  countersInv groundTruth (matchStep Math_sqrt iouThreshold groundTruth st d).
Proof.
  intros [Hr Htp].
  destruct (findBest iouThreshold (matched st) d groundTruth) as [[[g i]|] b] eqn:E.
  - destruct (findBest_some _ _ _ _ _ _ _ E) as (Hi & _).
    destruct (matchStep_some Math_sqrt _ _ _ _ _ _ _ E) as (Hm & Ht & _).
    split; rewrite ?Hm, ?Ht.
    + intros j Hj. apply in_app_or in Hj. destruct Hj as [Hj|[<-|[]]].
      * now apply Hr.
      * apply nth_error_Some. congruence.
    + lia.
  - rewrite (matchStep_none Math_sqrt _ _ _ _ _ E). now split.
Qed.

Lemma matchLoop_counters detected :
  countersInv groundTruth (matchLoop Math_sqrt iouThreshold detected groundTruth).
Proof.
  unfold matchLoop.
  assert (H0 : countersInv groundTruth initialMatchState).
  { split; cbn [truePositives matched initialMatchState]; first [lia | intros i []]. }
  revert H0. generalize initialMatchState.
  induction detected as [|d rest IH]; intros st Hst; cbn [fold_left]; [assumption|].
  apply IH. now apply matchStep_counters.
Qed.

Lemma truePositivesAt_le_groundTruth detected :
  (truePositivesAt Math_sqrt iouThreshold detected groundTruth
   <= Z.of_nat (length groundTruth))%Z.
Proof.
  rewrite truePositivesAt_matched. apply inj_le.
  apply Nat.le_trans with (length (seq 0 (length groundTruth)));
    [|rewrite length_seq; apply Nat.le_refl].
  apply NoDup_incl_length.
  - apply matchLoop_NoDup. constructor.
  - intros i Hi. apply in_seq.
    pose proof (ci_range _ _ (matchLoop_counters detected) i Hi). lia.
Qed.

Lemma assignedIndices_length a : (length (assignedIndices a) <= length a)%nat.
Proof.
  unfold assignedIndices.
  induction a as [|[i|] a IH]; cbn [flat_map app length]; lia.
Qed.

Lemma truePositivesAt_le_detected detected :
  (truePositivesAt Math_sqrt iouThreshold detected groundTruth
   <= Z.of_nat (length detected))%Z.
Proof.
  unfold truePositivesAt, matchLoop.
  destruct (matchLoop_assignments Math_sqrt iouThreshold groundTruth detected
              initialMatchState) as [_ ->].
  cbn [truePositives initialMatchState matched].
  pose proof (assignedIndices_length (assignments iouThreshold groundTruth [] detected)).
  rewrite assignments_length in H. lia.
Qed.

End MetricFacts.

Lemma Qdiv_le_one a b : 0 < b -> a <= b -> a / b <= 1.
Proof. intros Hb Hab. apply Qle_shift_div_r; lra. Qed.

(** Precision, recall and F1 lie between 0 and 1. *)
Lemma evaluateDetection_unit Math_sqrt detected groundTruth imageName :
  let m := evaluateDetection Math_sqrt detected groundTruth imageName in
  0 <= precision m <= 1 /\ 0 <= recall m <= 1 /\ 0 <= f1_score m <= 1.
Proof.
  cbn zeta.
  pose proof (truePositivesAt_nonneg Math_sqrt 0.5 detected groundTruth) as H0.
  pose proof (truePositivesAt_le_detected Math_sqrt 0.5 groundTruth detected) as Hd.
  pose proof (truePositivesAt_le_groundTruth Math_sqrt 0.5 groundTruth detected) as Hg.
  assert (Hp : 0 <= precision (evaluateDetection Math_sqrt detected groundTruth imageName)
               <= 1).
  { unfold evaluateDetection, evaluateDetectionAt. cbn [precision].
    fold (truePositivesAt Math_sqrt 0.5 detected groundTruth).
    destruct (NumFacts.gtb_spec (lengthOf detected) 0); [|lra]. split.
    - apply Qdiv_nonneg; [now apply inject_Z_nonneg | assumption].
    - apply Qdiv_le_one; [assumption | now apply inject_Z_le]. }
  assert (Hr : 0 <= recall (evaluateDetection Math_sqrt detected groundTruth imageName)
               <= 1).
  { unfold evaluateDetection, evaluateDetectionAt. cbn [recall].
    fold (truePositivesAt Math_sqrt 0.5 detected groundTruth).
    destruct (NumFacts.gtb_spec (lengthOf groundTruth) 0); [|lra]. split.
    - apply Qdiv_nonneg; [now apply inject_Z_nonneg | assumption].
    - apply Qdiv_le_one; [assumption | now apply inject_Z_le]. }
  split; [assumption|]. split; [assumption|].
  revert Hp Hr.
  unfold evaluateDetection, evaluateDetectionAt. cbn [precision recall f1_score].
  set (p := if Num.gtb (lengthOf detected) 0 then _ else _).
  set (r := if Num.gtb (lengthOf groundTruth) 0 then _ else _).
  intros Hp Hr.
  destruct (NumFacts.gtb_spec (p + r) 0) as [Hs|Hs]; [|lra]. split.
  - apply Qdiv_nonneg; [nra | assumption].
  - apply Qdiv_le_one; [assumption | nra].
Qed.

(** X4.  The number of true positives is at most the number of detections and
    at most the number of ground-truth shapes, so precision, recall and F1
    all lie between 0 and 1. *)
Theorem metrics_within_unit_interval
  (Math_sqrt : Q -> Q) (detected : list DetectedShape)
  (groundTruth : list GroundTruthShape) (imageName : string) :
  let m := evaluateDetection Math_sqrt detected groundTruth imageName in
  let TP := truePositivesAt Math_sqrt 0.5 detected groundTruth in
  (0 <= TP <= Z.of_nat (length detected))%Z
  /\ (TP <= Z.of_nat (length groundTruth))%Z
  /\ 0 <= precision m <= 1
  /\ 0 <= recall m <= 1
  /\ 0 <= f1_score m <= 1.
Proof.
  cbn zeta.
  pose proof (truePositivesAt_nonneg Math_sqrt 0.5 detected groundTruth) as H0.
  pose proof (truePositivesAt_le_detected Math_sqrt 0.5 groundTruth detected) as Hd.
  pose proof (truePositivesAt_le_groundTruth Math_sqrt 0.5 groundTruth detected) as Hg.
  destruct (evaluateDetection_unit Math_sqrt detected groundTruth imageName)
    as (Hp & Hr & Hf).
  split; [lia|]. split; [assumption|]. split; [assumption|]. split; assumption.
Qed.

Lemma matchLoop_totalIoU Math_sqrt iouThreshold groundTruth detected :
  forall st,
    let st' := fold_left (matchStep Math_sqrt iouThreshold groundTruth) detected st in
    let ious := matchedIoUs iouThreshold groundTruth (matched st) detected in
    totalIoU st' = sumFrom (totalIoU st) ious
    /\ truePositives st' = (truePositives st + Z.of_nat (length ious))%Z
    /\ Forall (fun v => PrimFloat.ltb iouThreshold v = true) ious.
Proof.
  induction detected as [|d rest IH]; intros st; cbn zeta.
  - cbn. split; [reflexivity|]. split; [lia | constructor].
  - cbn [fold_left matchedIoUs].
    destruct (findBest iouThreshold (matched st) d groundTruth) as [[[g i]|] b] eqn:E.
    + destruct (findBest_some _ _ _ _ _ _ _ E) as (_ & Hb & [Hfree _] & _ & Hthr & _).
      destruct (matchStep_some Math_sqrt _ _ _ _ _ _ _ E) as (Hm & Ht & _).
      assert (Hiou : totalIoU (matchStep Math_sqrt iouThreshold groundTruth st d)
                     = (totalIoU st + b)%float).
      { unfold matchStep. rewrite E. reflexivity. }
      destruct (IH (matchStep Math_sqrt iouThreshold groundTruth st d)) as (I1 & I2 & I3).
      rewrite Hiou in I1. rewrite Hm in I1, I2, I3. rewrite Ht in I2.
      rewrite (setAdd_fresh _ _ Hfree).
      split; [exact I1|]. split.
      * rewrite I2. cbn [length]. lia.
      * constructor; [now rewrite Hb | assumption].
    + rewrite (matchStep_none Math_sqrt _ _ _ _ _ E). apply IH.
Qed.

(** X5.  [average_iou] is the sum, in the order of the detections, of the
    IoUs of the matched pairs divided by their number, the number of true
    positives; each of these IoUs is above the threshold 0.5.  Without a
    match it is 0. *)
Theorem average_iou_of_matched_image
  (Math_sqrt : Q -> Q) (detected : list DetectedShape)
  (groundTruth : list GroundTruthShape) (imageName : string) :
  let m := evaluateDetection Math_sqrt detected groundTruth imageName in
  let TP := truePositivesAt Math_sqrt 0.5 detected groundTruth in
  let ious := matchedIoUs 0.5 groundTruth [] detected in
  TP = Z.of_nat (length ious)
  /\ Forall (fun v => PrimFloat.ltb 0.5 v = true) ious
  /\ (TP = 0%Z -> average_iou m = 0%float)
  /\ ((0 < TP)%Z -> average_iou m = (sumFrom 0 ious / Double.of_Z TP)%float).
Proof.
  cbn zeta.
  destruct (matchLoop_totalIoU Math_sqrt 0.5 groundTruth detected initialMatchState)
    as (Hsum & Htp & Hall).
  cbn [matched truePositives totalIoU initialMatchState] in Hsum, Htp, Hall.
  unfold truePositivesAt, evaluateDetection, evaluateDetectionAt, matchLoop.
  cbn [average_iou].
  split; [rewrite Htp; lia|]. split; [assumption|]. split.
  - intros ->. reflexivity.
  - intros Hpos.
    destruct (NumFacts.gtb_spec
                (inject_Z (truePositives
                   (fold_left (matchStep Math_sqrt 0.5 groundTruth) detected
                              initialMatchState))) 0) as [_|N].
    + now rewrite Hsum.
    + exfalso. apply N. now apply inject_Z_pos.
Qed.

(** ** [calculateScore] *)

Lemma f1Points_monotone a b : a <= b -> (f1Points a <= f1Points b)%Z.
Proof.
  intros H. unfold f1Points.
  destruct (NumFacts.geb_spec a (9 # 10)), (NumFacts.geb_spec b (9 # 10)); try lia; try lra;
  destruct (NumFacts.geb_spec a (7 # 10)), (NumFacts.geb_spec b (7 # 10)); try lia; try lra;
  destruct (NumFacts.geb_spec a (5 # 10)), (NumFacts.geb_spec b (5 # 10)); try lia; lra.
Qed.

Lemma iouPoints_monotone a b :
  PrimFloat.leb a b = true -> (iouPoints a <= iouPoints b)%Z.
Proof.
  intros H. unfold iouPoints, Double.geb.
  assert (T : forall t, PrimFloat.leb t a = true -> PrimFloat.leb t b = true)
    by (intros t Ht; now apply DoubleFacts.leb_trans with a).
  destruct (PrimFloat.leb 0.8 a) eqn:A8; [rewrite (T _ A8); lia|].
  destruct (PrimFloat.leb 0.6 a) eqn:A6;
    [rewrite (T _ A6); destruct (PrimFloat.leb 0.8 b); lia|].
  destruct (PrimFloat.leb 0.4 a) eqn:A4;
    [rewrite (T _ A4); destruct (PrimFloat.leb 0.8 b), (PrimFloat.leb 0.6 b); lia|].
  destruct (PrimFloat.leb 0.8 b), (PrimFloat.leb 0.6 b), (PrimFloat.leb 0.4 b); lia.
Qed.

Lemma areaPoints_monotone a b : a <= b -> (areaPoints a <= areaPoints b)%Z.
Proof.
  intros H. unfold areaPoints.
  destruct (NumFacts.geb_spec a (9 # 10)), (NumFacts.geb_spec b (9 # 10)); try lia; try lra;
  destruct (NumFacts.geb_spec a (8 # 10)), (NumFacts.geb_spec b (8 # 10)); try lia; try lra;
  destruct (NumFacts.geb_spec a (7 # 10)), (NumFacts.geb_spec b (7 # 10)); try lia; lra.
Qed.

Lemma centerPoints_antitone a b : b <= a -> (centerPoints a <= centerPoints b)%Z.
Proof.
  intros H. unfold centerPoints.
  destruct (NumFacts.leb_spec a 5), (NumFacts.leb_spec b 5); try lia; try lra;
  destruct (NumFacts.leb_spec a 10), (NumFacts.leb_spec b 10); try lia; try lra;
  destruct (NumFacts.leb_spec a 20), (NumFacts.leb_spec b 20); try lia; lra.
Qed.

Lemma timePoints_antitone a b : b <= a -> (timePoints a <= timePoints b)%Z.
Proof.
  intros H. unfold timePoints.
  destruct (NumFacts.leb_spec a 500), (NumFacts.leb_spec b 500); try lia; try lra;
  destruct (NumFacts.leb_spec a 1000), (NumFacts.leb_spec b 1000); try lia; try lra;
  destruct (NumFacts.leb_spec a 2000), (NumFacts.leb_spec b 2000); try lia; lra.
Qed.

Lemma points_bounds f i c a t :
  (0 <= f1Points f <= 40)%Z /\ (0 <= iouPoints i <= 25)%Z
  /\ (0 <= centerPoints c <= 15)%Z /\ (0 <= areaPoints a <= 10)%Z
  /\ (0 <= timePoints t <= 10)%Z.
Proof.
  unfold f1Points, iouPoints, centerPoints, areaPoints, timePoints.
  repeat split;
    repeat match goal with |- context [if ?b then _ else _] => destruct b end; lia.
Qed.

Lemma calculateScore_bounds evaluation detection :
  (0 <= snd (calculateScore evaluation detection) <= 100)%Z.
Proof.
  unfold calculateScore. cbn [snd].
  destruct (points_bounds (f1_score evaluation) (average_iou evaluation)
              (center_point_accuracy evaluation) (area_accuracy evaluation)
              (processingTime detection)) as (B1 & B2 & B3 & B4 & B5).
  lia.
Qed.

(** X6.  The score of an image lies between 0 and 100, the image passes
    exactly when the score is at least 60, and the score is 100 exactly when
    every metric is in its best band. *)
Theorem calculateScore_range (evaluation : EvaluationMetrics) (detection : DetectionResult) :
  let '(passed, score) := calculateScore evaluation detection in
  (0 <= score <= 100)%Z
  /\ (passed = true <-> (60 <= score)%Z)
  /\ (score = 100%Z <->
      9 # 10 <= f1_score evaluation
      /\ PrimFloat.leb 0.8 (average_iou evaluation) = true
      /\ center_point_accuracy evaluation <= 5 /\ 9 # 10 <= area_accuracy evaluation
      /\ processingTime detection <= 500).
Proof.
  unfold calculateScore.
  destruct (points_bounds (f1_score evaluation) (average_iou evaluation)
              (center_point_accuracy evaluation) (area_accuracy evaluation)
              (processingTime detection)) as (B1 & B2 & B3 & B4 & B5).
  split; [lia|]. split.
  - rewrite Z.geb_leb, Z.leb_le. reflexivity.
  - split.
    + intros H.
      assert (f1Points (f1_score evaluation) = 40
              /\ iouPoints (average_iou evaluation) = 25
              /\ centerPoints (center_point_accuracy evaluation) = 15
              /\ areaPoints (area_accuracy evaluation) = 10
              /\ timePoints (processingTime detection) = 10)%Z
        as (E1 & E2 & E3 & E4 & E5) by lia.
      clear H B1 B2 B3 B4 B5.
      unfold f1Points, iouPoints, centerPoints, areaPoints, timePoints in *.
      destruct (NumFacts.geb_spec (f1_score evaluation) (9 # 10));
        [|repeat match type of E1 with context [if ?b then _ else _] => destruct b end;
          discriminate].
      unfold Double.geb in E2.
      destruct (PrimFloat.leb 0.8 (average_iou evaluation)) eqn:L8;
        [|repeat match type of E2 with context [if ?b then _ else _] => destruct b end;
          discriminate].
      destruct (NumFacts.leb_spec (center_point_accuracy evaluation) 5);
        [|repeat match type of E3 with context [if ?b then _ else _] => destruct b end;
          discriminate].
      destruct (NumFacts.geb_spec (area_accuracy evaluation) (9 # 10));
        [|repeat match type of E4 with context [if ?b then _ else _] => destruct b end;
          discriminate].
      destruct (NumFacts.leb_spec (processingTime detection) 500);
        [|repeat match type of E5 with context [if ?b then _ else _] => destruct b end;
          discriminate].
      auto.
    + intros (H1 & H2 & H3 & H4 & H5).
      unfold f1Points, iouPoints, centerPoints, areaPoints, timePoints.
      destruct (NumFacts.geb_spec (f1_score evaluation) (9 # 10)); [|contradiction].
      unfold Double.geb. rewrite H2.
      destruct (NumFacts.leb_spec (center_point_accuracy evaluation) 5); [|contradiction].
      destruct (NumFacts.geb_spec (area_accuracy evaluation) (9 # 10)); [|contradiction].
      destruct (NumFacts.leb_spec (processingTime detection) 500); [|contradiction].
      reflexivity.
Qed.

(** X7.  Better metrics never lower the score: with F1, average IoU and area
    accuracy not lower, centre error and processing time not higher, the
    score is not lower, and an image that passed still passes. *)
Theorem calculateScore_monotone
  (m m' : EvaluationMetrics) (d d' : DetectionResult) :
  atLeastAsGood m m' -> processingTime d' <= processingTime d ->
  (snd (calculateScore m d) <= snd (calculateScore m' d'))%Z
  /\ (fst (calculateScore m d) = true -> fst (calculateScore m' d') = true).
Proof.
  intros (H1 & H2 & H3 & H4) H5.
  pose proof (f1Points_monotone _ _ H1). pose proof (iouPoints_monotone _ _ H2).
  pose proof (centerPoints_antitone _ _ H3). pose proof (areaPoints_monotone _ _ H4).
  pose proof (timePoints_antitone _ _ H5).
  unfold calculateScore. cbn [fst snd]. split; [lia|].
  rewrite !Z.geb_leb, !Z.leb_le. lia.
Qed.

Lemma calculateScore_monotone_witness :
  atLeastAsGood zeroMetrics
    (evaluateDetection (fun q => q) [exactDetection] [circleTruth] "image")
  /\ (snd (calculateScore zeroMetrics
             {| shapes := []; processingTime := 700; imageWidth := 20; imageHeight := 20 |})
      <= snd (calculateScore
                (evaluateDetection (fun q => q) [exactDetection] [circleTruth] "image")
                {| shapes := [exactDetection]; processingTime := 20;
                   imageWidth := 20; imageHeight := 20 |}))%Z.
Proof.
  assert (H : atLeastAsGood zeroMetrics
                (evaluateDetection (fun q => q) [exactDetection] [circleTruth] "image")).
  { unfold atLeastAsGood. repeat split; vm_compute; try reflexivity; discriminate. }
  split; [exact H|].
  apply (calculateScore_monotone _ _ _ _ H). vm_compute. discriminate.
Defined.

(** ** The batch loop *)

Section BatchMore.

Variable Math_sqrt : Q -> Q.

Lemma batchStep_testResult st run :
  acc_testResults (batchStep Math_sqrt st run)
  = acc_testResults st ++ [testResultOf Math_sqrt run].
Proof.
  unfold batchStep, testResultOf.
  destruct (run_detection run) as [d| |]; reflexivity.
Qed.

Lemma batchLoop_testResults runs :
  forall st,
    acc_testResults (fold_left (batchStep Math_sqrt) runs st)
    = acc_testResults st ++ map (testResultOf Math_sqrt) runs.
Proof.
  induction runs as [|run rest IH]; intros st; cbn [fold_left map].
  - now rewrite app_nil_r.
  - rewrite IH, batchStep_testResult, <- app_assoc. reflexivity.
Qed.

Lemma testResults_map runs :
  testResults (runEvaluation Math_sqrt runs) = map (testResultOf Math_sqrt) runs.
Proof.
  unfold runEvaluation, finishBatch. cbn [testResults].
  now rewrite batchLoop_testResults.
Qed.

Lemma totalScore_sum runs :
  totalScore (runEvaluation Math_sqrt runs) = sumOfScores Math_sqrt runs.
Proof.
  unfold runEvaluation, finishBatch. cbn [totalScore].
  destruct (batchLoop_spec Math_sqrt runs initialBatchState) as (-> & _).
  cbn [acc_totalScore initialBatchState]. apply round_inject_Z.
Qed.

Lemma sumOfScores_app runs1 runs2 :
  sumOfScores Math_sqrt (runs1 ++ runs2)
  = (sumOfScores Math_sqrt runs1 + sumOfScores Math_sqrt runs2)%Z.
Proof.
  unfold sumOfScores. induction runs1 as [|r rs IH]; cbn [app fold_right]; lia.
Qed.

Lemma scoreOfRun_range run : (0 <= scoreOfRun Math_sqrt run <= 100)%Z.
Proof.
  unfold scoreOfRun. destruct (run_detection run) as [d| |]; try lia.
  apply calculateScore_bounds.
Qed.

Lemma sumOfScores_range runs :
  (0 <= sumOfScores Math_sqrt runs <= 100 * Z.of_nat (length runs))%Z.
Proof.
  unfold sumOfScores. induction runs as [|r rs IH]; cbn [fold_right length]; [lia|].
  pose proof (scoreOfRun_range r). lia.
Qed.

Lemma sumOfScores_failed runs :
  Forall runFailed runs -> sumOfScores Math_sqrt runs = 0%Z.
Proof.
  unfold sumOfScores. induction 1 as [|r rs Hr _ IH]; cbn [fold_right]; [reflexivity|].
  rewrite IH. unfold scoreOfRun, runFailed in *.
  destruct (run_detection r); [contradiction | reflexivity | reflexivity].
Qed.

End BatchMore.

Lemma batch_percentage_and_grade_facts (Math_sqrt : Q -> Q) (runs : list ImageRun) :
  maxScore (runEvaluation Math_sqrt runs) = (100 * Z.of_nat (length runs))%Z
  /\ (runs <> [] ->
      exists p,
        batchPercentage (fold_left (batchStep Math_sqrt) runs initialBatchState) = Some p
        /\ p == 100 * (inject_Z (sumOfScores Math_sqrt runs) / (100 * lengthOf runs))).
Proof.
  destruct (batchLoop_spec Math_sqrt runs initialBatchState) as (Hs & trs & Hr & Hp).
  cbn in Hs, Hr.
  pose proof (Forall2_length Hp) as Hlen.
  split.
  { unfold runEvaluation, finishBatch. cbn [maxScore]. rewrite Hr, <- Hlen. lia. }
  intros Hne.
  assert (HN : (0 < Z.of_nat (length runs))%Z) by (destruct runs; [contradiction | cbn; lia]).
  unfold batchPercentage. rewrite Hr, Hs, <- Hlen.
  rewrite jsDiv_nonzero by (apply inject_Z_nonzero; lia).
  cbn [option_map]. eexists. split; [reflexivity|].
  unfold lengthOf. rewrite inject_Z_mult. field.
  apply inject_Z_nonzero. lia.
Qed.

(** X8.  The batch evaluates every image on its own: the list of test
    results is the per-image result mapped over the images, in their order
    and under their names, whatever the other images do; an image whose
    detection threw is recorded with zero metrics, not passed, and does not
    stop the batch.  The results and the total score of two batches put
    together are those of each put together. *)
Theorem batch_results_are_per_image (Math_sqrt : Q -> Q) (runs1 runs2 : list ImageRun) :
  let r := runEvaluation Math_sqrt (runs1 ++ runs2) in
  testResults r = map (testResultOf Math_sqrt) (runs1 ++ runs2)
  /\ map tr_imageName (testResults r) = map run_imageName (runs1 ++ runs2)
  /\ testResults r
     = testResults (runEvaluation Math_sqrt runs1)
       ++ testResults (runEvaluation Math_sqrt runs2)
  /\ totalScore r
     = (totalScore (runEvaluation Math_sqrt runs1)
        + totalScore (runEvaluation Math_sqrt runs2))%Z
  /\ (forall run, In run (runs1 ++ runs2) -> runFailed run ->
      exists tr, In tr (testResults r)
                 /\ tr_imageName tr = run_imageName run
                 /\ tr_evaluation tr = zeroMetrics
                 /\ tr_passed tr = false
                 /\ shapes (tr_detectionResult tr) = []).
Proof.
  cbn zeta. rewrite !testResults_map, !totalScore_sum.
  split; [reflexivity|]. split.
  { rewrite map_map. apply map_ext. intros run. unfold testResultOf.
    destruct (run_detection run); reflexivity. }
  split; [apply map_app|]. split; [apply sumOfScores_app|].
  intros run Hin Hfail. exists (testResultOf Math_sqrt run).
  split; [now apply in_map|].
  unfold testResultOf, runFailed in *.
  destruct (run_detection run); [contradiction | |]; repeat split.
Qed.

(** X9.  The total score of a batch lies between 0 and its maximum
    [100 * N], and for a batch with at least one image the percentage lies
    between 0 and 100. *)
Theorem batch_score_within_maximum (Math_sqrt : Q -> Q) (runs : list ImageRun) :
  let r := runEvaluation Math_sqrt runs in
  (0 <= totalScore r <= maxScore r)%Z
  /\ (runs <> [] ->
      exists p,
        batchPercentage (fold_left (batchStep Math_sqrt) runs initialBatchState) = Some p
        /\ 0 <= p <= 100).
Proof.
  cbn zeta.
  destruct (batch_percentage_and_grade_facts Math_sqrt runs) as (Hmax & Hp).
  pose proof (sumOfScores_range Math_sqrt runs) as Hs.
  rewrite totalScore_sum, Hmax. split; [lia|].
  intros Hne. destruct (Hp Hne) as (p & -> & Ep).
  exists p. split; [reflexivity|].
  assert (HN : 0 < lengthOf runs) by now apply lengthOf_pos.
  assert (HS : 0 <= inject_Z (sumOfScores Math_sqrt runs)
               <= 100 * lengthOf runs).
  { split; [apply inject_Z_nonneg; lia|].
    unfold lengthOf. change 100 with (inject_Z 100). rewrite <- inject_Z_mult.
    apply inject_Z_le. lia. }
  rewrite Ep.
  assert (0 <= inject_Z (sumOfScores Math_sqrt runs) / (100 * lengthOf runs) <= 1).
  { split; [apply Qdiv_nonneg; lra | apply Qdiv_le_one; lra]. }
  lra.
Qed.

(** X10.  A batch in which no detection returned has total score 0,
    percentage 0 and grade F, and none of its images passes. *)
Theorem batch_of_failures_scores_nothing (Math_sqrt : Q -> Q) (runs : list ImageRun) :
  Forall runFailed runs ->
  let r := runEvaluation Math_sqrt runs in
  totalScore r = 0%Z
  /\ grade r = "F"%string
  /\ Forall (fun tr => tr_passed tr = false /\ tr_evaluation tr = zeroMetrics)
            (testResults r)
  /\ (runs <> [] -> exists p, percentage r = Some p /\ p == 0).
Proof.
  intros Hfail. cbn zeta.
  pose proof (sumOfScores_failed Math_sqrt runs Hfail) as Hsum.
  rewrite testResults_map, totalScore_sum, Hsum.
  split; [reflexivity|].
  destruct (batch_percentage_and_grade_facts Math_sqrt runs) as (_ & Hp).
  assert (Hgrade : grade (runEvaluation Math_sqrt runs)
                   = calculateGrade
                       (batchPercentage
                          (fold_left (batchStep Math_sqrt) runs initialBatchState)))
    by reflexivity.
  assert (Hperc : percentage (runEvaluation Math_sqrt runs)
                  = option_map (fun p => inject_Z (Num.round (p * 100)) / 100)
                      (batchPercentage
                         (fold_left (batchStep Math_sqrt) runs initialBatchState)))
    by reflexivity.
  split.
  { rewrite Hgrade. destruct runs as [|run rest].
    - reflexivity.
    - destruct (Hp ltac:(discriminate)) as (p & -> & Ep).
      rewrite Hsum in Ep. unfold calculateGrade.
      assert (p == 0) by (rewrite Ep; unfold Qdiv; change (inject_Z 0) with 0; lra).
      destruct (NumFacts.geb_spec p 90); [lra|].
      destruct (NumFacts.geb_spec p 80); [lra|].
      destruct (NumFacts.geb_spec p 70); [lra|].
      destruct (NumFacts.geb_spec p 60); [lra|reflexivity]. }
  split.
  { apply Forall_forall. intros tr Htr. apply in_map_iff in Htr.
    destruct Htr as (run & <- & Hin).
    rewrite Forall_forall in Hfail. specialize (Hfail run Hin).
    unfold testResultOf, runFailed in *.
    destruct (run_detection run); [contradiction | |]; split; reflexivity. }
  intros Hne. destruct (Hp Hne) as (p & Eq & Ep).
  rewrite Hperc, Eq. cbn [option_map]. eexists. split; [reflexivity|].
  rewrite Hsum in Ep.
  assert (Hz : p == 0) by (rewrite Ep; unfold Qdiv; change (inject_Z 0) with 0; lra).
  assert (Hr : Num.round (p * 100) = 0%Z).
  { unfold Num.round. rewrite Hz. reflexivity. }
  rewrite Hr. reflexivity.
Qed.

Lemma batch_of_failures_scores_nothing_witness :
  Forall runFailed [brokenRun; brokenRun]
  /\ totalScore (runEvaluation (fun q => q) [brokenRun; brokenRun]) = 0%Z
  /\ grade (runEvaluation (fun q => q) [brokenRun; brokenRun]) = "F"%string.
Proof.
  assert (H : Forall runFailed [brokenRun; brokenRun]) by (repeat constructor).
  split; [exact H|].
  destruct (batch_of_failures_scores_nothing (fun q => q) [brokenRun; brokenRun] H)
    as (H1 & H2 & _).
  split; assumption.
Defined.

(** ** Grayscale conversion *)

Lemma clampToByte_range v : (0 <= clampToByte v <= 255)%Z.
Proof.
  unfold clampToByte.
  destruct (NumFacts.leb_spec v 0) as [|Hpos]; [lia|].
  destruct (NumFacts.leb_spec 255 v) as [|Hmax]; [lia|].
  assert (Hf : (0 <= Qfloor v <= 254)%Z).
  { split.
    - change 0%Z with (Qfloor 0). apply Qfloor_resp_le. lra.
    - assert (Qfloor v < 255)%Z; [|lia].
      rewrite Zlt_Qlt. eapply Qle_lt_trans; [apply Qfloor_le|].
      change (inject_Z 255) with 255. lra. }
  destruct (Num.ltb _ _); [lia|].
  destruct (Num.ltb _ _); [lia|].
  destruct (Z.even _); lia.
Qed.

Lemma clampToByte_nearest v :
  0 <= v <= 255 ->
  v - (1 # 2) <= inject_Z (clampToByte v) <= v + (1 # 2).
Proof.
  intros [H0 H255]. unfold clampToByte.
  destruct (NumFacts.leb_spec v 0); [change (inject_Z 0) with 0; split; lra|].
  destruct (NumFacts.leb_spec 255 v); [change (inject_Z 255) with 255; split; lra|].
  pose proof (Qfloor_le v) as Hl. pose proof (Qlt_floor v) as Hu.
  rewrite inject_Z_plus in Hu. change (inject_Z 1) with 1 in Hu.
  destruct (NumFacts.ltb_spec (v - inject_Z (Qfloor v)) (1 # 2)); [split; lra|].
  destruct (NumFacts.ltb_spec (1 # 2) (v - inject_Z (Qfloor v))).
  { rewrite inject_Z_plus. change (inject_Z 1) with 1. split; lra. }
  destruct (Z.even (Qfloor v)); [split; lra|].
  rewrite inject_Z_plus. change (inject_Z 1) with 1. split; lra.
Qed.

Lemma toUint8Clamped_range v : (0 <= toUint8Clamped v <= 255)%Z.
Proof.
  unfold toUint8Clamped. destruct (Double.value v); [apply clampToByte_range|].
  destruct (PrimFloat.ltb 0 v); lia.
Qed.

(** The 256 gray levels, each converted and compared with itself. *)
Lemma gray_levels_kept :
  forallb (fun level => (toUint8Clamped (luminance level level level) =? level)%Z)
          (upto 256) = true.
Proof. vm_compute. reflexivity. Qed.

(** X11.  The conversion to a byte of a [Uint8ClampedArray] gives a value
    between 0 and 255 that is within one half of a number in that range, and
    the luminance of a gray pixel (equal red, green and blue samples) is
    stored as its gray level: such a pixel goes through the grayscale
    conversion unchanged. *)
Theorem gray_pixels_keep_their_level (v : float) (level : Z) :
  (0 <= toUint8Clamped v <= 255)%Z
  /\ (forall q, Double.value v = Some q -> 0 <= q <= 255 ->
      q - (1 # 2) <= inject_Z (toUint8Clamped v) <= q + (1 # 2))
  /\ ((0 <= level <= 255)%Z ->
      toUint8Clamped (luminance level level level) = level).
Proof.
  split; [apply toUint8Clamped_range|]. split.
  - intros q Hq Hr. unfold toUint8Clamped. rewrite Hq. now apply clampToByte_nearest.
  - intros H. pose proof gray_levels_kept as Hall.
    rewrite forallb_forall in Hall. apply Z.eqb_eq. apply Hall.
    unfold upto. apply in_map_iff. exists (Z.to_nat level).
    split; [lia|]. apply in_seq. lia.
Qed.

Lemma grayAt_short data k :
  (length data <= 3)%nat -> grayAt data (S k) = None.
Proof.
  intros H. unfold grayAt.
  assert (E : nth_error data (4 * S k) = None) by (apply nth_error_None; lia).
  now rewrite E.
Qed.

Lemma grayAt_next r g b a rest k :
  grayAt (r :: g :: b :: a :: rest) (S k) = grayAt rest k.
Proof.
  unfold grayAt.
  replace (4 * S k)%nat with (S (S (S (S (4 * k))))) by lia.
  replace (S (S (S (S (4 * k)))) + 1)%nat with (S (S (S (S (4 * k + 1))))) by lia.
  replace (S (S (S (S (4 * k)))) + 2)%nat with (S (S (S (S (4 * k + 2))))) by lia.
  reflexivity.
Qed.

Lemma grayValues_nth data :
  forall k, nth_error (grayValues data) k = grayAt data k.
Proof.
  assert (H : forall n data, (length data <= n)%nat ->
                forall k, nth_error (grayValues data) k = grayAt data k).
  { clear data. induction n as [|n IH]; intros data Hlen k.
    - destruct data; [|cbn in Hlen; lia].
      unfold grayAt. now rewrite !nth_error_nil.
    - destruct data as [|r [|g [|b [|a rest]]]].
      + unfold grayAt. now rewrite !nth_error_nil.
      + destruct k as [|k]; [reflexivity|].
        rewrite grayAt_short by (cbn; lia). cbn. apply nth_error_nil.
      + destruct k as [|k]; [reflexivity|].
        rewrite grayAt_short by (cbn; lia). cbn. apply nth_error_nil.
      + destruct k as [|k]; [reflexivity|].
        rewrite grayAt_short by (cbn; lia). cbn. apply nth_error_nil.
      + destruct k as [|k]; [reflexivity|].
        rewrite grayAt_next. cbn [grayValues nth_error].
        apply IH. cbn in Hlen. lia. }
  intros k. apply (H (length data) data (Nat.le_refl _)).
Qed.

(** X12.  [gray] has one byte per pixel of the image, whatever the length of
    [data]; byte [k] is the luminance of the red, green and blue samples of
    pixel [k], computed in doubles and then rounded, the alpha sample playing
    no part; it is 0 for a pixel whose samples are missing from [data].  The
    colour (0, 80, 110), whose luminance the doubles put just below 59.5, is
    stored as 59. *)
Theorem grayscale_by_pixel (n : nat) (data : list Z) :
  length (grayscale n data) = n
  /\ Forall (fun v => (0 <= v <= 255)%Z) (grayscale n data)
  /\ (forall k, (k < n)%nat ->
       nth_error (grayscale n data) k
       = match nth_error data (4 * k), nth_error data (4 * k + 1),
               nth_error data (4 * k + 2) with
         | Some r, Some g, Some b => Some (toUint8Clamped (luminance r g b))
         | _, _, _ => Some 0%Z
         end)
  /\ luminance 0 80 110 = 59.49999999999999%float
  /\ grayscale 2 [0; 80; 110; 255; 60; 60; 60; 255]%Z = [59; 60]%Z.
Proof.
  assert (Hnth : forall k, (k < n)%nat ->
            nth_error (grayscale n data) k
            = match grayAt data k with Some v => Some v | None => Some 0%Z end).
  { intros k Hk. unfold grayscale. rewrite nth_error_firstn.
    destruct (Nat.ltb_spec k n); [|lia].
    destruct (Nat.lt_ge_cases k (length (grayValues data))) as [Hin|Hout].
    - rewrite nth_error_app1 by assumption. rewrite grayValues_nth.
      destruct (grayAt data k) eqn:E; [reflexivity|].
      rewrite <- grayValues_nth in E. apply nth_error_None in E. lia.
    - rewrite nth_error_app2 by assumption.
      assert (E : nth_error (grayValues data) k = None) by now apply nth_error_None.
      rewrite grayValues_nth in E. rewrite E.
      rewrite nth_error_repeat by lia. reflexivity. }
  split; [apply grayscale_length|]. split.
  - apply Forall_forall. intros v Hv. apply In_nth_error in Hv. destruct Hv as [k Hk].
    assert (Hlt : (k < n)%nat).
    { rewrite <- (grayscale_length n data). apply nth_error_Some. congruence. }
    rewrite (Hnth k Hlt) in Hk. unfold grayAt in Hk.
    destruct (nth_error data (4 * k)); [|injection Hk as <-; lia].
    destruct (nth_error data (4 * k + 1)), (nth_error data (4 * k + 2));
      injection Hk as <-; try lia; apply toUint8Clamped_range.
  - split; [|split; vm_compute; reflexivity].
    intros k Hk. rewrite (Hnth k Hk). unfold grayAt.
    destruct (nth_error data (4 * k)) eqn:E0; [|reflexivity].
    destruct (nth_error data (4 * k + 1)), (nth_error data (4 * k + 2)); reflexivity.
Qed.

(** ** Binarisation *)

Section BinarizeFacts.

Variable avg : option Q.

Lemma countPolarity_fold gray :
  forall dark light,
    fold_left (fun '(darkPixels, lightPixels) g =>
                 if belowAvg avg g then (darkPixels + 1, lightPixels)%Z
                 else (darkPixels, lightPixels + 1)%Z)
              gray (dark, light)
    = ((dark + Z.of_nat (length (filter (belowAvg avg) gray)))%Z,
       (light + Z.of_nat (length (filter (fun g => negb (belowAvg avg g)) gray)))%Z).
Proof.
  induction gray as [|g gray IH]; intros dark light; cbn [fold_left filter].
  - cbn. f_equal; lia.
  - destruct (belowAvg avg g); cbn [negb length]; rewrite IH; f_equal; lia.
Qed.

Lemma filter_split_length {A} (f : A -> bool) l :
  (length (filter f l) + length (filter (fun a => negb (f a)) l) = length l)%nat.
Proof.
  induction l as [|a l IH]; [reflexivity|]. cbn.
  destruct (f a); cbn; lia.
Qed.

Lemma above_not_below g : aboveAvg avg g = true -> belowAvg avg g = false.
Proof.
  unfold aboveAvg, belowAvg. destruct avg as [a|]; [|discriminate].
  intros H. apply NumFacts.ltb_true in H.
  destruct (NumFacts.ltb_spec (inject_Z g) a); [lra | reflexivity].
Qed.

Lemma filter_length_le_of_imp {A} (f g : A -> bool) l :
  (forall a, f a = true -> g a = true) ->
  (length (filter f l) <= length (filter g l))%nat.
Proof.
  intros H. induction l as [|a l IH]; [reflexivity|]. cbn.
  destruct (f a) eqn:E.
  - rewrite (H a E). cbn. lia.
  - destruct (g a); cbn; lia.
Qed.

Lemma foregroundCount_map (test : Z -> bool) gray :
  foregroundCount (map (fun g => if test g then 1%Z else 0%Z) gray)
  = Z.of_nat (length (filter test gray)).
Proof.
  unfold foregroundCount. f_equal.
  induction gray as [|g gray IH]; [reflexivity|]. cbn [map filter].
  destruct (test g); cbn; now rewrite IH.
Qed.

End BinarizeFacts.

Lemma sumOf_fold gray : forall a, fold_left Z.add gray a = (a + sumOf gray)%Z.
Proof.
  unfold sumOf. induction gray as [|g gray IH]; intros a; cbn [fold_left]; [lia|].
  rewrite IH, (IH (0 + g)%Z). lia.
Qed.

Lemma sumOf_uniform v gray :
  Forall (eq v) gray -> sumOf gray = (v * Z.of_nat (length gray))%Z.
Proof.
  induction 1 as [|g gray <- _ IH]; [cbn; lia|].
  unfold sumOf in *. cbn [fold_left length]. rewrite sumOf_fold. unfold sumOf.
  rewrite IH. lia.
Qed.

Lemma binarize_flags gray : Forall (fun b => b = 0%Z \/ b = 1%Z) (binarize gray).
Proof.
  unfold binarize. destruct (countPolarity _ gray) as [dark light].
  apply Forall_forall. intros b Hb. apply in_map_iff in Hb.
  destruct Hb as (g & <- & _).
  destruct (light <? dark)%Z; [destruct (aboveAvg _ g) | destruct (belowAvg _ g)]; auto.
Qed.

Lemma binarize_minority gray :
  (2 * foregroundCount (binarize gray) <= Z.of_nat (length gray))%Z.
Proof.
  unfold binarize.
  set (avg := Num.jsDiv (inject_Z (sumOf gray)) (inject_Z (Z.of_nat (length gray)))).
  unfold countPolarity. rewrite countPolarity_fold.
  pose proof (filter_split_length (belowAvg avg) gray) as Hsplit.
  set (dark := length (filter (belowAvg avg) gray)) in *.
  set (light := length (filter (fun g => negb (belowAvg avg g)) gray)) in *.
  destruct (Z.ltb_spec (0 + Z.of_nat light) (0 + Z.of_nat dark)) as [Hlt|Hge].
  - rewrite (foregroundCount_map (aboveAvg avg)).
    assert (Habove : (length (filter (aboveAvg avg) gray) <= light)%nat).
    { apply filter_length_le_of_imp. intros g Hg.
      now rewrite (above_not_below avg g Hg). }
    lia.
  - rewrite (foregroundCount_map (belowAvg avg)). fold dark. lia.
Qed.

(** X13.  The mask has one flag per pixel, each 0 or 1; the foreground is the
    minority: at most half of the pixels are foreground; and an image of one
    gray level has no foreground at all. *)
Theorem binarize_foreground_is_minority (gray : list Z) :
  length (binarize gray) = length gray
  /\ Forall (fun b => b = 0%Z \/ b = 1%Z) (binarize gray)
  /\ (2 * foregroundCount (binarize gray) <= Z.of_nat (length gray))%Z
  /\ (forall v, Forall (eq v) gray -> Forall (eq 0%Z) (binarize gray)).
Proof.
  split; [apply binarize_length|].
  split; [apply binarize_flags|].
  split; [apply binarize_minority|].
  unfold binarize.
  set (avg := Num.jsDiv (inject_Z (sumOf gray)) (inject_Z (Z.of_nat (length gray)))).
  unfold countPolarity. rewrite countPolarity_fold.
  intros v Huni.
  assert (Hnone : forall g, In g gray ->
            belowAvg avg g = false /\ aboveAvg avg g = false).
  { intros g Hg. rewrite Forall_forall in Huni. rewrite <- (Huni g Hg).
    unfold belowAvg, aboveAvg, avg, Num.jsDiv.
    destruct (NumFacts.is_zero_spec (inject_Z (Z.of_nat (length gray)))) as [|Hn];
      [split; reflexivity|].
    assert (Ha : inject_Z (sumOf gray) / inject_Z (Z.of_nat (length gray))
                 == inject_Z v).
    { rewrite (sumOf_uniform v gray (proj2 (Forall_forall _ _) Huni)).
      rewrite inject_Z_mult. field. exact Hn. }
    split.
    - destruct (NumFacts.ltb_spec (inject_Z v)
                  (inject_Z (sumOf gray) / inject_Z (Z.of_nat (length gray))));
        [lra | reflexivity].
    - destruct (NumFacts.gtb_spec (inject_Z v)
                  (inject_Z (sumOf gray) / inject_Z (Z.of_nat (length gray))));
        [lra | reflexivity]. }
  apply Forall_forall. intros b Hb. apply in_map_iff in Hb.
  destruct Hb as (g & <- & Hg). destruct (Hnone g Hg) as [-> ->].
  now destruct (_ <? _)%Z.
Qed.

(** ** Corner sampling *)

Lemma cornerIndices_spec n i :
  In i (cornerIndices n) <-> (i < n)%nat /\ (i mod (n / 20 + 1) = 0)%nat.
Proof.
  unfold cornerIndices. set (step := (n / 20 + 1)%nat).
  assert (Hstep : (0 < step)%nat) by (unfold step; lia).
  rewrite in_map_iff. split.
  - intros (k & <- & Hk). apply in_seq in Hk. split.
    + assert ((k + 1) * step <= n + step - 1)%nat; [|lia].
      apply Nat.le_trans with (((n + step - 1) / step) * step)%nat.
      * apply Nat.mul_le_mono_r. lia.
      * rewrite Nat.mul_comm. apply Nat.Div0.mul_div_le.
    + apply Nat.Div0.mod_mul.
  - intros [Hlt Hmod]. exists (i / step)%nat. split.
    + pose proof (Nat.div_mod_eq i step). lia.
    + apply in_seq. split; [lia|]. rewrite Nat.add_0_l.
      assert (S (i / step) <= (n + step - 1) / step)%nat; [|lia].
      apply Nat.div_le_lower_bound; [lia|].
      pose proof (Nat.div_mod_eq i step). lia.
Qed.

Lemma cornerIndices_length n : (length (cornerIndices n) <= 20)%nat.
Proof.
  unfold cornerIndices. rewrite length_map, length_seq.
  set (step := (n / 20 + 1)%nat).
  assert ((n + step - 1) / step < 21)%nat; [|lia].
  apply Nat.Div0.div_lt_upper_bound.
  pose proof (Nat.div_mod_eq n 20). pose proof (Nat.mod_upper_bound n 20). unfold step. lia.
Qed.

Lemma count_fold_bounds {A} (test : A -> bool) l :
  forall c,
    (c <= fold_left (fun corners i => if test i then corners + 1 else corners) l c
     <= c + Z.of_nat (length l))%Z.
Proof.
  induction l as [|a l IH]; intros c; cbn [fold_left length]; [lia|].
  specialize (IH (if test a then c + 1 else c)%Z). destruct (test a); lia.
Qed.

(** X14.  The corner loop looks at the indices below the length of
    [boundary] that are multiples of its stride [floor(length / 20) + 1]: at
    most 20 of them, whatever the length.  The corner count of a region
    therefore lies between 0 and 20. *)
Theorem corner_count_at_most_20
  (Math_sqrt Math_acos : Q -> Q) (boundary : list Pixel) :
  (forall i, In i (cornerIndices (length boundary))
             <-> (i < length boundary)%nat
                 /\ (i mod (length boundary / 20 + 1) = 0)%nat)
  /\ (length (cornerIndices (length boundary)) <= 20)%nat
  /\ (0 <= countCorners Math_sqrt Math_acos boundary <= 20)%Z.
Proof.
  split; [intros i; apply cornerIndices_spec|].
  split; [apply cornerIndices_length|].
  unfold countCorners.
  pose proof (count_fold_bounds (isCorner Math_sqrt Math_acos boundary)
                (cornerIndices (length boundary)) 0) as H.
  pose proof (cornerIndices_length (length boundary)). lia.
Qed.

(** ** The regions of the segmentation *)

(** ** The segmentation *)

Lemma outOfBounds_false width height x y :
  outOfBounds width height x y = false <-> insideImage width height (x, y).
Proof.
  unfold outOfBounds, insideImage. cbn [fst snd].
  rewrite !orb_false_iff, !Z.ltb_ge, !Z.geb_leb, !Z.leb_gt. lia.
Qed.

Lemma indexOf_injective width height p q :
  insideImage width height p -> insideImage width height q ->
  indexOf width p = indexOf width q -> p = q.
Proof.
  destruct p as [px py], q as [qx qy].
  unfold insideImage, indexOf, index. cbn [fst snd]. intros [Hx Hy] [Hx' Hy'] E.
  assert (py = qy) by nia. subst. f_equal. lia.
Qed.

Lemma dirs_symmetric d : In d dirs -> In (- fst d, - snd d)%Z dirs.
Proof.
  unfold dirs. cbn [In].
  intros [<-|[<-|[<-|[<-|[<-|[<-|[<-|[<-|[]]]]]]]]]; cbn; tauto.
Qed.

Lemma neighbor_back p d : neighbor (neighbor p d) (- fst d, - snd d)%Z = p.
Proof. destruct p. unfold neighbor. cbn. f_equal; lia. Qed.

Lemma adjacent_sym p n : adjacent p n -> adjacent n p.
Proof.
  intros (d & Hd & ->). exists (- fst d, - snd d)%Z.
  split; [now apply dirs_symmetric | now rewrite neighbor_back].
Qed.

Lemma pathIn_incl S S' a b : incl S S' -> pathIn S a b -> pathIn S' a b.
Proof.
  intros Hincl. induction 1 as [Ha|b c _ IH Hc Hadj].
  - apply path_here. now apply Hincl.
  - eapply path_step; [exact IH | now apply Hincl | assumption].
Qed.

Lemma pathIn_start S a b : pathIn S a b -> In a S.
Proof. induction 1; assumption. Qed.

Lemma pathIn_trans S a b c : pathIn S a b -> pathIn S b c -> pathIn S a c.
Proof.
  intros Hab. induction 1 as [_|c' c'' _ IH Hc Hadj]; [assumption|].
  eapply path_step; eassumption.
Qed.

Lemma pathIn_sym S a b : pathIn S a b -> pathIn S b a.
Proof.
  induction 1 as [Ha|b c Hab IH Hc Hadj].
  - now apply path_here.
  - apply pathIn_trans with b; [|assumption].
    eapply path_step; [apply path_here; exact Hc | now apply (pathIn_start S b a)
                      | now apply adjacent_sym].
Qed.

Lemma truthy_set_inv a i j :
  TypedArray.truthy (TypedArray.set a i 1) j = true ->
  j = i \/ TypedArray.truthy a j = true.
Proof.
  intros H. destruct (Z.eq_dec i j) as [->|N]; [now left|right].
  unfold TypedArray.truthy in *.
  now rewrite (TypedArrayFacts.get_set_other _ _ _ _ N) in H.
Qed.

Section FillFacts.

Variables (width height : Z) (binary v0 : list Z) (start : Pixel).

Lemma fillInv_equiv done done' visited q q' :
  (forall p, In p (q ++ done) <-> In p (q' ++ done')) ->
  fillInv width height binary v0 start done (visited, q) ->
  fillInv width height binary v0 start done' (visited, q').
Proof.
  intros Heq [Hfg Hmono Hnew Hpath]. cbn [fst snd] in *. split; cbn [fst snd].
  - intros p Hp. apply Hfg. now apply Heq.
  - assumption.
  - intros i Hi. destruct (Hnew i Hi) as [?|(p & Hp & E)]; [now left|right].
    exists p. split; [now apply Heq | assumption].
  - intros p Hp. apply pathIn_incl with (q ++ done).
    + intros x Hx. now apply Heq.
    + apply Hpath. now apply Heq.
Qed.

Lemma visitNeighbor_mono c st d i :
  TypedArray.truthy (fst st) i = true ->
  TypedArray.truthy (fst (visitNeighbor width height binary c st d)) i = true.
Proof.
  destruct st as [visited q]. unfold visitNeighbor. cbn [fst].
  destruct (outOfBounds _ _ _ _); [trivial|].
  destruct (_ && _); [|trivial]. cbn [fst]. apply TypedArrayFacts.truthy_set.
Qed.

Lemma visitNeighbors_mono c ds i :
  forall st,
    TypedArray.truthy (fst st) i = true ->
    TypedArray.truthy (fst (fold_left (visitNeighbor width height binary c) ds st)) i
    = true.
Proof.
  induction ds as [|d ds IH]; intros st H; cbn [fold_left]; [assumption|].
  apply IH. now apply visitNeighbor_mono.
Qed.

(** After the turn of direction [d] the neighbour in that direction is
    flagged if it is a foreground pixel of the image. *)
Lemma visitNeighbor_flags c st d :
  length (fst st) = length binary ->
  insideImage width height (neighbor c d) -> foreground width binary (neighbor c d) ->
  TypedArray.truthy (fst (visitNeighbor width height binary c st d))
                    (indexOf width (neighbor c d)) = true.
Proof.
  intros Hlen Hin Hfg. destruct st as [visited q]. unfold visitNeighbor.
  apply outOfBounds_false in Hin. unfold neighbor in *. cbn [fst snd] in *.
  rewrite Hin. unfold foreground, indexOf in Hfg. cbn [fst snd] in Hfg. rewrite Hfg.
  unfold indexOf. cbn [fst snd andb].
  destruct (TypedArray.truthy visited _) eqn:Hv; cbn [negb fst]; [assumption|].
  destruct (TypedArrayFacts.equals_range _ _ _ Hfg) as [H0 H1].
  apply TypedArrayFacts.truthy_set_same; [assumption | now rewrite Hlen].
Qed.

Lemma visitNeighbor_length c st d :
  length (fst (visitNeighbor width height binary c st d)) = length (fst st).
Proof.
  destruct st as [visited q]. unfold visitNeighbor. cbn [fst].
  destruct (outOfBounds _ _ _ _); [reflexivity|].
  destruct (_ && _); [|reflexivity]. cbn [fst]. apply TypedArrayFacts.set_length.
Qed.

Lemma visitNeighbors_flag_all c ds :
  forall st,
    length (fst st) = length binary ->
    forall d, In d ds ->
      insideImage width height (neighbor c d) -> foreground width binary (neighbor c d) ->
      TypedArray.truthy (fst (fold_left (visitNeighbor width height binary c) ds st))
                        (indexOf width (neighbor c d)) = true.
Proof.
  induction ds as [|d0 ds IH]; intros st Hlen d Hd Hin Hfg; [destruct Hd|].
  cbn [fold_left]. destruct Hd as [->|Hd].
  - apply visitNeighbors_mono. now apply visitNeighbor_flags.
  - apply IH; try assumption. now rewrite visitNeighbor_length.
Qed.

Lemma visitNeighbor_fill done c st d :
  In c done -> In d dirs ->
  fillInv width height binary v0 start done st ->
  fillInv width height binary v0 start done (visitNeighbor width height binary c st d).
Proof.
  intros Hc Hd Hinv. destruct st as [visited q]. unfold visitNeighbor.
  destruct (outOfBounds width height (fst c + fst d) (snd c + snd d)) eqn:Ho;
    [assumption|].
  destruct (TypedArray.equals binary (index width (fst c + fst d) (snd c + snd d)) 1)
    eqn:Hb; [|assumption].
  destruct (TypedArray.truthy visited (index width (fst c + fst d) (snd c + snd d)))
    eqn:Hv; [assumption|].
  cbn [andb negb]. destruct Hinv as [Hfg Hmono Hnew Hpath]. cbn [fst snd] in *.
  set (n := ((fst c + fst d)%Z, (snd c + snd d)%Z)) in *.
  split; cbn [fst snd app].
  - intros p [<-|Hp]; [|now apply Hfg].
    split; [now apply outOfBounds_false|]. split; [exact Hb|].
    destruct (TypedArray.truthy v0 (indexOf width n)) eqn:E; [|reflexivity].
    apply Hmono in E. unfold indexOf in E. cbn [fst snd n] in E. congruence.
  - intros i Hi. apply TypedArrayFacts.truthy_set. now apply Hmono.
  - intros i Hi. apply truthy_set_inv in Hi. destruct Hi as [->|Hi].
    + right. exists n. split; [now left | reflexivity].
    + destruct (Hnew i Hi) as [?|(p & Hp & E)]; [now left|right].
      exists p. split; [now right | assumption].
  - intros p [<-|Hp].
    + apply path_step with c.
      * apply pathIn_incl with (q ++ done); [intros x Hx; now right|].
        apply Hpath. apply in_or_app. now right.
      * now left.
      * exists d. split; [assumption | reflexivity].
    + apply pathIn_incl with (q ++ done); [intros x Hx; now right|]. now apply Hpath.
Qed.

Lemma visitNeighbors_fill done c ds :
  In c done -> incl ds dirs ->
  forall st,
    fillInv width height binary v0 start done st ->
    fillInv width height binary v0 start done
            (fold_left (visitNeighbor width height binary c) ds st).
Proof.
  intros Hc. induction ds as [|d ds IH]; intros Hincl st Hinv; cbn [fold_left];
    [assumption|].
  apply IH; [intros x Hx; apply Hincl; now right|].
  apply visitNeighbor_fill; try assumption. apply Hincl. now left.
Qed.

Lemma visitNeighbors_stack c ds :
  forall st p,
    In p (snd st) ->
    In p (snd (fold_left (visitNeighbor width height binary c) ds st)).
Proof.
  induction ds as [|d ds IH]; intros st p Hp; cbn [fold_left]; [assumption|].
  apply IH. destruct st as [visited q]. unfold visitNeighbor. cbn [snd] in *.
  destruct (outOfBounds _ _ _ _); [assumption|].
  destruct (_ && _); [now right | assumption].
Qed.

(** What the flood fill returns. *)
Lemma floodLoop_fill :
  forall fuel q visited pixels visited' pixels',
    floodInv width binary pixels (visited, q) ->
    fillInv width height binary v0 start pixels (visited, q) ->
    neighborsFlagged width height binary visited pixels ->
    floodLoop width height binary fuel q visited pixels = Returned (visited', pixels') ->
    floodInv width binary pixels' (visited', [])
    /\ fillInv width height binary v0 start pixels' (visited', [])
    /\ neighborsFlagged width height binary visited' pixels'
    /\ incl (q ++ pixels) pixels'.
Proof.
  induction fuel as [|fuel IH]; intros q visited pixels visited' pixels' Hbase Hfill Hcl Hret.
  - destruct q; [|discriminate]. cbn in Hret. injection Hret as <- <-.
    split; [exact Hbase | split; [exact Hfill | split; [exact Hcl | apply incl_refl]]].
  - destruct q as [|c q'].
    { cbn in Hret. injection Hret as <- <-.
      split; [exact Hbase | split; [exact Hfill | split; [exact Hcl | apply incl_refl]]]. }
    cbn [floodLoop] in Hret.
    assert (Hbase0 : floodInv width binary (c :: pixels) (visited, q')).
    { destruct Hbase as [Hl Hn Hm]. cbn [fst snd] in *. split; cbn [fst snd].
      - assumption.
      - eapply Permutation_NoDup; [|exact Hn]. cbn [app]. apply Permutation_middle.
      - intros p Hp. apply Hm. eapply Permutation_in; [|exact Hp].
        apply Permutation_sym. cbn [app]. apply Permutation_middle. }
    assert (Hfill0 : fillInv width height binary v0 start (c :: pixels) (visited, q')).
    { eapply fillInv_equiv; [|exact Hfill]. intros p. cbn [app In].
      rewrite !in_app_iff. cbn [In]. tauto. }
    destruct (visitNeighbors_inv width height binary (c :: pixels) c dirs _ Hbase0)
      as [Hbase1 _].
    pose proof (visitNeighbors_fill (c :: pixels) c dirs (or_introl eq_refl)
                  (incl_refl _) _ Hfill0) as Hfill1.
    pose proof (fun d Hd Hin Hfg =>
                  visitNeighbors_flag_all c dirs (visited, q')
                    (inv_length _ _ _ _ Hbase0) d Hd Hin Hfg) as Hflag.
    pose proof (fun i => visitNeighbors_mono c dirs i (visited, q')) as Hmono.
    pose proof (visitNeighbors_stack c dirs (visited, q')) as Hstack.
    destruct (fold_left (visitNeighbor width height binary c) dirs (visited, q'))
      as [visited1 q1] eqn:E.
    cbn [fst snd] in *.
    destruct (IH q1 visited1 (pixels ++ [c]) visited' pixels') as (R1 & R2 & R3 & R4);
      try assumption.
    + eapply floodInv_perm; [|exact Hbase1]. apply Permutation_cons_append.
    + eapply fillInv_equiv; [|exact Hfill1]. intros p.
      rewrite !in_app_iff. cbn [In]. tauto.
    + intros p d Hp Hd Hin Hfg. apply in_app_or in Hp. destruct Hp as [Hp|[<-|[]]].
      * apply Hmono. now apply (Hcl p d).
      * now apply Hflag.
    + split; [exact R1 | split; [exact R2 | split; [exact R3|]]].
      intros p Hp. apply R4. cbn [app] in Hp. rewrite !in_app_iff. cbn [In].
      destruct Hp as [<-|Hp]; [tauto|].
      apply in_app_or in Hp. destruct Hp as [Hp|Hp]; [|tauto].
      left. now apply Hstack.
Qed.

End FillFacts.

Section ScanFacts.

Variables (width height : Z) (binary : list Z).

Hypothesis binary_length : length binary = Z.to_nat (width * height).
Hypothesis binary_flags : Forall (fun b => b = 0%Z \/ b = 1%Z) binary.

(** Inside the image a pixel is foreground unless the mask has 0 for it. *)
Lemma foreground_or_background p :
  insideImage width height p ->
  TypedArray.equals binary (indexOf width p) 0 = false ->
  foreground width binary p.
Proof.
  destruct p as [x y]. intros Hin H0.
  destruct (index_range width height x y Hin) as [Hi0 Hi1].
  rewrite <- binary_length in Hi1.
  unfold foreground, indexOf, TypedArray.equals, TypedArray.get in *. cbn [fst snd] in *.
  destruct (Z.ltb_spec (index width x y) 0); [lia|].
  destruct (nth_error binary (Z.to_nat (index width x y))) as [v|] eqn:E.
  - apply nth_error_In in E. rewrite Forall_forall in binary_flags.
    destruct (binary_flags v E) as [-> | ->]; [discriminate | reflexivity].
  - apply nth_error_None in E. lia.
Qed.

Lemma foreground_not_background p :
  foreground width binary p -> TypedArray.equals binary (indexOf width p) 0 = false.
Proof.
  unfold foreground, TypedArray.equals.
  destruct (TypedArray.get binary (indexOf width p)) as [v|]; [|discriminate].
  intros H. apply Z.eqb_eq in H. now subst.
Qed.

Lemma floodFill_fill visited x y visited' pixels :
  length visited = length binary ->
  insideImage width height (x, y) -> foreground width binary (x, y) ->
  TypedArray.truthy visited (index width x y) = false ->
  floodFill width height binary visited x y = Returned (visited', pixels) ->
  floodInv width binary pixels (visited', [])
  /\ fillInv width height binary visited (x, y) pixels (visited', [])
  /\ neighborsFlagged width height binary visited' pixels
  /\ In (x, y) pixels.
Proof.
  intros Hlen Hin Hfg Hv Hret. unfold floodFill in Hret.
  destruct (TypedArrayFacts.equals_range _ _ _ Hfg) as [H0 H1].
  unfold indexOf in H0, H1. cbn [fst snd] in H0, H1. rewrite <- Hlen in H1.
  edestruct (floodLoop_fill width height binary visited (x, y)) as (R1 & R2 & R3 & R4);
    [| | |exact Hret|].
  - split; cbn [fst snd app].
    + now rewrite TypedArrayFacts.set_length.
    + repeat constructor. intros [].
    + intros p [<-|[]]. unfold indexOf. cbn [fst snd].
      now apply TypedArrayFacts.truthy_set_same.
  - split; cbn [fst snd app].
    + intros p [<-|[]]. split; [exact Hin | split; [exact Hfg | exact Hv]].
    + intros i Hi. now apply TypedArrayFacts.truthy_set.
    + intros i Hi. apply truthy_set_inv in Hi. destruct Hi as [->|Hi]; [right|now left].
      exists (x, y). split; [now left | reflexivity].
    + intros p [<-|[]]. apply path_here. now left.
  - intros p d [].
  - split; [exact R1 | split; [exact R2 | split; [exact R3|]]].
    apply R4. now left.
Qed.

(** A region just filled joins the regions of the scan. *)
Lemma scanInv_step visited regions start visited' pixels :
  scanInv width height binary visited regions ->
  floodInv width binary pixels (visited', []) ->
  fillInv width height binary visited start pixels (visited', []) ->
  neighborsFlagged width height binary visited' pixels ->
  In start pixels ->
  scanInv width height binary visited' (regions ++ [pixels]).
Proof.
  intros [Sl Sn Sfg Sfl Scl Sco] [Bl Bn Bm] [Ffg Fmono Fnew Fpath] Hflag Hstart.
  cbn [fst snd app] in *.
  assert (Hconcat : forall p, In p (concat (regions ++ [pixels]))
                              <-> In p (concat regions) \/ In p pixels).
  { intros p. rewrite concat_app, in_app_iff. cbn. now rewrite app_nil_r. }
  split.
  - assumption.
  - rewrite concat_app. cbn [concat]. rewrite app_nil_r.
    apply NoDup_app; try assumption.
    intros p Hold Hnew.
    destruct (Sfg p Hold) as (_ & _ & Ht). destruct (Ffg p Hnew) as (_ & _ & Hf).
    congruence.
  - intros p Hp. apply Hconcat in Hp. destruct Hp as [Hp|Hp].
    + destruct (Sfg p Hp) as (A & B & C).
      split; [exact A | split; [exact B | now apply Fmono]].
    + destruct (Ffg p Hp) as (A & B & _).
      split; [exact A | split; [exact B | now apply Bm]].
  - intros i Hi. destruct (Fnew i Hi) as [Hold|(p & Hp & E)].
    + destruct (Sfl i Hold) as (p & Hp & E). exists p. split; [|assumption].
      apply Hconcat. now left.
    + exists p. split; [|assumption]. apply Hconcat. now right.
  - intros r p d Hr Hp Hd Hin Hfg. apply in_app_or in Hr.
    destruct Hr as [Hr|[<-|[]]]; [now apply (Scl r p d)|].
    specialize (Hflag p d Hp Hd Hin Hfg).
    destruct (Fnew _ Hflag) as [Hold|(p' & Hp' & E)].
    + exfalso. destruct (Sfl _ Hold) as (p' & Hp' & E).
      destruct (Sfg p' Hp') as (A & _ & _).
      apply (indexOf_injective width height p' (neighbor p d) A Hin) in E. subst p'.
      apply in_concat in Hp'. destruct Hp' as (r' & Hr' & Hn).
      destruct (Ffg p Hp) as (Ap & Bp & Cp).
      assert (Hback : In p r').
      { rewrite <- (neighbor_back p d).
        apply (Scl r' (neighbor p d) (- fst d, - snd d)%Z); try assumption.
        - now apply dirs_symmetric.
        - now rewrite neighbor_back.
        - now rewrite neighbor_back. }
      assert (Hc : In p (concat regions)) by (apply in_concat; eauto).
      destruct (Sfg p Hc) as (_ & _ & Ht). congruence.
    + destruct (Ffg p' Hp') as (A & _ & _).
      apply (indexOf_injective width height p' (neighbor p d) A Hin) in E. now subst.
  - intros r Hr. apply in_app_or in Hr. destruct Hr as [Hr|[<-|[]]]; [now apply Sco|].
    exists start. split; [assumption|]. intros p Hp. now apply Fpath.
Qed.

(** The scan over [coords]: what it returns satisfies the invariant and
    holds every foreground pixel of [coords]. *)
Lemma scanLoop_components :
  forall coords visited regions out,
    Forall (insideImage width height) coords ->
    scanInv width height binary visited regions ->
    scanLoop width height binary (fun pixels => Returned (Some pixels))
             coords visited regions
    = Returned out ->
    (exists visited', scanInv width height binary visited' out)
    /\ (forall p, In p (concat regions) -> In p (concat out))
    /\ (forall c, In c coords -> foreground width binary c -> In c (concat out)).
Proof.
  induction coords as [|[x y] rest IH]; intros visited regions out Hin Hinv Hret.
  - cbn in Hret. injection Hret as <-. split; [eauto|]. split; [auto|]. intros c [].
  - cbn [scanLoop] in Hret. inversion Hin as [|? ? Hxy Hrest]; subst.
    destruct (TypedArray.equals binary (index width x y) 0) eqn:Hzero.
    { cbn [orb] in Hret. destruct (IH _ _ _ Hrest Hinv Hret) as (R1 & R2 & R3).
      split; [assumption|]. split; [assumption|].
      intros c [<-|Hc] Hfg; [|now apply R3].
      apply foreground_not_background in Hfg. unfold indexOf in Hfg. cbn [fst snd] in Hfg.
      congruence. }
    destruct (TypedArray.truthy visited (index width x y)) eqn:Hv.
    { cbn [orb] in Hret. destruct (IH _ _ _ Hrest Hinv Hret) as (R1 & R2 & R3).
      split; [assumption|]. split; [assumption|].
      intros c [<-|Hc] Hfg; [|now apply R3].
      apply R2. destruct (si_flagged _ _ _ _ _ Hinv _ Hv) as (p & Hp & E).
      destruct (si_fg _ _ _ _ _ Hinv p Hp) as (A & _ & _).
      apply (indexOf_injective width height p (x, y) A Hxy) in E. now subst. }
    cbn [orb] in Hret.
    assert (Hfg : foreground width binary (x, y))
      by (apply foreground_or_background; assumption).
    destruct (floodFill width height binary visited x y) as [[visited' pixels]| |] eqn:Ef;
      try discriminate.
    destruct (floodFill_fill visited x y visited' pixels
                (si_length _ _ _ _ _ Hinv) Hxy Hfg Hv Ef) as (F1 & F2 & F3 & F4).
    pose proof (scanInv_step visited regions (x, y) visited' pixels Hinv F1 F2 F3 F4)
      as Hinv'.
    destruct (IH _ _ _ Hrest Hinv' Hret) as (R1 & R2 & R3).
    assert (Hgrow : forall p, In p (concat regions) \/ In p pixels ->
                              In p (concat out)).
    { intros p Hp. apply R2. rewrite concat_app, in_app_iff. cbn. now rewrite app_nil_r. }
    split; [assumption|]. split; [intros p Hp; apply Hgrow; now left|].
    intros c [<-|Hc] Hfgc; [|now apply R3]. apply Hgrow. now right.
Qed.

End ScanFacts.

Lemma upto_complete n i : (0 <= i < n)%Z -> In i (upto n).
Proof.
  intros H. unfold upto. apply in_map_iff. exists (Z.to_nat i).
  split; [lia|]. apply in_seq. lia.
Qed.

Lemma scanOrder_complete width height p :
  insideImage width height p -> In p (scanOrder width height).
Proof.
  destruct p as [x y]. intros [Hx Hy]. cbn [fst snd] in *.
  unfold scanOrder. apply in_flat_map. exists y.
  split; [now apply upto_complete|].
  apply in_map_iff. exists x. split; [reflexivity | now apply upto_complete].
Qed.

(** The regions of an image satisfy the invariant of the scan and hold all
    of its foreground. *)
Lemma regionsOf_components imageData regions :
  regionsOf imageData = Returned regions ->
  let width := img_width imageData in
  let height := img_height imageData in
  (exists visited, scanInv width height (maskOf imageData) visited regions)
  /\ (forall p, insideImage width height p -> foreground width (maskOf imageData) p ->
                In p (concat regions)).
Proof.
  intros Hret. cbn zeta. unfold regionsOf, TypedArray.create in Hret.
  destruct (Z.ltb_spec (img_width imageData * img_height imageData) 0); [discriminate|].
  cbn [bind] in Hret.
  edestruct (scanLoop_components (img_width imageData) (img_height imageData)
               (maskOf imageData) (maskOf_length imageData) (binarize_flags _))
    as (R1 & _ & R3); [apply scanOrder_inside| |exact Hret|].
  - split; cbn [concat].
    + now rewrite repeat_length, maskOf_length.
    + constructor.
    + intros p [].
    + intros i Hi. exfalso. unfold TypedArray.truthy, TypedArray.get in Hi.
      destruct (i <? 0)%Z; [discriminate|].
      destruct (nth_error _ _) as [v|] eqn:E; [|discriminate].
      apply nth_error_In, repeat_spec in E. subst. discriminate.
    + intros r p d [].
    + intros r [].
  - split; [assumption|]. intros p Hin Hfg. apply R3; [|assumption].
    now apply scanOrder_complete.
Qed.

(** X15.  The regions filled by the scan of [detectShapes] partition the
    foreground of the mask: no pixel occurs twice, in one region or in two,
    and the pixels of the regions are exactly the foreground pixels of the
    image. *)
Theorem regions_partition_the_foreground (imageData : ImageData)
  (regions : list (list Pixel)) :
  regionsOf imageData = Returned regions ->
  NoDup (concat regions)
  /\ forall p, In p (concat regions)
               <-> insideImage (img_width imageData) (img_height imageData) p
                   /\ foreground (img_width imageData) (maskOf imageData) p.
Proof.
  intros Hret. destruct (regionsOf_components imageData regions Hret) as ((v & Hinv) & Hall).
  split; [exact (si_nodup _ _ _ _ _ Hinv)|].
  intros p. split.
  - intros Hp. destruct (si_fg _ _ _ _ _ Hinv p Hp) as (A & B & _). now split.
  - intros [A B]. now apply Hall.
Qed.

Lemma regions_partition_the_foreground_witness :
  exists regions,
    regionsOf halfImage = Returned regions /\ NoDup (concat regions).
Proof.
  destruct (regionsOf halfImage) as [regions| |] eqn:E;
    [|vm_compute in E; discriminate|vm_compute in E; discriminate].
  exists regions. split; [reflexivity|].
  exact (proj1 (regions_partition_the_foreground halfImage regions E)).
Defined.

Lemma pathIn_linked width height binary S a b :
  (forall p, In p S -> insideImage width height p /\ foreground width binary p) ->
  pathIn S a b -> linked width height binary a b.
Proof.
  intros HS. induction 1 as [Ha|b c _ IH Hc Hadj].
  - destruct (HS a Ha). now apply linked_here.
  - destruct (HS c Hc). eapply linked_step; eassumption.
Qed.

(** X16.  Every region is a connected component of the foreground under
    8-neighbour adjacency: for any of its pixels it
    holds exactly the pixels reached from that pixel by steps to adjacent
    foreground pixels of the image. *)
Theorem regions_are_connected_components (imageData : ImageData)
  (regions : list (list Pixel)) (region : list Pixel) (p : Pixel) :
  regionsOf imageData = Returned regions ->
  In region regions -> In p region ->
  forall q, In q region
            <-> linked (img_width imageData) (img_height imageData)
                       (maskOf imageData) p q.
Proof.
  intros Hret Hr Hp q.
  destruct (regionsOf_components imageData regions Hret) as ((v & Hinv) & _).
  assert (Hfg : forall x, In x region ->
            insideImage (img_width imageData) (img_height imageData) x
            /\ foreground (img_width imageData) (maskOf imageData) x).
  { intros x Hx. assert (Hc : In x (concat regions)) by (apply in_concat; eauto).
    destruct (si_fg _ _ _ _ _ Hinv x Hc) as (A & B & _). now split. }
  split.
  - intros Hq. destruct (si_connected _ _ _ _ _ Hinv region Hr) as (s & _ & Hpath).
    apply pathIn_linked with region; [assumption|].
    apply pathIn_trans with s; [apply pathIn_sym|]; now apply Hpath.
  - induction 1 as [_ _|b c _ IH Hin Hfgc (d & Hd & ->)]; [assumption|].
    now apply (si_closed _ _ _ _ _ Hinv region b d).
Qed.

Lemma regions_are_connected_components_witness :
  exists regions region,
    regionsOf halfImage = Returned regions /\ In region regions
    /\ In (0, 0)%Z region
    /\ (In (17, 17)%Z region
        <-> linked 36 18 (maskOf halfImage) (0, 0)%Z (17, 17)%Z).
Proof.
  destruct (regionsOf halfImage) as [regions| |] eqn:E;
    [|vm_compute in E; discriminate|vm_compute in E; discriminate].
  destruct regions as [|region rest]; [vm_compute in E; discriminate|].
  assert (H0 : In (0, 0)%Z region).
  { vm_compute in E. injection E as <- _. left. reflexivity. }
  exists (region :: rest), region.
  split; [reflexivity|]. split; [now left|]. split; [exact H0|].
  exact (regions_are_connected_components halfImage (region :: rest) region (0, 0)%Z
           E (or_introl eq_refl) H0 (17, 17)%Z).
Defined.

(** ** The geometry of the detected shapes *)

Lemma NoDup_concat_member {A} (ls : list (list A)) l :
  NoDup (concat ls) -> In l ls -> NoDup l.
Proof.
  induction ls as [|l0 ls IH]; [intros _ []|].
  cbn [concat]. intros Hnd [<-|Hin].
  - now apply NoDup_app_remove_r in Hnd.
  - apply IH; [|assumption]. now apply NoDup_app_remove_l in Hnd.
Qed.

Lemma fold_min_In xs : forall a,
  fold_left Z.min xs a = a \/ In (fold_left Z.min xs a) xs.
Proof.
  induction xs as [|h xs IH]; intros a; cbn [fold_left]; [now left|].
  destruct (IH (Z.min a h)) as [E|Hin]; [|right; now right].
  rewrite E. destruct (Z.min_spec a h) as [[_ ->]|[_ ->]]; [now left | right; now left].
Qed.

Lemma fold_max_In xs : forall a,
  fold_left Z.max xs a = a \/ In (fold_left Z.max xs a) xs.
Proof.
  induction xs as [|h xs IH]; intros a; cbn [fold_left]; [now left|].
  destruct (IH (Z.max a h)) as [E|Hin]; [|right; now right].
  rewrite E. destruct (Z.max_spec a h) as [[_ ->]|[_ ->]]; [right; now left | now left].
Qed.

Lemma leastOf_In xs : xs <> [] -> In (leastOf xs) xs.
Proof.
  destruct xs as [|a xs]; [congruence|]. intros _. cbn [leastOf].
  destruct (fold_min_In xs a) as [->|Hin]; [now left | now right].
Qed.

Lemma greatestOf_In xs : xs <> [] -> In (greatestOf xs) xs.
Proof.
  destruct xs as [|a xs]; [congruence|]. intros _. cbn [greatestOf].
  destruct (fold_max_In xs a) as [->|Hin]; [now left | now right].
Qed.

Lemma rangeFrom_In a n x : (a <= x < a + Z.of_nat n)%Z -> In x (rangeFrom a n).
Proof.
  intros H. unfold rangeFrom. apply in_map_iff. exists (Z.to_nat (x - a)).
  split; [lia|]. apply in_seq. lia.
Qed.

(** Distinct pixels inside a box: at most as many as the box holds. *)
Lemma NoDup_box_length (pixels : list Pixel) a b c d :
  NoDup pixels ->
  (forall p, In p pixels -> (a <= fst p <= b)%Z /\ (c <= snd p <= d)%Z) ->
  (a <= b)%Z -> (c <= d)%Z ->
  (Z.of_nat (length pixels) <= (b - a + 1) * (d - c + 1))%Z.
Proof.
  intros Hnd Hbox Hab Hcd.
  assert (Hincl : incl pixels (list_prod (rangeFrom a (Z.to_nat (b - a + 1)))
                                         (rangeFrom c (Z.to_nat (d - c + 1))))).
  { intros [x y] Hp. destruct (Hbox _ Hp) as [Hx Hy]. cbn [fst snd] in *.
    apply in_prod; apply rangeFrom_In; lia. }
  pose proof (NoDup_incl_length Hnd Hincl) as Hlen.
  unfold Pixel in *. rewrite length_prod in Hlen. unfold rangeFrom in Hlen.
  rewrite !length_map, !length_seq in Hlen.
  apply Nat2Z.inj_le in Hlen. rewrite Nat2Z.inj_mul in Hlen.
  rewrite !Z2Nat.id in Hlen by lia. exact Hlen.
Qed.

Lemma processRegion_length Math_sqrt Math_acos maxArguments width height binary pixels s :
  processRegion Math_sqrt Math_acos maxArguments width height binary pixels
  = Returned (Some s) ->
  (40 <= length pixels)%nat.
Proof.
  unfold processRegion. destruct (Nat.ltb_spec (length pixels) 40); [discriminate | lia].
Qed.

(** Every shape of the result is the shape of one of the regions. *)
Lemma detectShapes_shape_region Math_sqrt Math_acos maxArguments startTime endTime
  imageData result :
  detectShapes Math_sqrt Math_acos maxArguments startTime endTime imageData
  = Returned result ->
  exists regions,
    regionsOf imageData = Returned regions
    /\ filterMap (processRegion Math_sqrt Math_acos maxArguments (img_width imageData)
                                (img_height imageData) (maskOf imageData)) regions
       = Returned (shapes result).
Proof.
  rewrite detectShapes_regions.
  destruct (regionsOf imageData) as [regions| |]; cbn [bind]; try discriminate.
  destruct (filterMap _ regions) as [kept| |] eqn:Hk; cbn [bind]; try discriminate.
  intros [= <-]. exists regions. split; [reflexivity | exact Hk].
Qed.

Lemma inject_Z_minus a b : inject_Z (a - b) = inject_Z a - inject_Z b.
Proof.
  unfold Z.sub, Qminus. now rewrite inject_Z_plus, inject_Z_opp.
Qed.

(** The box of a region of the image. *)
Lemma region_box width height (pixels : list Pixel) :
  pixels <> [] ->
  (forall p, In p pixels -> insideImage width height p) ->
  (0 <= leastOf (map fst pixels) <= greatestOf (map fst pixels))%Z
  /\ (greatestOf (map fst pixels) <= width - 1)%Z
  /\ (0 <= leastOf (map snd pixels) <= greatestOf (map snd pixels))%Z
  /\ (greatestOf (map snd pixels) <= height - 1)%Z.
Proof.
  intros Hne Hin.
  assert (Hx : map fst pixels <> []) by (destruct pixels; [congruence | discriminate]).
  assert (Hy : map snd pixels <> []) by (destruct pixels; [congruence | discriminate]).
  pose proof (leastOf_In _ Hx) as H1. pose proof (greatestOf_In _ Hx) as H2.
  pose proof (leastOf_In _ Hy) as H3. pose proof (greatestOf_In _ Hy) as H4.
  pose proof (greatestOf_ge _ _ H1) as H5. pose proof (greatestOf_ge _ _ H3) as H6.
  apply in_map_iff in H1, H2, H3, H4.
  destruct H1 as (p1 & E1 & P1), H2 as (p2 & E2 & P2),
           H3 as (p3 & E3 & P3), H4 as (p4 & E4 & P4).
  destruct (Hin _ P1) as [A1 _], (Hin _ P2) as [A2 _],
           (Hin _ P3) as [_ A3], (Hin _ P4) as [_ A4].
  lia.
Qed.

(** X17.  Every detected shape lies inside the image: its bounding box
    starts at a non-negative corner and ends at most at the last column and
    row; its centre is the middle of the box; and its area is at most the
    number of pixels the box holds. *)
Theorem detected_shapes_lie_inside_the_image
  (Math_sqrt Math_acos : Q -> Q) (maxArguments : Z) (startTime endTime : Q)
  (imageData : ImageData) (result : DetectionResult) (s : DetectedShape) :
  detectShapes Math_sqrt Math_acos maxArguments startTime endTime imageData
  = Returned result ->
  In s (shapes result) ->
  0 <= box_x (ds_boundingBox s)
  /\ box_x (ds_boundingBox s) + box_width (ds_boundingBox s)
     <= inject_Z (img_width imageData) - 1
  /\ 0 <= box_y (ds_boundingBox s)
  /\ box_y (ds_boundingBox s) + box_height (ds_boundingBox s)
     <= inject_Z (img_height imageData) - 1
  /\ pt_x (ds_center s)
     == box_x (ds_boundingBox s) + box_width (ds_boundingBox s) / 2
  /\ pt_y (ds_center s)
     == box_y (ds_boundingBox s) + box_height (ds_boundingBox s) / 2
  /\ ds_area s
     <= (box_width (ds_boundingBox s) + 1) * (box_height (ds_boundingBox s) + 1).
Proof.
  intros Hret Hs.
  destruct (detectShapes_shape_region _ _ _ _ _ _ _ Hret) as (regions & Hreg & Hshapes).
  destruct (filterMap_In _ _ _ _ Hshapes Hs) as (region & Hr & Hproc).
  destruct (regionsOf_components imageData regions Hreg) as ((v & Hinv) & _).
  pose proof (NoDup_concat_member _ _ (si_nodup _ _ _ _ _ Hinv) Hr) as Hnd.
  assert (Hin : forall p, In p region ->
            insideImage (img_width imageData) (img_height imageData) p).
  { intros p Hp. assert (Hc : In p (concat regions)) by (apply in_concat; eauto).
    now destruct (si_fg _ _ _ _ _ Hinv p Hc). }
  pose proof (processRegion_length _ _ _ _ _ _ _ _ Hproc) as Hlen.
  assert (Hne : region <> []) by (destruct region; [cbn in Hlen; lia | discriminate]).
  destruct (region_box _ _ region Hne Hin) as (Bx & Bx' & By & By').
  assert (Hcount : (Z.of_nat (length region)
                    <= (greatestOf (map fst region) - leastOf (map fst region) + 1)
                       * (greatestOf (map snd region) - leastOf (map snd region) + 1))%Z).
  { apply NoDup_box_length; try assumption; try lia.
    intros p Hp. split; split.
    - apply leastOf_le. now apply in_map.
    - apply greatestOf_ge. now apply in_map.
    - apply leastOf_le. now apply in_map.
    - apply greatestOf_ge. now apply in_map. }
  destruct (processRegion_shape _ _ _ _ _ _ _ _ Hproc) as (_ & -> & _).
  unfold shapeOf. destruct (classify _) as [type confidence].
  unfold features, measure.
  cbn [ds_boundingBox ds_center ds_area box_x box_y box_width box_height pt_x pt_y
       sf_minX sf_minY sf_width sf_height sf_center sf_area].
  set (minX := leastOf (map fst region)) in *. set (maxX := greatestOf (map fst region)) in *.
  set (minY := leastOf (map snd region)) in *. set (maxY := greatestOf (map snd region)) in *.
  rewrite !inject_Z_minus, !inject_Z_plus.
  assert (Q1 : inject_Z 0 <= inject_Z minX) by (rewrite <- Zle_Qle; lia).
  assert (Q2 : inject_Z maxX <= inject_Z (img_width imageData - 1))
    by (rewrite <- Zle_Qle; lia).
  assert (Q3 : inject_Z 0 <= inject_Z minY) by (rewrite <- Zle_Qle; lia).
  assert (Q4 : inject_Z maxY <= inject_Z (img_height imageData - 1))
    by (rewrite <- Zle_Qle; lia).
  assert (Q5 : inject_Z (Z.of_nat (length region))
               <= inject_Z ((maxX - minX + 1) * (maxY - minY + 1)))
    by (rewrite <- Zle_Qle; exact Hcount).
  rewrite inject_Z_mult, !inject_Z_plus, !inject_Z_minus in Q5.
  rewrite inject_Z_minus in Q2, Q4.
  change (inject_Z 0) with 0 in *. change (inject_Z 1) with 1 in *.
  split; [lra|]. split; [lra|]. split; [lra|]. split; [lra|].
  split; [field|]. split; [field|]. lra.
Qed.

Lemma detected_shapes_lie_inside_the_image_witness :
  detectShapes (fun q => q) (fun q => q) 65535 0 1 halfImage = Returned halfResult
  /\ In halfShape (shapes halfResult)
  /\ box_x (ds_boundingBox halfShape) + box_width (ds_boundingBox halfShape)
     <= inject_Z (img_width halfImage) - 1.
Proof.
  assert (Hret : detectShapes (fun q => q) (fun q => q) 65535 0 1 halfImage
                 = Returned halfResult) by (vm_compute; reflexivity).
  assert (Hin : In halfShape (shapes halfResult)) by (left; reflexivity).
  split; [exact Hret|]. split; [exact Hin|].
  exact (proj1 (proj2 (detected_shapes_lie_inside_the_image
                         (fun q => q) (fun q => q) 65535 0 1 halfImage halfResult halfShape
                         Hret Hin))).
Defined.

Lemma foregroundIndices_length mask : forall from,
  length (foregroundIndices mask from) = length (filter (Z.eqb 1) mask).
Proof.
  unfold foregroundIndices. induction mask as [|v mask IH]; intros from; [reflexivity|].
  cbn [length seq filter]. rewrite Nat.sub_diag. cbn [nth_error].
  assert (Hrest : filter (fun i => match nth_error (v :: mask) (i - from) with
                                   | Some w => (1 =? w)%Z
                                   | None => false
                                   end) (seq (S from) (length mask))
                  = filter (fun i => match nth_error mask (i - S from) with
                                     | Some w => (1 =? w)%Z
                                     | None => false
                                     end) (seq (S from) (length mask))).
  { apply filter_ext_in. intros i Hi. apply in_seq in Hi.
    replace (i - from)%nat with (S (i - S from)) by lia. reflexivity. }
  rewrite Hrest. destruct (1 =? v)%Z; cbn [length]; now rewrite IH.
Qed.

(** Distinct foreground pixels of the image: at most as many as the mask has
    foreground flags. *)
Lemma foreground_pixels_count width height binary (pixels : list Pixel) :
  NoDup pixels ->
  (forall p, In p pixels -> insideImage width height p /\ foreground width binary p) ->
  (Z.of_nat (length pixels) <= foregroundCount binary)%Z.
Proof.
  intros Hnd Hfg. unfold foregroundCount.
  rewrite <- (foregroundIndices_length binary 0).
  replace (length pixels)
    with (length (map (fun p => Z.to_nat (indexOf width p)) pixels))
    by apply length_map.
  apply Nat2Z.inj_le, NoDup_incl_length.
  - apply Finite.Injective_map_NoDup_in; [|assumption].
    intros p q Hp Hq E. destruct (Hfg p Hp) as [Ip _], (Hfg q Hq) as [Iq _].
    apply (indexOf_injective width height p q Ip Iq).
    destruct p as [px py], q as [qx qy].
    destruct (index_range width height px py Ip) as [Hp0 _].
    destruct (index_range width height qx qy Iq) as [Hq0 _].
    unfold indexOf in *. cbn [fst snd] in *. lia.
  - intros i Hi. apply in_map_iff in Hi. destruct Hi as (p & <- & Hp).
    destruct (Hfg p Hp) as [_ Fp]. unfold foreground, TypedArray.equals in Fp.
    destruct (TypedArray.get binary (indexOf width p)) as [v|] eqn:E; [|discriminate].
    destruct (TypedArrayFacts.get_range _ _ _ E) as [H0 H1].
    unfold TypedArray.get in E. destruct (indexOf width p <? 0)%Z; [discriminate|].
    unfold foregroundIndices. apply filter_In. split; [apply in_seq; lia|].
    rewrite Nat.sub_0_r, E. now rewrite Z.eqb_sym.
Qed.

(** The areas of the shapes kept from a list of regions. *)
Lemma totalArea_filterMap Math_sqrt Math_acos maxArguments width height binary
  (regions : list (list Pixel)) :
  forall kept,
    filterMap (processRegion Math_sqrt Math_acos maxArguments width height binary) regions
    = Returned kept ->
    300 * lengthOf kept <= totalArea kept
    /\ totalArea kept <= inject_Z (Z.of_nat (length (concat regions))).
Proof.
  induction regions as [|r rest IH]; intros kept Hk.
  - cbn in Hk. injection Hk as <-.
    unfold lengthOf. cbn [length totalArea fold_right concat Z.of_nat].
    change (inject_Z 0) with 0. split; lra.
  - cbn [filterMap] in Hk. cbn [concat].
    rewrite length_app, Nat2Z.inj_add, inject_Z_plus.
    assert (Hpos : 0 <= inject_Z (Z.of_nat (length r)))
      by (change 0 with (inject_Z 0); rewrite <- Zle_Qle; lia).
    destruct (processRegion Math_sqrt Math_acos maxArguments width height binary r)
      as [o| |] eqn:E; cbn [bind] in Hk; try discriminate.
    destruct (filterMap _ rest) as [bs| |]; cbn [bind] in Hk; try discriminate.
    injection Hk as <-. destruct (IH bs eq_refl) as [IH1 IH2].
    destruct o as [s|].
    + destruct (processRegion_shape _ _ _ _ _ _ _ _ E) as (Hrej & _ & Harea & _).
      destruct (rejected_false _ Hrej) as (H300 & _).
      unfold features, measure in Harea, H300. cbn [sf_area] in Harea, H300.
      rewrite Zle_Qle in H300. change (inject_Z 300) with 300 in H300.
      unfold lengthOf in *. cbn [length totalArea fold_right].
      fold (totalArea bs).
      rewrite Nat2Z.inj_succ, <- Z.add_1_r, inject_Z_plus.
      change (inject_Z 1) with 1. rewrite Harea. split; lra.
    + split; lra.
Qed.

(** X18.  The detected shapes together cover at most half of the image: the
    sum of their areas is at most half the number of pixels; and as each has
    an area of at least 300, there are at most [width * height / 600]
    shapes. *)
Theorem detected_shapes_cover_at_most_half
  (Math_sqrt Math_acos : Q -> Q) (maxArguments : Z) (startTime endTime : Q)
  (imageData : ImageData) (result : DetectionResult) :
  detectShapes Math_sqrt Math_acos maxArguments startTime endTime imageData
  = Returned result ->
  300 * lengthOf (shapes result) <= totalArea (shapes result)
  /\ 2 * totalArea (shapes result)
     <= inject_Z (img_width imageData * img_height imageData).
Proof.
  intros Hret.
  destruct (detectShapes_shape_region _ _ _ _ _ _ _ Hret) as (regions & Hreg & Hkept).
  destruct (totalArea_filterMap Math_sqrt Math_acos maxArguments (img_width imageData)
              (img_height imageData) (maskOf imageData) regions _ Hkept) as [H1 H2].
  split; [exact H1|].
  destruct (regionsOf_components imageData regions Hreg) as ((v & Hinv) & _).
  assert (Hcount : (Z.of_nat (length (concat regions))
                    <= foregroundCount (maskOf imageData))%Z).
  { apply (foreground_pixels_count (img_width imageData) (img_height imageData));
      [exact (si_nodup _ _ _ _ _ Hinv)|].
    intros p Hp. destruct (si_fg _ _ _ _ _ Hinv p Hp) as (A & B & _). now split. }
  assert (Hsize : (0 <= img_width imageData * img_height imageData)%Z).
  { unfold regionsOf, TypedArray.create in Hreg.
    destruct (Z.ltb_spec (img_width imageData * img_height imageData) 0);
      [discriminate | assumption]. }
  pose proof (binarize_minority
                (grayscale (Z.to_nat (img_width imageData * img_height imageData))
                           (img_data imageData))) as Hhalf.
  fold (maskOf imageData) in Hhalf. rewrite grayscale_length, Z2Nat.id in Hhalf by assumption.
  assert (Hz : (2 * Z.of_nat (length (concat regions))
                <= img_width imageData * img_height imageData)%Z) by lia.
  rewrite Zle_Qle in Hz. rewrite inject_Z_mult in Hz. change (inject_Z 2) with 2 in Hz.
  lra.
Qed.

Lemma detected_shapes_cover_at_most_half_witness :
  detectShapes (fun q => q) (fun q => q) 65535 0 1 halfImage = Returned halfResult
  /\ 2 * totalArea (shapes halfResult)
     <= inject_Z (img_width halfImage * img_height halfImage).
Proof.
  assert (Hret : detectShapes (fun q => q) (fun q => q) 65535 0 1 halfImage
                 = Returned halfResult) by (vm_compute; reflexivity).
  split; [exact Hret|].
  exact (proj2 (detected_shapes_cover_at_most_half
                  (fun q => q) (fun q => q) 65535 0 1 halfImage halfResult Hret)).
Defined.

(** ** When [detectShapes] throws *)





(** ** Perimeter, boundary and thinness *)

Lemma boundaryOf_filter width height binary pixels :
  boundaryOf width height binary pixels
  = filter (backgroundNeighbor width height binary) pixels.
Proof.
  unfold boundaryOf. apply filter_ext. intros [x y].
  unfold backgroundNeighbor. cbn [fst snd].
  apply hasBackgroundNeighbor_existsb.
Qed.

(** X19.  The perimeter counted in STEP 4 is the length of the [boundary]
    array filtered in STEP 5, whose pixels are pixels of the region in their
    order; it is at most the area, so the thinness [perimeter / (area + 1)]
    tested by the last gate lies between 0 and 1, 1 excluded. *)
Theorem perimeter_is_boundary_length
  (Math_sqrt Math_acos : Q -> Q) (width height : Z) (binary : list Z)
  (pixels : list Pixel) :
  let f := features Math_sqrt Math_acos width height binary pixels in
  sf_perimeter f = Z.of_nat (length (boundaryOf width height binary pixels))
  /\ incl (boundaryOf width height binary pixels) pixels
  /\ (0 <= sf_perimeter f <= sf_area f)%Z
  /\ 0 <= sf_thinness f < 1.
Proof.
  cbn zeta. unfold features, measure. cbn [sf_perimeter sf_area sf_thinness].
  rewrite perimeterOf_count, boundaryOf_filter.
  pose proof (filter_length_le (backgroundNeighbor width height binary) pixels) as Hle.
  set (n := length (filter (backgroundNeighbor width height binary) pixels)) in *.
  split; [reflexivity|]. split; [apply incl_filter|]. split; [lia|].
  assert (Q1 : inject_Z 0 <= inject_Z (Z.of_nat n)) by (rewrite <- Zle_Qle; lia).
  assert (Q2 : inject_Z (Z.of_nat n) <= inject_Z (Z.of_nat (length pixels)))
    by (rewrite <- Zle_Qle; lia).
  change (inject_Z 0) with 0 in Q1.
  split.
  - apply Qle_shift_div_l; lra.
  - apply Qlt_shift_div_r; lra.
Qed.

(** ** The accuracy metrics of [evaluateDetection] *)

Lemma abs_nonneg a : 0 <= Num.abs a.
Proof. unfold Num.abs. destruct (NumFacts.ltb_spec a 0); lra. Qed.

Lemma abs_diff_unit a b : 0 <= a <= 1 -> 0 <= b <= 1 -> Num.abs (a - b) <= 1.
Proof. intros Ha Hb. unfold Num.abs. destruct (NumFacts.ltb_spec (a - b) 0); lra. Qed.

Lemma truthy_nonzero a : Num.truthy a = true -> ~ a == 0.
Proof.
  unfold Num.truthy. destruct (NumFacts.is_zero_spec a); [discriminate | auto].
Qed.

Section ErrorFacts.

Variables (Math_sqrt : Q -> Q) (iouThreshold : float).
Variables (detected : list DetectedShape) (groundTruth : list GroundTruthShape).

Lemma matchStep_errors st d :
  In d detected ->
  errorsInv Math_sqrt detected groundTruth st ->
  errorsInv Math_sqrt detected groundTruth
            (matchStep Math_sqrt iouThreshold groundTruth st d).
Proof.
  intros Hd [Htp Hc Hcen Har Hun].
  destruct (findBest iouThreshold (matched st) d groundTruth) as [[[g i]|] b] eqn:E;
    [|rewrite (matchStep_none Math_sqrt _ _ _ _ _ E); now split].
  destruct (findBest_some _ _ _ _ _ _ _ E) as (Hi & _).
  apply nth_error_In in Hi.
  unfold matchStep. rewrite E.
  split; cbn [truePositives confidenceErrors totalCenterDistance totalAreaError].
  - lia.
  - destruct (gt_confidence_expected g) as [c|]; [|assumption].
    destruct (Num.truthy c && Num.truthy (ds_confidence d)); [|assumption].
    pose proof (abs_nonneg (ds_confidence d - c)). lra.
  - intros Hsqrt. specialize (Hcen Hsqrt).
    destruct (gt_center g) as [c|]; [|assumption].
    unfold calculateDistance.
    pose proof (Hsqrt ((pt_x c - pt_x (ds_center d)) ^ 2
                       + (pt_y c - pt_y (ds_center d)) ^ 2)). lra.
  - intros Hareas. specialize (Har Hareas).
    destruct (gt_area g) as [a|] eqn:Ea; [|assumption].
    destruct (Num.truthy a) eqn:Ta; cbn [andb]; [|assumption].
    destruct (Num.truthy (ds_area d)); [|assumption].
    pose proof (Hareas g a Hi Ea) as Ha. pose proof (truthy_nonzero a Ta) as Hn.
    assert (Hpos : 0 < a) by (destruct (Qlt_le_dec 0 a) as [|Hle]; [assumption|];
                              exfalso; apply Hn; lra).
    pose proof (abs_nonneg (ds_area d - a)) as Habs.
    assert (0 <= Num.abs (ds_area d - a) / a) by (apply Qle_shift_div_l; lra).
    lra.
  - intros Hunit. specialize (Hun Hunit). destruct Hunit as [Hdet Hgt].
    rewrite inject_Z_plus. change (inject_Z 1) with 1.
    destruct (gt_confidence_expected g) as [c|] eqn:Ec; [|lra].
    destruct (Num.truthy c && Num.truthy (ds_confidence d)); [|lra].
    pose proof (abs_diff_unit (ds_confidence d) c (Hdet d Hd) (Hgt g c Hi Ec)). lra.
Qed.

Lemma matchLoop_errors :
  errorsInv Math_sqrt detected groundTruth
            (matchLoop Math_sqrt iouThreshold detected groundTruth).
Proof.
  unfold matchLoop.
  assert (H0 : errorsInv Math_sqrt detected groundTruth initialMatchState).
  { split; cbn [truePositives confidenceErrors totalCenterDistance totalAreaError
                initialMatchState]; intros; change (inject_Z 0) with 0; first [lra | lia]. }
  assert (Hloop : forall ds st,
            incl ds detected ->
            errorsInv Math_sqrt detected groundTruth st ->
            errorsInv Math_sqrt detected groundTruth
                      (fold_left (matchStep Math_sqrt iouThreshold groundTruth) ds st)).
  { induction ds as [|d rest IH]; intros st Hincl Hst; cbn [fold_left]; [assumption|].
    apply IH.
    - intros x Hx. apply Hincl. now right.
    - apply matchStep_errors; [apply Hincl; now left | assumption]. }
  apply Hloop; [apply incl_refl | exact H0].
Qed.

End ErrorFacts.

(** X20.  The accuracy metrics of an image.  The confidence calibration is
    at most 1.  The centre error is not negative when [Math.sqrt] is not;
    the area accuracy is at most 1 when no ground-truth area is negative; the
    confidence calibration is at least 0 when the detected and the expected
    confidences lie between 0 and 1.  Without a match all three are 0. *)
Theorem accuracy_metrics_bounds
  (Math_sqrt : Q -> Q) (detected : list DetectedShape)
  (groundTruth : list GroundTruthShape) (imageName : string) :
  let m := evaluateDetection Math_sqrt detected groundTruth imageName in
  confidence_calibration m <= 1
  /\ ((forall q, 0 <= Math_sqrt q) -> 0 <= center_point_accuracy m)
  /\ (areasNonNegative groundTruth -> area_accuracy m <= 1)
  /\ (confidencesInUnit detected groundTruth -> 0 <= confidence_calibration m)
  /\ (truePositivesAt Math_sqrt 0.5 detected groundTruth = 0%Z ->
      center_point_accuracy m = 0 /\ area_accuracy m = 0
      /\ confidence_calibration m = 0).
Proof.
  cbn zeta. unfold evaluateDetection, evaluateDetectionAt, truePositivesAt.
  cbn [confidence_calibration center_point_accuracy area_accuracy].
  destruct (matchLoop_errors Math_sqrt 0.5 detected groundTruth)
    as [Htp Hc Hcen Har Hun].
  set (st := matchLoop Math_sqrt 0.5 detected groundTruth) in *.
  destruct (NumFacts.gtb_spec (inject_Z (truePositives st)) 0) as [Hpos|Hzero].
  - split; [|split; [|split; [|split]]].
    + assert (0 <= confidenceErrors st / inject_Z (truePositives st))
        by (apply Qle_shift_div_l; lra). lra.
    + intros Hsqrt. specialize (Hcen Hsqrt). apply Qle_shift_div_l; lra.
    + intros Hareas. specialize (Har Hareas).
      assert (0 <= totalAreaError st / inject_Z (truePositives st))
        by (apply Qle_shift_div_l; lra). lra.
    + intros Hunit. specialize (Hun Hunit).
      assert (confidenceErrors st / inject_Z (truePositives st) <= 1)
        by (apply Qle_shift_div_r; lra). lra.
    + intros H0. rewrite H0 in Hpos. change (inject_Z 0) with 0 in Hpos. lra.
  - split; [lra|]. split; [intros _; lra|]. split; [intros _; lra|].
    split; [intros _; lra|]. intros _. repeat split; reflexivity.
Qed.

(** ** The summary of a batch *)

Lemma sumBy_snoc metric results tr :
  sumBy metric (results ++ [tr]) == sumBy metric results + metric (tr_evaluation tr).
Proof.
  unfold sumBy. induction results as [|x l IH]; cbn [app fold_right]; [lra|].
  rewrite IH. lra.
Qed.

Lemma sumBy_bounds metric results :
  (forall tr, In tr results -> 0 <= metric (tr_evaluation tr) <= 1) ->
  0 <= sumBy metric results <= inject_Z (Z.of_nat (length results)).
Proof.
  unfold sumBy. induction results as [|x l IH]; intros H; cbn [fold_right length].
  - change (inject_Z (Z.of_nat 0)) with 0. lra.
  - rewrite Nat2Z.inj_succ, <- Z.add_1_r, inject_Z_plus. change (inject_Z 1) with 1.
    pose proof (H x (or_introl eq_refl)).
    assert (0 <= fold_right (fun tr a => metric (tr_evaluation tr) + a) 0 l
            <= inject_Z (Z.of_nat (length l)))
      by (apply IH; intros tr Htr; apply H; now right).
    lra.
Qed.

Section SummaryFacts.

Variable Math_sqrt : Q -> Q.

Lemma batchStep_sums st run : sumsInv st -> sumsInv (batchStep Math_sqrt st run).
Proof.
  intros [Hp Hr Hf Ht]. unfold batchStep.
  destruct (run_detection run) as [d| |].
  - destruct (calculateScore (evaluateRun Math_sqrt run d) d) as [passed score].
    split; cbn [acc_totalPrecision acc_totalRecall acc_totalF1
                acc_totalProcessingTime acc_testResults];
      rewrite sumBy_snoc; cbn [tr_evaluation]; lra.
  - split; cbn [acc_totalPrecision acc_totalRecall acc_totalF1
                acc_totalProcessingTime acc_testResults];
      rewrite sumBy_snoc; cbn [tr_evaluation zeroMetrics precision recall f1_score
                               processing_time]; lra.
  - split; cbn [acc_totalPrecision acc_totalRecall acc_totalF1
                acc_totalProcessingTime acc_testResults];
      rewrite sumBy_snoc; cbn [tr_evaluation zeroMetrics precision recall f1_score
                               processing_time]; lra.
Qed.

Lemma batchLoop_sums runs :
  sumsInv (fold_left (batchStep Math_sqrt) runs initialBatchState).
Proof.
  assert (H0 : sumsInv initialBatchState) by (split; reflexivity).
  revert H0. generalize initialBatchState.
  induction runs as [|run rest IH]; intros st Hst; cbn [fold_left]; [assumption|].
  apply IH. now apply batchStep_sums.
Qed.

(** [totalIoU] is the sum of the average IoUs of the images evaluated, added
    one after the other. *)
Lemma batchLoop_totalIoU runs :
  forall st,
    acc_totalIoU (fold_left (batchStep Math_sqrt) runs st)
    = sumFrom (acc_totalIoU st) (evaluatedIoUs Math_sqrt runs).
Proof.
  induction runs as [|run rest IH]; intros st; [reflexivity|].
  cbn [fold_left evaluatedIoUs flat_map]. rewrite IH.
  fold (evaluatedIoUs Math_sqrt rest). unfold batchStep.
  destruct (run_detection run) as [d| |]; [|reflexivity..].
  destruct (calculateScore (evaluateRun Math_sqrt run d) d) as [passed score].
  reflexivity.
Qed.

Lemma testResultOf_unit run :
  let m := tr_evaluation (testResultOf Math_sqrt run) in
  0 <= precision m <= 1 /\ 0 <= recall m <= 1 /\ 0 <= f1_score m <= 1.
Proof.
  cbn zeta. unfold testResultOf. destruct (run_detection run) as [d| |];
    cbn [tr_evaluation zeroMetrics precision recall f1_score];
    try (repeat split; lra).
  unfold evaluateRun, withProcessingTime. cbn [precision recall f1_score].
  apply evaluateDetection_unit.
Qed.

End SummaryFacts.

Lemma mean_of_sum total n :
  0 < n -> 0 <= total <= n ->
  exists a, Num.jsDiv total n = Some a /\ a * n == total /\ 0 <= a <= 1.
Proof.
  intros Hn Ht. unfold Num.jsDiv.
  destruct (NumFacts.is_zero_spec n) as [E|_]; [lra|].
  exists (total / n). split; [reflexivity|]. split; [field; lra|].
  split; [apply Qdiv_nonneg; lra | apply Qdiv_le_one; lra].
Qed.

(** X22.  The summary of a batch.  The total processing time is the sum of
    the processing times recorded in the test results.  For a batch with at
    least one image, the average precision, recall and F1 are the means of
    those metrics over all the test results, an image whose detection threw
    counting as 0, and each lies between 0 and 1.  The average IoU is the
    sum of the average IoUs of the images whose detection returned, added in
    the order of the batch, divided by the number of all images, in doubles.
    For an empty batch the four averages are NaN. *)
Theorem summary_averages_are_means (Math_sqrt : Q -> Q) (runs : list ImageRun) :
  let r := runEvaluation Math_sqrt runs in
  let n := inject_Z (Z.of_nat (length (testResults r))) in
  length (testResults r) = length runs
  /\ totalProcessingTime (summary r) == sumBy processing_time (testResults r)
  /\ averageIoU (summary r)
     = (sumFrom 0 (evaluatedIoUs Math_sqrt runs)
        / Double.of_Z (Z.of_nat (length runs)))%float
  /\ (runs <> [] ->
      exists p rc f,
        averagePrecision (summary r) = Some p /\ averageRecall (summary r) = Some rc
        /\ averageF1 (summary r) = Some f
        /\ p * n == sumBy precision (testResults r)
        /\ rc * n == sumBy recall (testResults r)
        /\ f * n == sumBy f1_score (testResults r)
        /\ 0 <= p <= 1 /\ 0 <= rc <= 1 /\ 0 <= f <= 1)
  /\ (runs = [] ->
      averagePrecision (summary r) = None /\ averageRecall (summary r) = None
      /\ averageF1 (summary r) = None
      /\ PrimFloat.is_nan (averageIoU (summary r)) = true).
Proof.
  cbn zeta. pose proof (testResults_map Math_sqrt runs) as Hmap.
  pose proof (batchLoop_sums Math_sqrt runs) as [Hp Hr Hf Ht].
  pose proof (batchLoop_totalIoU Math_sqrt runs initialBatchState) as Hiou.
  unfold runEvaluation, finishBatch in *.
  cbn [testResults summary averagePrecision averageRecall averageF1 averageIoU
       totalProcessingTime] in *.
  set (st := fold_left (batchStep Math_sqrt) runs initialBatchState) in *.
  split; [rewrite Hmap; apply length_map|]. split; [exact Ht|]. split.
  { rewrite Hiou, Hmap, length_map. reflexivity. }
  split.
  - intros Hne.
    assert (Hn : 0 < inject_Z (Z.of_nat (length (acc_testResults st)))).
    { apply inject_Z_pos. rewrite Hmap, length_map.
      destruct runs; [congruence | cbn [length]; lia]. }
    assert (Hunit : forall tr, In tr (acc_testResults st) ->
              (0 <= precision (tr_evaluation tr) <= 1)
              /\ (0 <= recall (tr_evaluation tr) <= 1)
              /\ (0 <= f1_score (tr_evaluation tr) <= 1)).
    { intros tr Htr. rewrite Hmap in Htr. apply in_map_iff in Htr.
      destruct Htr as (run & <- & _). apply testResultOf_unit. }
    destruct (mean_of_sum (acc_totalPrecision st) _ Hn) as (p & E1 & M1 & B1).
    { rewrite Hp. apply sumBy_bounds. intros tr Htr. now destruct (Hunit tr Htr). }
    destruct (mean_of_sum (acc_totalRecall st) _ Hn) as (rc & E2 & M2 & B2).
    { rewrite Hr. apply sumBy_bounds. intros tr Htr.
      now destruct (Hunit tr Htr) as (_ & ? & _). }
    destruct (mean_of_sum (acc_totalF1 st) _ Hn) as (f & E3 & M3 & B3).
    { rewrite Hf. apply sumBy_bounds. intros tr Htr.
      now destruct (Hunit tr Htr) as (_ & _ & ?). }
    exists p, rc, f.
    split; [exact E1|]. split; [exact E2|]. split; [exact E3|].
    split; [now rewrite M1|]. split; [now rewrite M2|]. split; [now rewrite M3|].
    auto.
  - intros ->. repeat split; reflexivity.
Qed.

(** ** The order of the images of a batch *)

Section OrderFacts.

Variable Math_sqrt : Q -> Q.

Lemma sumOfScores_perm runs runs' :
  Permutation runs runs' -> sumOfScores Math_sqrt runs = sumOfScores Math_sqrt runs'.
Proof.
  unfold sumOfScores. induction 1; cbn [fold_right]; lia.
Qed.

(** Score, maximum, percentage and grade of a batch depend on its images
    through the sum of their scores and their number only. *)
Lemma runEvaluation_by_score runs runs' :
  sumOfScores Math_sqrt runs = sumOfScores Math_sqrt runs' ->
  length runs = length runs' ->
  let r := runEvaluation Math_sqrt runs in
  let r' := runEvaluation Math_sqrt runs' in
  totalScore r = totalScore r' /\ maxScore r = maxScore r'
  /\ percentage r = percentage r' /\ grade r = grade r'.
Proof.
  intros Hsum Hlen. cbn zeta. unfold runEvaluation, finishBatch, batchPercentage.
  cbn [totalScore maxScore percentage grade].
  destruct (batchLoop_spec Math_sqrt runs initialBatchState) as (-> & _).
  destruct (batchLoop_spec Math_sqrt runs' initialBatchState) as (-> & _).
  rewrite !batchLoop_testResults. cbn [acc_testResults acc_totalScore initialBatchState app].
  rewrite !length_map, Hsum, Hlen. repeat split; reflexivity.
Qed.

End OrderFacts.

(** X23.  The order of the images does not change the outcome of a batch:
    for the same images in another order the total score, the maximum, the
    percentage and the grade are the same, and the test results are the same
    results in that other order. *)
Theorem batch_outcome_independent_of_order
  (Math_sqrt : Q -> Q) (runs runs' : list ImageRun) :
  Permutation runs runs' ->
  let r := runEvaluation Math_sqrt runs in
  let r' := runEvaluation Math_sqrt runs' in
  totalScore r = totalScore r' /\ maxScore r = maxScore r'
  /\ percentage r = percentage r' /\ grade r = grade r'
  /\ Permutation (testResults r) (testResults r').
Proof.
  intros Hperm. cbn zeta.
  destruct (runEvaluation_by_score Math_sqrt runs runs'
              (sumOfScores_perm Math_sqrt runs runs' Hperm)
              (Permutation_length Hperm)) as (H1 & H2 & H3 & H4).
  repeat (split; [assumption|]).
  rewrite !testResults_map. now apply Permutation_map.
Qed.

Lemma batch_outcome_independent_of_order_witness :
  Permutation [circleRun; brokenRun] [brokenRun; circleRun]
  /\ grade (runEvaluation (fun q => q) [circleRun; brokenRun])
     = grade (runEvaluation (fun q => q) [brokenRun; circleRun]).
Proof.
  assert (H : Permutation [circleRun; brokenRun] [brokenRun; circleRun])
    by apply perm_swap.
  split; [exact H|].
  exact (proj1 (proj2 (proj2 (proj2
           (batch_outcome_independent_of_order (fun q => q) _ _ H))))).
Defined.

(** ** The selection of test images *)

Module SelectionFacts.

Import SelectionManager.

Lemma has_true s name : has s name = true <-> In name s.
Proof.
  unfold has. rewrite existsb_exists. split.
  - intros (x & Hx & E). apply String.eqb_eq in E. now subst.
  - intros H. exists name. split; [assumption | apply String.eqb_refl].
Qed.

Lemma has_false s name : has s name = false <-> ~ In name s.
Proof. rewrite <- has_true. destruct (has s name); split; congruence. Qed.

Lemma add_In s name n : In n (add s name) <-> In n s \/ n = name.
Proof.
  unfold add. destruct (has s name) eqn:E.
  - apply has_true in E. split; [now left | intros [H | ->]; assumption].
  - rewrite in_app_iff. cbn. intuition congruence.
Qed.

Lemma delete_In s name n : In n (delete s name) <-> In n s /\ n <> name.
Proof.
  unfold delete. rewrite filter_In, negb_true_iff, String.eqb_neq.
  intuition congruence.
Qed.

Lemma add_NoDup s name : NoDup s -> NoDup (add s name).
Proof.
  intros H. unfold add. destruct (has s name) eqn:E; [assumption|].
  apply has_false in E. apply NoDup_app; [assumption | repeat constructor; intros [] |].
  intros a Ha [<-|[]]. contradiction.
Qed.

Lemma delete_NoDup s name : NoDup s -> NoDup (delete s name).
Proof. apply NoDup_filter. Qed.

Lemma toggle_NoDup found s name : NoDup s -> NoDup (toggleImageSelection found s name).
Proof.
  intros H. unfold toggleImageSelection.
  destruct found; cbn [negb]; [|assumption].
  destruct (has s name); [now apply delete_NoDup | now apply add_NoDup].
Qed.

Lemma selectAll_NoDup items : forall s, NoDup s -> NoDup (selectAll items s).
Proof.
  unfold selectAll. induction items as [|[name|] items IH]; intros s H; cbn [fold_left];
    [assumption| |now apply IH].
  apply IH. destruct (String.eqb name EmptyString); [assumption | now apply add_NoDup].
Qed.

Lemma selectAll_In items n : forall s,
  In n (selectAll items s) <-> In n s \/ (In (Some n) items /\ n <> EmptyString).
Proof.
  unfold selectAll. induction items as [|[name|] items IH]; intros s; cbn [fold_left In].
  - tauto.
  - rewrite IH. destruct (String.eqb_spec name EmptyString) as [->|Hne].
    + intuition congruence.
    + rewrite add_In. split.
      * intros [[H | ->] | [H1 H2]]; auto.
      * intros [H|[[E|H1] H2]]; [auto | injection E as ->; auto | auto].
  - rewrite IH. intuition congruence.
Qed.

Lemma step_NoDup s a : NoDup s -> NoDup (step s a).
Proof.
  destruct a as [name found|items|]; cbn [step]; intros H.
  - now apply toggle_NoDup.
  - now apply selectAll_NoDup.
  - constructor.
Qed.

Lemma run_NoDup actions : NoDup (run actions).
Proof.
  unfold run. assert (H : NoDup (@nil string)) by constructor.
  revert H. generalize (@nil string).
  induction actions as [|a actions IH]; intros s H; cbn [fold_left]; [assumption|].
  apply IH. now apply step_NoDup.
Qed.

Lemma delete_length s name :
  NoDup s -> In name s -> S (length (delete s name)) = length s.
Proof.
  unfold delete. induction 1 as [|x l Hx Hnd IH]; intros Hin; [destruct Hin|].
  cbn [filter length]. destruct (String.eqb_spec name x) as [->|Hne]; cbn [negb length].
  - f_equal. clear IH Hin Hnd. induction l as [|y l IH]; [reflexivity|].
    cbn [filter]. destruct (String.eqb_spec x y) as [->|Hxy]; cbn [negb].
    + exfalso. apply Hx. now left.
    + cbn [length]. f_equal. apply IH. intros H. apply Hx. now right.
  - f_equal. apply IH. destruct Hin as [->|Hin]; [congruence | assumption].
Qed.

End SelectionFacts.

(** X24.  The selection of test images, after any sequence of clicks on a
    new manager.  It lists no name twice, and [hasSelections] tells whether
    it lists any.  A toggle for a name without an element in the document
    changes nothing; otherwise it flips that name and no other, the size
    goes up or down by one, and two toggles in a row restore the selected
    names.  Select-all adds exactly the non-empty names of the items, and
    deselect-all leaves nothing selected. *)
Theorem selection_after_any_clicks (actions : list SelectionManager.action) :
  let s := SelectionManager.run actions in
  NoDup (SelectionManager.getSelectedImages s)
  /\ (SelectionManager.hasSelections s = true
      <-> SelectionManager.getSelectedImages s <> [])
  /\ (forall name, SelectionManager.toggleImageSelection false s name = s)
  /\ (forall name,
        let s' := SelectionManager.toggleImageSelection true s name in
        (In name s' <-> ~ In name s)
        /\ (forall other, other <> name -> (In other s' <-> In other s))
        /\ (In name s -> S (length s') = length s)
        /\ (~ In name s -> length s' = S (length s))
        /\ (forall n, In n (SelectionManager.toggleImageSelection true s' name)
                      <-> In n s))
  /\ (forall items n,
        In n (SelectionManager.selectAll items s)
        <-> In n s \/ (In (Some n) items /\ n <> EmptyString))
  /\ SelectionManager.hasSelections (SelectionManager.deselectAll s) = false.
Proof.
  cbn zeta. pose proof (SelectionFacts.run_NoDup actions) as Hnd.
  set (s := SelectionManager.run actions) in *.
  split; [exact Hnd|]. split.
  { unfold SelectionManager.hasSelections, SelectionManager.getSelectedImages.
    destruct s; cbn; split; congruence. }
  split; [reflexivity|].
  split; [|split; [intros items n; apply SelectionFacts.selectAll_In | reflexivity]].
  intros name. cbn zeta.
  assert (Hflip : forall t n,
            In n (SelectionManager.toggleImageSelection true t name)
            <-> (if String.eqb n name then ~ In n t else In n t)).
  { intros t n. unfold SelectionManager.toggleImageSelection. cbn [negb].
    destruct (SelectionManager.has t name) eqn:E.
    - apply SelectionFacts.has_true in E. rewrite SelectionFacts.delete_In.
      destruct (String.eqb_spec n name) as [->|Hne]; tauto.
    - apply SelectionFacts.has_false in E. rewrite SelectionFacts.add_In.
      destruct (String.eqb_spec n name) as [->|Hne]; tauto. }
  split; [|split; [|split; [|split]]].
  - rewrite Hflip, String.eqb_refl. reflexivity.
  - intros other Hne. rewrite Hflip.
    destruct (String.eqb_spec other name); [contradiction | reflexivity].
  - intros Hin. unfold SelectionManager.toggleImageSelection. cbn [negb].
    rewrite (proj2 (SelectionFacts.has_true s name) Hin).
    now apply SelectionFacts.delete_length.
  - intros Hout. unfold SelectionManager.toggleImageSelection. cbn [negb].
    rewrite (proj2 (SelectionFacts.has_false s name) Hout).
    unfold SelectionManager.add.
    rewrite (proj2 (SelectionFacts.has_false s name) Hout), length_app. cbn [length]. lia.
  - intros n. rewrite Hflip.
    destruct (String.eqb_spec n name) as [->|Hne].
    + rewrite Hflip, String.eqb_refl.
      destruct (in_dec string_dec name s); tauto.
    + rewrite Hflip. destruct (String.eqb_spec n name); [contradiction | reflexivity].
Qed.
